(** * EQIAT: the fit / uncertainty engine of [gmf_calculator.py]

    A shallow embedding of the class [RuptureGmf]: the misfit evaluator
    ([calc_sum_squares_mmi], [calc_sum_squares_mmi_weighted], [calc_rmse]),
    the best-fit selector ([find_best_fit]), the uncertainty estimator
    ([uncertainty_model]) and the parameter slice ([uncertainty_slice]).

    Numbers.  The program computes with numpy float64 arrays.  They are
    modelled by the real numbers of the Standard Library, so rounding is
    idealised away; the one non-number the program can meet on the paths
    modelled here, the nan that scipy's [ppf] returns for a scale that is
    not positive, is kept explicit as [None] in an [option R].

    Effects.  Every method reads and assigns attributes of [self], prints,
    and may raise.  A method is a function from the object to an outcome
    (a value or a raised exception), the object after the call and the
    lines printed, so the attributes assigned before an exception is raised
    stay assigned, as in Python. *)

From Stdlib Require Import Reals Lra String List Arith Lia Bool.
From Stdlib Require Import Ascii ZArith.
Import ListNotations.
Open Scope R_scope.

(** ** Data model *)

(** A rupture as the engine sees it: [rup.mag], [rup.hypocenter.longitude],
    [rup.hypocenter.latitude], [rup.hypocenter.depth],
    [rup.surface.get_strike()] and [rup.surface.get_dip()]. *)
Record Point := mkPoint {
  longitude : R;
  latitude : R;
  depth : R
}.

Record Surface := mkSurface {
  get_strike : R;
  get_dip : R
}.

Record Rupture := mkRupture {
  mag : R;
  hypocenter : Point;
  surface : Surface
}.

(** The six lists filled by [uncertainty_model] from the fitted ruptures. *)
Record FittedLists := mkFittedLists {
  fitted_mags : list R;
  fitted_lons : list R;
  fitted_lats : list R;
  fitted_depths : list R;
  fitted_strikes : list R;
  fitted_dips : list R
}.

(** The twelve bounds assigned at the end of [uncertainty_model]. *)
Record Ranges := mkRanges {
  min_mag : R; max_mag : R;
  min_lon : R; max_lon : R;
  min_lat : R; max_lat : R;
  min_depth : R; max_depth : R;
  min_strike : R; max_strike : R;
  min_dip : R; max_dip : R
}.

(** The attributes of a [RuptureGmf] object that the engine reads or
    assigns.  An attribute that [__init__] does not create is an [option]:
    [None] until a method assigns it, and reading it then raises
    [AttributeError].  [uncert_fun] is the frozen distribution
    [norm(loc, scale)], kept as the pair of its arguments. *)
Record RuptureGmf := mkRuptureGmf {
  rupture_list : list Rupture;
  mmi_list : list (list R);
  sum_squares_list : option (list R);
  mmi_obs : option (list R);
  rmse : option (list R);
  best_rupture : option Rupture;
  min_rmse : option R;
  sigma : option R;
  uncert_fun : option (R * R);
  fitted_ruptures : option (list Rupture);
  fitted_lists : option FittedLists;
  ranges : option Ranges
}.

(** [RuptureGmf.__init__]: the three lists start empty; here the ruptures
    and the intensity fields that [calculate] and [rsa2mmi] would append
    are given directly. *)
Definition new_RuptureGmf (rups : list Rupture) (mmis : list (list R))
  : RuptureGmf :=
  mkRuptureGmf rups mmis None None None None None None None None None None.

(** Attribute assignment, one function per attribute that a method assigns. *)
Definition set_sum_squares_list (v : list R) (s : RuptureGmf) : RuptureGmf :=
  mkRuptureGmf (rupture_list s) (mmi_list s) (Some v) (mmi_obs s) (rmse s)
    (best_rupture s) (min_rmse s) (sigma s) (uncert_fun s)
    (fitted_ruptures s) (fitted_lists s) (ranges s).

Definition set_mmi_obs (v : list R) (s : RuptureGmf) : RuptureGmf :=
  mkRuptureGmf (rupture_list s) (mmi_list s) (sum_squares_list s) (Some v)
    (rmse s) (best_rupture s) (min_rmse s) (sigma s) (uncert_fun s)
    (fitted_ruptures s) (fitted_lists s) (ranges s).

Definition set_rmse (v : list R) (s : RuptureGmf) : RuptureGmf :=
  mkRuptureGmf (rupture_list s) (mmi_list s) (sum_squares_list s) (mmi_obs s)
    (Some v) (best_rupture s) (min_rmse s) (sigma s) (uncert_fun s)
    (fitted_ruptures s) (fitted_lists s) (ranges s).

Definition set_best_rupture (v : Rupture) (s : RuptureGmf) : RuptureGmf :=
  mkRuptureGmf (rupture_list s) (mmi_list s) (sum_squares_list s) (mmi_obs s)
    (rmse s) (Some v) (min_rmse s) (sigma s) (uncert_fun s)
    (fitted_ruptures s) (fitted_lists s) (ranges s).

Definition set_min_rmse (v : R) (s : RuptureGmf) : RuptureGmf :=
  mkRuptureGmf (rupture_list s) (mmi_list s) (sum_squares_list s) (mmi_obs s)
    (rmse s) (best_rupture s) (Some v) (sigma s) (uncert_fun s)
    (fitted_ruptures s) (fitted_lists s) (ranges s).

Definition set_sigma (v : R) (s : RuptureGmf) : RuptureGmf :=
  mkRuptureGmf (rupture_list s) (mmi_list s) (sum_squares_list s) (mmi_obs s)
    (rmse s) (best_rupture s) (min_rmse s) (Some v) (uncert_fun s)
    (fitted_ruptures s) (fitted_lists s) (ranges s).

Definition set_uncert_fun (v : R * R) (s : RuptureGmf) : RuptureGmf :=
  mkRuptureGmf (rupture_list s) (mmi_list s) (sum_squares_list s) (mmi_obs s)
    (rmse s) (best_rupture s) (min_rmse s) (sigma s) (Some v)
    (fitted_ruptures s) (fitted_lists s) (ranges s).

Definition set_fitted_ruptures (v : list Rupture) (s : RuptureGmf)
  : RuptureGmf :=
  mkRuptureGmf (rupture_list s) (mmi_list s) (sum_squares_list s) (mmi_obs s)
    (rmse s) (best_rupture s) (min_rmse s) (sigma s) (uncert_fun s)
    (Some v) (fitted_lists s) (ranges s).

Definition set_fitted_lists (v : FittedLists) (s : RuptureGmf) : RuptureGmf :=
  mkRuptureGmf (rupture_list s) (mmi_list s) (sum_squares_list s) (mmi_obs s)
    (rmse s) (best_rupture s) (min_rmse s) (sigma s) (uncert_fun s)
    (fitted_ruptures s) (Some v) (ranges s).

Definition set_ranges (v : Ranges) (s : RuptureGmf) : RuptureGmf :=
  mkRuptureGmf (rupture_list s) (mmi_list s) (sum_squares_list s) (mmi_obs s)
    (rmse s) (best_rupture s) (min_rmse s) (sigma s) (uncert_fun s)
    (fitted_ruptures s) (fitted_lists s) (Some v).

(** ** Methods as state transformers that may raise and print *)

Inductive exn := AttributeError | ValueError | IndexError.

Inductive outcome (A : Type) :=
| Ok (a : A)
| Raise (e : exn).
Arguments Ok {A} a.
Arguments Raise {A} e.

(** The six rupture parameters, the keys of [parameter_dict]. *)
Inductive Param := Pmag | Plongitude | Platitude | Pdepth | Pstrike | Pdip.

(** What a [print] statement writes: its items in order.  [Nan] is a
    printed nan. *)
Inductive Item :=
| Str (s : string)
| Num (r : R)
| Nan
| Arr (l : list R).

(** The observable effects other than the object's attributes: printed
    lines and the calls made to the plotting backend. *)
Inductive Event :=
| PrintLine (items : list Item)
| PltClf
| SaveFig (fig_comment : option string) (z : Param) (zvalue : R) (x y : Param).

Definition M (A : Type) : Type :=
  RuptureGmf -> outcome A * RuptureGmf * list Event.

Definition ret {A} (a : A) : M A := fun s => (Ok a, s, []).

Definition bind {A B} (m : M A) (k : A -> M B) : M B :=
  fun s =>
    match m s with
    | (Ok a, s1, out1) =>
        match k a s1 with
        | (r, s2, out2) => (r, s2, out1 ++ out2)
        end
    | (Raise e, s1, out1) => (Raise e, s1, out1)
    end.

Definition raise {A} (e : exn) : M A := fun s => (Raise e, s, []).

Definition assign (f : RuptureGmf -> RuptureGmf) : M unit :=
  fun s => (Ok tt, f s, []).

Definition print (items : list Item) : M unit :=
  fun s => (Ok tt, s, [PrintLine items]).

Definition emit (e : Event) : M unit := fun s => (Ok tt, s, [e]).

(** Reading [self.attr]: [AttributeError] while the attribute is unset. *)
Definition getattr {A} (field : RuptureGmf -> option A) : M A :=
  fun s =>
    match field s with
    | Some v => (Ok v, s, [])
    | None => (Raise AttributeError, s, [])
    end.

(** Reading an attribute that [__init__] creates. *)
Definition getfield {A} (field : RuptureGmf -> A) : M A :=
  fun s => (Ok (field s), s, []).

(** A pure step that may raise [e]. *)
Definition lift {A} (e : exn) (o : option A) : M A :=
  match o with
  | Some v => ret v
  | None => raise e
  end.

(** [try: m  except e: handler]. *)
Definition try_except {A} (m : M A) (e : exn) (handler : M A) : M A :=
  fun s =>
    match m s with
    | (Ok a, s1, out1) => (Ok a, s1, out1)
    | (Raise e', s1, out1) =>
        match e, e' with
        | AttributeError, AttributeError
        | ValueError, ValueError
        | IndexError, IndexError =>
            match handler s1 with
            | (r, s2, out2) => (r, s2, out1 ++ out2)
            end
        | _, _ => (Raise e', s1, out1)
        end
    end.

Declare Scope py_scope.
Delimit Scope py_scope with py.
Notation "x <- m ;; k" := (bind m (fun x => k))
  (at level 61, m at next level, right associativity) : py_scope.
Notation "m ;; k" := (bind m (fun _ => k))
  (at level 61, right associativity) : py_scope.
Open Scope py_scope.

(** [for x in l: body(x)]. *)
Fixpoint for_each {A} (l : list A) (body : A -> M unit) : M unit :=
  match l with
  | [] => ret tt
  | x :: l' => body x ;; for_each l' body
  end.

(** A [for] loop that rebinds a local variable on every turn. *)
Fixpoint for_fold {A V} (l : list A) (v : V) (body : A -> V -> M V) : M V :=
  match l with
  | [] => ret v
  | x :: l' => v' <- body x v ;; for_fold l' v' body
  end.

Definition outcome_of {A} (r : outcome A * RuptureGmf * list Event) :=
  fst (fst r).
Definition state_of {A} (r : outcome A * RuptureGmf * list Event) :=
  snd (fst r).
Definition output_of {A} (r : outcome A * RuptureGmf * list Event) :=
  snd r.

(** ** The numpy and builtin operations the engine uses *)

Definition Rltb (a b : R) : bool := if Rlt_dec a b then true else false.
Definition Reqb (a b : R) : bool := if Req_dec_T a b then true else false.

(** [a - b] on one-dimensional arrays: elementwise for equal lengths, a
    length-one operand is broadcast, any other pair of shapes raises
    [ValueError]. *)
Fixpoint zip_sub (a b : list R) : list R :=
  match a, b with
  | x :: a', y :: b' => (x - y) :: zip_sub a' b'
  | _, _ => []
  end.

Definition np_sub (a b : list R) : option (list R) :=
  if (length a =? length b)%nat then Some (zip_sub a b)
  else match a, b with
       | _, [y] => Some (map (fun x => x - y) a)
       | [x], _ => Some (map (fun y => x - y) b)
       | _, _ => None
       end.

(** [arr ** 2]. *)
Definition np_square (a : list R) : list R := map (fun v => v ^ 2) a.

(** [np.sum(arr)] and the builtin [sum(arr)]: both start from 0. *)
Definition np_sum (a : list R) : R := fold_left Rplus a 0.
Definition py_sum (a : list R) : R := fold_left Rplus a 0.

(** [np.dot(a, b)] on one-dimensional arrays: [ValueError] unless the
    lengths agree. *)
Fixpoint zip_mul (a b : list R) : list R :=
  match a, b with
  | x :: a', y :: b' => (x * y) :: zip_mul a' b'
  | _, _ => []
  end.

Definition np_dot (a b : list R) : option R :=
  if (length a =? length b)%nat then Some (np_sum (zip_mul a b)) else None.

(** [np.sqrt(arr)]. *)
Definition np_sqrt (a : list R) : list R := map sqrt a.

(** [np.argmin(arr)]: the first position of the least element;
    [ValueError] on an empty array. *)
Fixpoint argmin_from (best_i : nat) (best : R) (i : nat) (l : list R) : nat :=
  match l with
  | [] => best_i
  | x :: l' =>
      if Rlt_dec x best then argmin_from i x (S i) l'
      else argmin_from best_i best (S i) l'
  end.

Definition np_argmin (l : list R) : option nat :=
  match l with
  | [] => None
  | x :: l' => Some (argmin_from 0 x 1 l')
  end.

(** The builtins [min(seq)] and [max(seq)]: [ValueError] on an empty
    sequence. *)
Definition py_min (l : list R) : option R :=
  match l with
  | [] => None
  | x :: l' => Some (fold_left (fun m v => if Rlt_dec v m then v else m) l' x)
  end.

Definition py_max (l : list R) : option R :=
  match l with
  | [] => None
  | x :: l' => Some (fold_left (fun m v => if Rlt_dec m v then v else m) l' x)
  end.

(** [np.where(cond)[0]]: the positions, in increasing order, at which the
    condition holds. *)
Fixpoint where_from {A} (i : nat) (cond : A -> bool) (l : list A) : list nat :=
  match l with
  | [] => []
  | x :: l' =>
      if cond x then i :: where_from (S i) cond l'
      else where_from (S i) cond l'
  end.

Definition np_where {A} (cond : A -> bool) (l : list A) : list nat :=
  where_from 0 cond l.

(** [np.unique(arr)]: the distinct values in increasing order. *)
Fixpoint insert_unique (x : R) (l : list R) : list R :=
  match l with
  | [] => [x]
  | y :: l' =>
      if Rlt_dec x y then x :: y :: l'
      else if Req_dec_T x y then y :: l'
      else y :: insert_unique x l'
  end.

Definition np_unique (l : list R) : list R := fold_right insert_unique [] l.

(** [v < t] where [t] may be nan: every comparison with nan is false. *)
Definition lt_float (v : R) (t : option R) : bool :=
  match t with
  | Some t' => Rltb v t'
  | None => false
  end.

Definition item_of_float (t : option R) : Item :=
  match t with
  | Some t' => Num t'
  | None => Nan
  end.

(** ** Misfit evaluator *)

(** [calc_sum_squares_mmi(self, mmi_obs)]. *)
Definition calc_sum_squares_mmi (obs : list R) : M unit :=
  assign (set_sum_squares_list []) ;;
  mmis <- getfield mmi_list ;;
  for_each mmis (fun mmi =>
    d <- lift ValueError (np_sub mmi obs) ;;
    let sum_squares := np_sum (np_square d) in
    ssl <- getattr sum_squares_list ;;
    assign (set_sum_squares_list (ssl ++ [sum_squares]))).

(** [calc_sum_squares_mmi_weighted(self, mmi_obs, weights)].  The local
    [weights] is rebound inside the loop, so every turn normalises the
    weights the previous turn left. *)
Definition calc_sum_squares_mmi_weighted (obs weights : list R) : M unit :=
  assign (set_sum_squares_list []) ;;
  mmis <- getfield mmi_list ;;
  for_fold mmis weights (fun mmi weights =>
    let weights := map (fun w => w * (1 / py_sum weights)) weights in
    d <- lift ValueError (np_sub mmi obs) ;;
    sum_squares <- lift ValueError (np_dot weights (np_square d)) ;;
    ssl <- getattr sum_squares_list ;;
    assign (set_sum_squares_list (ssl ++ [sum_squares])) ;;
    ret weights) ;;
  ret tt.

(** [calc_rmse(self, mmi_obs, weights=None)].  The [try] reads
    [self.sum_squares_list]; the sums and [self.rmse] are computed only in
    the [except AttributeError] branch, that is only while the attribute
    does not exist yet. *)
Definition calc_rmse (obs : list R) (weights : option (list R)) : M unit :=
  assign (set_mmi_obs obs) ;;
  try_except
    (getattr sum_squares_list ;; ret tt)
    AttributeError
    (match weights with
     | Some w =>
         o <- getattr mmi_obs ;;
         calc_sum_squares_mmi_weighted o w ;;
         ssl <- getattr sum_squares_list ;;
         assign (set_rmse (np_sqrt ssl))
     | None =>
         o <- getattr mmi_obs ;;
         calc_sum_squares_mmi o ;;
         ssl <- getattr sum_squares_list ;;
         o' <- getattr mmi_obs ;;
         assign (set_rmse (np_sqrt (map (fun v => v / INR (length o')) ssl)))
     end).

(** ** Best-fit selector *)

(** [find_best_fit(self)]. *)
Definition find_best_fit : M unit :=
  r <- getattr rmse ;;
  index <- lift ValueError (np_argmin r) ;;
  rl <- getfield rupture_list ;;
  rup <- lift IndexError (nth_error rl index) ;;
  assign (set_best_rupture rup) ;;
  r' <- getattr rmse ;;
  v <- lift IndexError (nth_error r' index) ;;
  assign (set_min_rmse v).

(** ** Uncertainty estimator and parameter slice *)

(** [arr[idx]] with an array of positions: the elements at those
    positions; [IndexError] if a position is out of range. *)
Fixpoint take_at {A} (l : list A) (idx : list nat) : option (list A) :=
  match idx with
  | [] => Some []
  | i :: idx' =>
      match nth_error l i, take_at l idx' with
      | Some v, Some vs => Some (v :: vs)
      | _, _ => None
      end
  end.

(** [np.intersect1d(j, k)] for two increasing position arrays, as
    [np.where] returns them: the positions of [j] that occur in [k]. *)
Definition np_intersect1d (j k : list nat) : list nat :=
  filter (fun a => existsb (Nat.eqb a) k) j.

(** [parameter_dict]: the row of [parameter_space] that holds a parameter. *)
Definition parameter_dict (p : Param) : nat :=
  match p with
  | Pmag => 0
  | Plongitude => 1
  | Platitude => 2
  | Pdepth => 3
  | Pstrike => 4
  | Pdip => 5
  end%nat.

(** [np.vstack([mags, lons, lats, depths, strikes, dips])]. *)
Definition parameter_space (rl : list Rupture) : list (list R) :=
  [ map mag rl;
    map (fun rup => longitude (hypocenter rup)) rl;
    map (fun rup => latitude (hypocenter rup)) rl;
    map (fun rup => depth (hypocenter rup)) rl;
    map (fun rup => get_strike (surface rup)) rl;
    map (fun rup => get_dip (surface rup)) rl ].

Definition obind {A B} (o : option A) (k : A -> option B) : option B :=
  match o with
  | Some a => k a
  | None => None
  end.

(** The twelve [min]/[max] assignments that close [uncertainty_model];
    [None] when one of them raises [ValueError] (an empty list). *)
Definition ranges_of (fl : FittedLists) : option Ranges :=
  obind (py_min (fitted_mags fl)) (fun a1 =>
  obind (py_max (fitted_mags fl)) (fun a2 =>
  obind (py_min (fitted_lons fl)) (fun b1 =>
  obind (py_max (fitted_lons fl)) (fun b2 =>
  obind (py_min (fitted_lats fl)) (fun c1 =>
  obind (py_max (fitted_lats fl)) (fun c2 =>
  obind (py_min (fitted_depths fl)) (fun d1 =>
  obind (py_max (fitted_depths fl)) (fun d2 =>
  obind (py_min (fitted_strikes fl)) (fun e1 =>
  obind (py_max (fitted_strikes fl)) (fun e2 =>
  obind (py_min (fitted_dips fl)) (fun f1 =>
  obind (py_max (fitted_dips fl)) (fun f2 =>
  Some (mkRanges a1 a2 b1 b2 c1 c2 d1 d2 e1 e2 f1 f2))))))))))))).

(** The six lists that the loop [for rup in self.fitted_ruptures] of
    [uncertainty_model] fills. *)
Definition fitted_lists_of (fr : list Rupture) : FittedLists :=
  mkFittedLists
    (map mag fr)
    (map (fun rup => longitude (hypocenter rup)) fr)
    (map (fun rup => latitude (hypocenter rup)) fr)
    (map (fun rup => depth (hypocenter rup)) fr)
    (map (fun rup => get_strike (surface rup)) fr)
    (map (fun rup => get_dip (surface rup)) fr).

(** The triple of local lists [xs], [ys], [rmse_list] of
    [uncertainty_slice]. *)
Definition SliceLists : Type := (list R * list R * list R)%type.

(** The body of the inner loop [for yi in np.unique(yvalues)], one turn
    per element of [yus], for a fixed [xi]. *)
Fixpoint slice_inner (xvalues yvalues rmse_subset : list R) (xi : R)
  (yus : list R) (acc : SliceLists) : outcome SliceLists :=
  match yus with
  | [] => Ok acc
  | yi :: yus' =>
      let j := np_where (fun v => Reqb v xi) xvalues in
      let k := np_where (fun v => Reqb v yi) yvalues in
      let i := np_intersect1d j k in
      if (0 <? length i)%nat then
        match take_at rmse_subset i with
        | None => Raise IndexError
        | Some sub =>
            match py_min sub with
            | None => Raise ValueError
            | Some m =>
                let '(xs, ys, rmse_list) := acc in
                slice_inner xvalues yvalues rmse_subset xi yus'
                  (xs ++ [xi], ys ++ [yi], rmse_list ++ [m])
            end
        end
      else slice_inner xvalues yvalues rmse_subset xi yus' acc
  end.

(** The outer loop [for xi in np.unique(xvalues)]. *)
Fixpoint slice_outer (xvalues yvalues rmse_subset : list R)
  (xus : list R) (acc : SliceLists) : outcome SliceLists :=
  match xus with
  | [] => Ok acc
  | xi :: xus' =>
      match slice_inner xvalues yvalues rmse_subset xi
              (np_unique yvalues) acc with
      | Ok acc' => slice_outer xvalues yvalues rmse_subset xus' acc'
      | Raise e => Raise e
      end
  end.

Definition lift_outcome {A} (o : outcome A) : M A :=
  match o with
  | Ok a => ret a
  | Raise e => raise e
  end.

Section Engine.

(** scipy and matplotlib are not part of the repository; what the engine
    needs from them is taken as given.

    [z975] is the 97.5th percentile of the standard normal distribution,
    so that [norm(loc, scale).ppf(0.975)] is [loc + scale * z975] for a
    positive [scale]; scipy returns nan for a scale that is not
    positive. *)
Variable z975 : R.

Definition ppf975 (d : R * R) : option R :=
  let (loc, scale) := d in
  if Rlt_dec 0 scale then Some (loc + scale * z975) else None.

(** [uncertainty_model(self)], first part (the [if]/[else]): the local
    [indices], the positions of the accepted candidates. *)
Definition accepted_indices : M (list nat) :=
  obs <- getattr mmi_obs ;;
  if (length obs <=? 6)%nat then
    print [Str "Not enough data points to calculate uncertainties"] ;;
    r <- getattr rmse ;;
    ret (np_where (fun v => Rltb v 1e24) r)
  else
    r <- getattr rmse ;;
    m <- lift ValueError (py_min r) ;;
    assign (set_sigma ((1 / INR (length obs - 6)) * m ^ 2)) ;;
    sg <- getattr sigma ;;
    print [Num sg] ;;
    assign (set_uncert_fun (m, sg)) ;;
    uf <- getattr uncert_fun ;;
    print [item_of_float (ppf975 uf)] ;;
    ret (np_where (fun v => lt_float v (ppf975 uf)) r).

(** [uncertainty_model(self)], second part (from [print 'max rmse'] to
    the end): the fitted ruptures, their parameter lists and ranges. *)
Definition fit_ruptures (indices : list nat) : M unit :=
  r <- getattr rmse ;;
  mx <- lift ValueError (py_max r) ;;
  print [Str "max rmse"; Num mx] ;;
  assign (set_fitted_ruptures []) ;;
  for_each indices (fun index =>
    rl <- getfield rupture_list ;;
    rup <- lift IndexError (nth_error rl index) ;;
    fr <- getattr fitted_ruptures ;;
    assign (set_fitted_ruptures (fr ++ [rup]))) ;;
  fr <- getattr fitted_ruptures ;;
  assign (set_fitted_lists (fitted_lists_of fr)) ;;
  fl <- getattr fitted_lists ;;
  rg <- lift ValueError (ranges_of fl) ;;
  assign (set_ranges rg) ;;
  print [Str "strikes"; Arr (np_unique (fitted_strikes fl))] ;;
  print [Str "dips"; Arr (np_unique (fitted_dips fl))].

(** [uncertainty_model(self)]. *)
Definition uncertainty_model : M unit :=
  indices <- accepted_indices ;;
  fit_ruptures indices.

(** The grid and the plotting backend: [np.mgrid] on the two
    [(start, stop, step)] slices, [interpolate.griddata] with
    [method='nearest'], and whether [plt.contour] and [plt.contourf]
    return ([true]) or raise [ValueError] ([false]). *)
Variable Grid : Type.
Variable GridValues : Type.
Variable np_mgrid : R * R * R -> R * R * R -> Grid.
Variable griddata_nearest : list R -> list R -> list R -> Grid -> GridValues.
Variable plt_contour : Grid -> GridValues -> list (option R) -> bool.
Variable plt_contourf : Grid -> GridValues -> R -> R -> bool.

Definition only_one : list Item :=
  [Str "only one best fit locations, cannnot plot locations uncertainty"].

(** [uncertainty_slice(self, x, y, z, zvalue, fig_comment=None)]. *)
Definition uncertainty_slice (x y z : Param) (zvalue : R)
  (fig_comment : option string) : M SliceLists :=
  rl <- getfield rupture_list ;;
  let space := parameter_space rl in
  let indices :=
    np_where (fun v => Reqb v zvalue) (nth (parameter_dict z) space []) in
  xvalues <- lift IndexError
               (take_at (nth (parameter_dict x) space []) indices) ;;
  yvalues <- lift IndexError
               (take_at (nth (parameter_dict y) space []) indices) ;;
  r <- getattr rmse ;;
  rmse_subset <- lift IndexError (take_at r indices) ;;
  pts <- lift_outcome
           (slice_outer xvalues yvalues rmse_subset (np_unique xvalues)
              ([], [], [])) ;;
  let '(xs, ys, rmse_list) := pts in
  print [Str "rmse_subset"; Arr rmse_list] ;;
  x0 <- lift ValueError (py_min xvalues) ;;
  x1 <- lift ValueError (py_max xvalues) ;;
  y0 <- lift ValueError (py_min yvalues) ;;
  y1 <- lift ValueError (py_max yvalues) ;;
  let grid := np_mgrid (x0, x1, 0.02) (y0, y1, 0.01) in
  let rmse_grid := griddata_nearest xs ys rmse_list grid in
  emit PltClf ;;
  try_except
    (try_except
       (sg <- getattr sigma ;;
        uf <- getattr uncert_fun ;;
        if plt_contour grid rmse_grid [Some sg; ppf975 uf]
        then ret tt else raise ValueError)
       AttributeError (ret tt))
    ValueError (print only_one) ;;
  try_except
    (r' <- getattr rmse ;;
     vmax <- lift ValueError (py_max r') ;;
     vmin <- lift ValueError (py_min r') ;;
     (if plt_contourf grid rmse_grid vmax vmin
      then ret tt else raise ValueError) ;;
     emit (SaveFig fig_comment z zvalue x y))
    ValueError (print only_one) ;;
  ret (xs, ys, rmse_list).

End Engine.

(** ** The properties in the words of the specification *)

(** Sum over the sites [0 .. n-1]. *)
Fixpoint sum_over (n : nat) (f : nat -> R) : R :=
  match n with
  | O => 0
  | S n' => sum_over n' f + f n'
  end.

(** The value of a field at a site. *)
Definition site (a : list R) (i : nat) : R := nth i a 0.

(** Root-mean-square error over the [N] sites of the observation vector. *)
Definition rmse_spec (predicted observed : list R) : R :=
  let N := length observed in
  sqrt (sum_over N (fun i => (site predicted i - site observed i) ^ 2)
        / INR N).

(** Mean squared error over the [N] sites. *)
Definition mse_spec (predicted observed : list R) : R :=
  let N := length observed in
  sum_over N (fun i => (site predicted i - site observed i) ^ 2) / INR N.

(** Weights scaled to sum to 1. *)
Definition normalized_weight (weights : list R) (i : nat) : R :=
  site weights i / sum_over (length weights) (site weights).

(** Weighted sum of squared residuals, with normalized weights. *)
Definition weighted_squares_spec (weights predicted observed : list R) : R :=
  sum_over (length observed)
    (fun i => normalized_weight weights i
              * (site predicted i - site observed i) ^ 2).

(** The value of a parameter of a rupture. *)
Definition param_value (p : Param) (rup : Rupture) : R :=
  match p with
  | Pmag => mag rup
  | Plongitude => longitude (hypocenter rup)
  | Platitude => latitude (hypocenter rup)
  | Pdepth => depth (hypocenter rup)
  | Pstrike => get_strike (surface rup)
  | Pdip => get_dip (surface rup)
  end.

(** The weights after the statement
    [weights = weights*(1./sum(weights))]. *)
Definition normalise (weights : list R) : list R :=
  map (fun w => w * (1 / py_sum weights)) weights.

(** ** The slice, loop by loop *)

(** What one turn of the inner loop of [uncertainty_slice] appends for the
    pair [(xi, yi)]: nothing, or one triple. *)
Definition slice_cell (xvalues yvalues rmse_subset : list R) (xi yi : R)
  : list (R * R * R) :=
  let j := np_where (fun v => Reqb v xi) xvalues in
  let k := np_where (fun v => Reqb v yi) yvalues in
  let i := np_intersect1d j k in
  if (0 <? length i)%nat then
    match take_at rmse_subset i with
    | Some sub =>
        match py_min sub with
        | Some m => [(xi, yi, m)]
        | None => []
        end
    | None => []
    end
  else [].

(** What the two loops append, in order. *)
Definition slice_row (xvalues yvalues rmse_subset : list R) (xi : R)
  (yus : list R) : list (R * R * R) :=
  flat_map (slice_cell xvalues yvalues rmse_subset xi) yus.

Definition slice_entries (xvalues yvalues rmse_subset : list R)
  (xus : list R) : list (R * R * R) :=
  flat_map (fun xi => slice_row xvalues yvalues rmse_subset xi
                        (np_unique yvalues)) xus.

Definition entry_x (t : R * R * R) : R := fst (fst t).
Definition entry_y (t : R * R * R) : R := snd (fst t).
Definition entry_rmse (t : R * R * R) : R := snd t.

(** The pair of an entry. *)
Definition entry_key (t : R * R * R) : R * R := (entry_x t, entry_y t).

(** Strictly increasing lists. *)
Inductive increasing : list R -> Prop :=
| increasing_nil : increasing []
| increasing_cons a l :
    increasing l -> (forall x, In x l -> a < x) -> increasing (a :: l).

(** The three parallel lists of a list of triples, appended to [acc]. *)
Definition append_entries (acc : SliceLists) (E : list (R * R * R))
  : SliceLists :=
  let '(xs, ys, rmse_list) := acc in
  (xs ++ map entry_x E, ys ++ map entry_y E, rmse_list ++ map entry_rmse E).

(** A candidate of the store at position [c] that the slice selects. *)
Definition selected (s : RuptureGmf) (z : Param) (zvalue : R)
  (c : nat) (rup : Rupture) : Prop :=
  nth_error (rupture_list s) c = Some rup /\ param_value z rup = zvalue.

(** [m] keeps [P]: if [P] holds of the object before the call it holds
    after it, whether the call returns or raises. *)
Definition preserves (P : RuptureGmf -> Prop) {A} (m : M A) : Prop :=
  forall s, P s -> P (state_of (m s)).

(** [m] establishes [P]: [P] holds of the object after the call, whatever
    held before and whether the call returns or raises. *)
Definition establishes (P : RuptureGmf -> Prop) {A} (m : M A) : Prop :=
  forall s, P (state_of (m s)).

(** The attribute [sum_squares_list] exists. *)
Definition has_sums (s : RuptureGmf) : Prop := sum_squares_list s <> None.

(** [m] gives up [P] only by returning: if [P] holds before the call and
    the call raises, [P] still holds after it. *)
Definition keeps_unless_ok (P : RuptureGmf -> Prop) {A} (m : M A) : Prop :=
  forall s, P s ->
    (exists a, outcome_of (m s) = Ok a) \/ P (state_of (m s)).

(** The value of a field at a site when a one-site field stands for every
    site. *)
Definition site_or_only (a : list R) (i : nat) : R :=
  match a with
  | [x] => x
  | _ => site a i
  end.

(** Two objects that differ at most in [best_rupture] and [min_rmse]. *)
Definition same_but_best_fit (s s' : RuptureGmf) : Prop :=
  rupture_list s' = rupture_list s /\
  mmi_list s' = mmi_list s /\
  sum_squares_list s' = sum_squares_list s /\
  mmi_obs s' = mmi_obs s /\
  rmse s' = rmse s /\
  sigma s' = sigma s /\
  uncert_fun s' = uncert_fun s /\
  fitted_ruptures s' = fitted_ruptures s /\
  fitted_lists s' = fitted_lists s /\
  ranges s' = ranges s.

(** The lower and the upper bound that [uncertainty_model] reports for a
    parameter. *)
Definition range_min (p : Param) (rg : Ranges) : R :=
  match p with
  | Pmag => min_mag rg
  | Plongitude => min_lon rg
  | Platitude => min_lat rg
  | Pdepth => min_depth rg
  | Pstrike => min_strike rg
  | Pdip => min_dip rg
  end.

Definition range_max (p : Param) (rg : Ranges) : R :=
  match p with
  | Pmag => max_mag rg
  | Plongitude => max_lon rg
  | Platitude => max_lat rg
  | Pdepth => max_depth rg
  | Pstrike => max_strike rg
  | Pdip => max_dip rg
  end.

(** The order of the pairs of a slice: by x, then by y. *)
Definition key_lt (k1 k2 : R * R) : Prop :=
  fst k1 < fst k2 \/ (fst k1 = fst k2 /\ snd k1 < snd k2).

Inductive sorted_keys : list (R * R) -> Prop :=
| sorted_keys_nil : sorted_keys []
| sorted_keys_cons k l :
    sorted_keys l -> (forall k', In k' l -> key_lt k k') ->
    sorted_keys (k :: l).

(** A call that returns [a] and leaves the object as it was. *)
Definition runs_ok {A} (m : M A) (s : RuptureGmf) (a : A) : Prop :=
  exists out, m s = (Ok a, s, out).

(** A call that raises [e] and leaves the object as it was. *)
Definition runs_raise {A} (m : M A) (s : RuptureGmf) (e : exn) : Prop :=
  exists out, m s = (Raise e, s, out).

(** The line [uncertainty_model] prints when there are too few
    observations. *)
Definition not_enough : Event :=
  PrintLine [Str "Not enough data points to calculate uncertainties"].

(** ** Concrete stores *)

(** The value 1.96 of [z975] to two decimals, for the examples. *)
Definition z975_approx : R := 1.96.

Definition rup_a : Rupture := mkRupture 7 (mkPoint 110 (-8) 10) (mkSurface 90 30).
Definition rup_b : Rupture := mkRupture 7.5 (mkPoint 110 (-8) 20) (mkSurface 90 30).
Definition rup_c : Rupture := mkRupture 7 (mkPoint 111 (-8) 10) (mkSurface 270 45).

(** Scenario A: three candidates with fields [5,5,5], [6,6,6], [4,4,4]
    and the observations [5,5,5], after [calc_rmse]. *)
Definition scenario_A_fresh : RuptureGmf :=
  new_RuptureGmf [rup_a; rup_b; rup_c] [[5; 5; 5]; [6; 6; 6]; [4; 4; 4]].

Definition scenario_A : RuptureGmf :=
  state_of (calc_rmse [5; 5; 5] None scenario_A_fresh).

(** Scenario B: three candidates at seven sites whose best misfit is 0.2,
    after [calc_rmse]. *)
Definition obs7 : list R := [5; 5; 5; 5; 5; 5; 5].

Definition scenario_B_fresh : RuptureGmf :=
  new_RuptureGmf [rup_a; rup_b; rup_c]
    [[5.2; 5.2; 5.2; 5.2; 5.2; 5.2; 5.2];
     [6; 6; 6; 6; 6; 6; 6];
     [4; 4; 4; 4; 4; 4; 4]].

Definition scenario_B : RuptureGmf :=
  state_of (calc_rmse obs7 None scenario_B_fresh).

(** A first candidate that fits the seven observations exactly. *)
Definition exact_fit_fresh : RuptureGmf :=
  new_RuptureGmf [rup_a; rup_b]
    [[5; 5; 5; 5; 5; 5; 5]; [6; 6; 6; 6; 6; 6; 6]].

Definition exact_fit : RuptureGmf :=
  state_of (calc_rmse obs7 None exact_fit_fresh).

(** Three observations and no candidate. *)
Definition no_candidate : RuptureGmf :=
  state_of (calc_rmse [5; 5; 5] None (new_RuptureGmf [] [])).

(** ** Sources, ground motion fields and intensities *)

(** A source as the module sees it: [source.source_id], [source.name],
    [source.tectonic_region_type] and the ruptures that
    [source.iter_ruptures()] yields. *)
Record Source := mkSource {
  source_id : string;
  name : string;
  tectonic_region_type : string;
  iter_ruptures : list Rupture
}.

(** The dictionaries [new_sources] and [new_pt_sources]: a list of sources
    per key, every key at most once. *)
Definition SourceDict : Type := list (string * list Source).

(** [d[k]]: [None] is [KeyError]. *)
Fixpoint dict_get (d : SourceDict) (k : string) : option (list Source) :=
  match d with
  | [] => None
  | (k', l) :: d' => if String.eqb k' k then Some l else dict_get d' k
  end.

(** [try: d[k].append(v)  except KeyError: d[k] = [v]]. *)
Fixpoint dict_append (d : SourceDict) (k : string) (v : Source) : SourceDict :=
  match d with
  | [] => [(k, [v])]
  | (k', l) :: d' =>
      if String.eqb k' k then (k', l ++ [v]) :: d'
      else (k', l) :: dict_append d' k v
  end.

(** What the OpenQuake parser gives for a source model file:
    [parser.parse_sources(file)], or [None] where the parser has no such
    method and the call raises [AttributeError] (version 2.1 and above),
    and [parser.parse_src_groups(file)]. *)
Record ParsedModel := mkParsedModel {
  parse_sources : option (list Source);
  parse_src_groups : list (list Source)
}.

(** The [try]/[except AttributeError] that opens [get_pt_sources] and
    [get_sources]: the local list [sources]. *)
Definition parsed_sources (parser : ParsedModel) : list Source :=
  match parse_sources parser with
  | Some sources => sources
  | None =>
      fold_left
        (fun sources group =>
           fold_left (fun sources source => sources ++ [source]) group sources)
        (parse_src_groups parser) []
  end.

(** [get_sources(source_model_file, discretisation)]. *)
Definition get_sources (parser : ParsedModel) : SourceDict :=
  fold_left
    (fun new_sources source =>
       dict_append new_sources (tectonic_region_type source) source)
    (parsed_sources parser) [].

(** [s.replace(old, new)] for a one-character [old]. *)
Fixpoint str_replace (old : ascii) (new : string) (s : string) : string :=
  match s with
  | EmptyString => EmptyString
  | String c s' =>
      if Ascii.eqb c old then (new ++ str_replace old new s')%string
      else String c (str_replace old new s')
  end.

(** The two assignments on a point source in [get_pt_sources]. *)
Definition rename_point (pt : Source) : Source :=
  mkSource (str_replace ":" "" (source_id pt))
           (str_replace ":" "_" (name pt))
           (tectonic_region_type pt)
           (iter_ruptures pt).

(** [get_pt_sources(area_source_file, discretisation)];
    [area_to_point_sources] is OpenQuake's. *)
Definition get_pt_sources (area_to_point_sources : Source -> list Source)
  (parser : ParsedModel) : SourceDict :=
  fold_left
    (fun new_pt_sources source =>
       fold_left
         (fun new_pt_sources pt =>
            let pt := rename_point pt in
            dict_append new_pt_sources (tectonic_region_type pt) pt)
         (area_to_point_sources source) new_pt_sources)
    (parsed_sources parser) [].

Definition set_rupture_list (v : list Rupture) (s : RuptureGmf) : RuptureGmf :=
  mkRuptureGmf v (mmi_list s) (sum_squares_list s) (mmi_obs s) (rmse s)
    (best_rupture s) (min_rmse s) (sigma s) (uncert_fun s)
    (fitted_ruptures s) (fitted_lists s) (ranges s).

Definition set_mmi_list (v : list (list R)) (s : RuptureGmf) : RuptureGmf :=
  mkRuptureGmf (rupture_list s) v (sum_squares_list s) (mmi_obs s) (rmse s)
    (best_rupture s) (min_rmse s) (sigma s) (uncert_fun s)
    (fitted_ruptures s) (fitted_lists s) (ranges s).

(** The whole object: the attributes [sources] and [gmf_list] beside the
    attributes of the fit engine. *)
Record Generator := mkGenerator {
  sources : list Source;
  gmf_list : list (list R);
  engine : RuptureGmf
}.

(** [RuptureGmf.__init__(self, sources, gsim, sitecol, imts)]. *)
Definition init (srcs : list Source) : Generator :=
  mkGenerator srcs [] (new_RuptureGmf [] []).

(** A method of the fit engine called on the whole object. *)
Definition on_engine {A} (m : M A) (g : Generator)
  : outcome A * Generator * list Event :=
  match m (engine g) with
  | (o, s, out) => (o, mkGenerator (sources g) (gmf_list g) s, out)
  end.

Section Fields.

(** [GmfComputer(rupture, self.sitecol, self.imts, [self.gsim],
    truncation_level=0).compute(self.gsim, 1).flatten()] for the site
    collection, intensity measure types and GSIM of the object, and
    [rsa2mmi8(gmf, period = 1.0)] of the module RSA2MMI. *)
Variable compute_gmf : Rupture -> list R.
Variable rsa2mmi8 : list R -> list R.

(** The two [append]s that close the inner loop of [calculate]. *)
Definition store_rupture (g : Generator) (rupture : Rupture) : Generator :=
  let gmf := compute_gmf rupture in
  mkGenerator (sources g) (gmf_list g ++ [gmf])
    (set_rupture_list (rupture_list (engine g) ++ [rupture]) (engine g)).

(** [calculate_from_pts(self)]. *)
Definition calculate_from_pts (g : Generator) : Generator :=
  fold_left
    (fun g pt => fold_left store_rupture (iter_ruptures pt) g)
    (sources g) g.

(** [calculate(self)]. *)
Definition calculate (g : Generator) : Generator :=
  fold_left
    (fun g source => fold_left store_rupture (iter_ruptures source) g)
    (sources g) g.

(** [rsa2mmi(self)]. *)
Definition rsa2mmi (g : Generator) : Generator :=
  fold_left
    (fun g gmf =>
       let mmi := rsa2mmi8 gmf in
       mkGenerator (sources g) (gmf_list g)
         (set_mmi_list (mmi_list (engine g) ++ [mmi]) (engine g)))
    (gmf_list g) g.

End Fields.

(** Whether a character occurs in a string. *)
Fixpoint str_contains (c : ascii) (s : string) : bool :=
  match s with
  | EmptyString => false
  | String c' s' => Ascii.eqb c' c || str_contains c s'
  end.

(** How often a character occurs in a string. *)
Fixpoint count_char (c : ascii) (s : string) : nat :=
  match s with
  | EmptyString => 0%nat
  | String c' s' =>
      ((if Ascii.eqb c' c then 1 else 0) + count_char c s')%nat
  end.

(** The sources of one tectonic region type, in their order; no entry
    when there is none. *)
Definition sources_of_type (k : string) (l : list Source)
  : option (list Source) :=
  match filter (fun source => String.eqb (tectonic_region_type source) k) l
  with
  | [] => None
  | group => Some group
  end.

(** ** The script [make_maps.py] *)

Module MakeMaps.

(** The exceptions the loop can raise. *)
Inductive error := IndexError | ValueError | KeyError.

(** What the loop does to the outside: the lines it prints and the
    commands it passes to [os.system]. *)
Inductive Effect :=
| Print (line : string)
| System (cmd : string).

Definition bbox_dict : list (Z * string) :=
  [ (1699, "104/113/-9/-5");
    (1834, "105/110/-8/-5");
    (1840, "105/115/-9/-5");
    (1847, "104/115/-9/-5");
    (1867, "105/115/-9/-5");
    (1815, "110/126/-10/-5");
    (1818, "110/126/-10/-5");
    (1820, "110/126/-10/-5") ]%Z%string.

(** [bbox_dict[k]]: [None] is [KeyError]. *)
Fixpoint lookup (d : list (Z * string)) (k : Z) : option string :=
  match d with
  | [] => None
  | (k', v) :: d' => if Z.eqb k' k then Some v else lookup d' k
  end.

(** [s.split(sep)] for a one-character separator. *)
Fixpoint str_split (sep : ascii) (s : string) : list string :=
  match s with
  | EmptyString => [EmptyString]
  | String c s' =>
      if Ascii.eqb c sep then EmptyString :: str_split sep s'
      else match str_split sep s' with
           | [] => [String c EmptyString]
           | piece :: pieces => String c piece :: pieces
           end
  end.

Section Loop.

(** The builtin [int(s)] ([None] is [ValueError]) and [pipes.quote]. *)
Variable py_int : string -> option Z.
Variable quote : string -> string.

(** One turn of the loop [for filename in filelist]: the effects, and the
    exception if the turn raises. *)
Definition turn (filename : string) : list Effect * option error :=
  let split := str_split "_" filename in
  match nth_error split 3 with
  | None => ([], Some IndexError)
  | Some field3 =>
      if negb (String.eqb field3 "mmi") then ([], None)
      else
        match nth_error split 4 with
        | None => ([], Some IndexError)
        | Some field4 =>
            let event := substring 0 4 field4 in
            match py_int event with
            | None => ([Print event], Some ValueError)
            | Some year =>
                match lookup bbox_dict year with
                | None => ([Print event], Some KeyError)
                | Some bbox =>
                    let mmi_obs_file :=
                      ("data/" ++ event ++ "HMMI.txt")%string in
                    let filename' := quote filename in
                    let cmd :=
                      ("python plot_maps.py " ++ mmi_obs_file ++ " "
                       ++ filename' ++ " " ++ bbox)%string in
                    ([Print event; Print cmd; System cmd], None)
                end
            end
        end
  end.

(** The loop: it stops at the first turn that raises. *)
Fixpoint main (filelist : list string) : list Effect * option error :=
  match filelist with
  | [] => ([], None)
  | filename :: rest =>
      match turn filename with
      | (effects, Some e) => (effects, Some e)
      | (effects, None) =>
          let (effects', r) := main rest in (effects ++ effects', r)
      end
  end.

End Loop.

End MakeMaps.

(** [int] on the years of the catalogue, for the examples. *)
Definition int_of_year (s : string) : option Z :=
  if String.eqb s "1699" then Some 1699%Z
  else if String.eqb s "1834" then Some 1834%Z
  else None.

(** * Proofs *)

(** ** Sums *)

Lemma sum_over_ext n f g :
  (forall i, (i < n)%nat -> f i = g i) -> sum_over n f = sum_over n g.
Proof.
  induction n as [|n IH]; intros H; simpl; [reflexivity|].
  rewrite IH by (intros; apply H; lia).
  rewrite (H n) by lia. reflexivity.
Qed.

Lemma np_sum_snoc l x : np_sum (l ++ [x]) = np_sum l + x.
Proof. unfold np_sum. rewrite fold_left_app. reflexivity. Qed.

Lemma np_sum_sum_over l : np_sum l = sum_over (length l) (site l).
Proof.
  induction l as [|x l IH] using rev_ind; [reflexivity|].
  rewrite np_sum_snoc, length_app, Nat.add_1_r. simpl.
  rewrite IH. f_equal.
  - apply sum_over_ext. intros i Hi. unfold site. now rewrite app_nth1.
  - unfold site. now rewrite nth_middle.
Qed.

Lemma py_sum_sum_over l : py_sum l = sum_over (length l) (site l).
Proof. exact (np_sum_sum_over l). Qed.

Lemma sum_over_scale n f c :
  sum_over n (fun i => f i * c) = sum_over n f * c.
Proof. induction n as [|n IH]; simpl; [lra | rewrite IH; lra]. Qed.

Lemma zip_sub_length a b :
  length a = length b -> length (zip_sub a b) = length b.
Proof.
  revert b. induction a as [|x a IH]; intros [|y b] H; simpl in *;
    try discriminate; auto.
Qed.

Lemma zip_sub_site a b i :
  length a = length b -> site (zip_sub a b) i = site a i - site b i.
Proof.
  unfold site. revert b i.
  induction a as [|x a IH]; intros [|y b] i H; simpl in *; try discriminate.
  - destruct i; lra.
  - destruct i; [reflexivity | apply IH; lia].
Qed.

Lemma zip_mul_length a b :
  length a = length b -> length (zip_mul a b) = length b.
Proof.
  revert b. induction a as [|x a IH]; intros [|y b] H; simpl in *;
    try discriminate; auto.
Qed.

Lemma zip_mul_site a b i :
  length a = length b -> site (zip_mul a b) i = site a i * site b i.
Proof.
  unfold site. revert b i.
  induction a as [|x a IH]; intros [|y b] i H; simpl in *; try discriminate.
  - destruct i; lra.
  - destruct i; [reflexivity | apply IH; lia].
Qed.

Lemma np_square_length a : length (np_square a) = length a.
Proof. apply length_map. Qed.

Lemma np_square_site a i : site (np_square a) i = site a i ^ 2.
Proof.
  unfold site, np_square. revert i.
  induction a as [|x a IH]; intros [|i]; simpl; try lra. apply IH.
Qed.

(** The sum of squares that [calc_sum_squares_mmi] appends for one field. *)
Lemma sum_squares_site mmi obs :
  length mmi = length obs ->
  np_sum (np_square (zip_sub mmi obs))
  = sum_over (length obs) (fun i => (site mmi i - site obs i) ^ 2).
Proof.
  intros H. rewrite np_sum_sum_over, np_square_length, zip_sub_length by assumption.
  apply sum_over_ext. intros i _.
  now rewrite np_square_site, zip_sub_site.
Qed.

Lemma np_sub_same_length a b :
  length a = length b -> np_sub a b = Some (zip_sub a b).
Proof. intros H. unfold np_sub. now rewrite H, Nat.eqb_refl. Qed.

(** ** Misfit evaluator *)

(** The loop of [calc_sum_squares_mmi] on fields of the observations'
    length: one sum of squares appended per field, no exception. *)
Lemma sum_squares_loop obs mmis acc s :
  Forall (fun mmi => length mmi = length obs) mmis ->
  for_each mmis (fun mmi =>
    d <- lift ValueError (np_sub mmi obs) ;;
    ssl <- getattr sum_squares_list ;;
    assign (set_sum_squares_list (ssl ++ [np_sum (np_square d)])))
    (set_sum_squares_list acc s)
  = (Ok tt,
     set_sum_squares_list
       (acc ++ map (fun mmi => np_sum (np_square (zip_sub mmi obs))) mmis) s,
     []).
Proof.
  intros H. revert acc.
  induction H as [|mmi mmis Hlen _ IH]; intros acc.
  - simpl. unfold ret. now rewrite app_nil_r.
  - simpl. unfold bind at 1. unfold bind at 1.
    rewrite (np_sub_same_length _ _ Hlen). simpl.
    change (set_sum_squares_list ?v (set_sum_squares_list acc s))
      with (set_sum_squares_list v s).
    rewrite IH. rewrite <- app_assoc. reflexivity.
Qed.

(** The state [calc_rmse] leaves on a store without sums of squares, in
    unweighted mode. *)
Lemma calc_rmse_unweighted_run s obs :
  sum_squares_list s = None ->
  Forall (fun mmi => length mmi = length obs) (mmi_list s) ->
  calc_rmse obs None s
  = (Ok tt,
     set_rmse
       (np_sqrt (map (fun v => v / INR (length obs))
                   (map (fun mmi => np_sum (np_square (zip_sub mmi obs)))
                      (mmi_list s))))
       (set_sum_squares_list
          (map (fun mmi => np_sum (np_square (zip_sub mmi obs))) (mmi_list s))
          (set_mmi_obs obs s)),
     []).
Proof.
  intros Hnone Hlen.
  unfold calc_rmse, calc_sum_squares_mmi.
  unfold bind at 1. simpl.
  unfold try_except. unfold bind at 1. unfold getattr at 1. simpl.
  rewrite Hnone. simpl.
  unfold bind at 1. simpl.
  unfold bind at 1. unfold bind at 1. simpl.
  unfold bind at 1. simpl.
  change (mkRuptureGmf (rupture_list s) (mmi_list s) (Some [])
            (Some obs) (rmse s) (best_rupture s) (min_rmse s) (sigma s)
            (uncert_fun s) (fitted_ruptures s) (fitted_lists s) (ranges s))
    with (set_sum_squares_list [] (set_mmi_obs obs s)).
  rewrite (sum_squares_loop obs (mmi_list s) [] (set_mmi_obs obs s) Hlen).
  reflexivity.
Qed.

Lemma calc_rmse_unweighted_rmse s obs :
  sum_squares_list s = None ->
  Forall (fun mmi => length mmi = length obs) (mmi_list s) ->
  rmse (state_of (calc_rmse obs None s))
  = Some (map (fun mmi => rmse_spec mmi obs) (mmi_list s)).
Proof.
  intros Hnone Hlen.
  rewrite (calc_rmse_unweighted_run s obs Hnone Hlen).
  unfold state_of, np_sqrt. simpl. f_equal.
  rewrite !map_map.
  apply map_ext_in. intros mmi Hin.
  unfold rmse_spec. cbv zeta.
  rewrite Forall_forall in Hlen.
  now rewrite (sum_squares_site mmi obs (Hlen mmi Hin)).
Qed.

(** C4.  In unweighted mode, on a store whose sums of squares are not
    computed yet and whose intensity fields all have the length N of the
    observation vector, [calc_rmse] returns normally and the misfit it
    stores for every candidate is sqrt((sum over the N sites of
    (predicted - observed)^2) / N). *)
Theorem calc_rmse_unweighted_is_rmse (s : RuptureGmf) (obs : list R) :
  sum_squares_list s = None ->
  Forall (fun mmi => length mmi = length obs) (mmi_list s) ->
  outcome_of (calc_rmse obs None s) = Ok tt /\
  rmse (state_of (calc_rmse obs None s))
  = Some (map (fun mmi => rmse_spec mmi obs) (mmi_list s)).
Proof.
  intros Hnone Hlen. split.
  - now rewrite (calc_rmse_unweighted_run s obs Hnone Hlen).
  - now apply calc_rmse_unweighted_rmse.
Qed.

Lemma sum_over_const n c : sum_over n (fun _ => c) = INR n * c.
Proof.
  induction n as [|n IH]; [simpl; lra|].
  change (sum_over (S n) (fun _ => c)) with (sum_over n (fun _ => c) + c).
  rewrite IH, S_INR. lra.
Qed.

Lemma normalise_length w : length (normalise w) = length w.
Proof. apply length_map. Qed.

Lemma normalise_site w i : site (normalise w) i = site w i * (1 / py_sum w).
Proof.
  unfold normalise, site. generalize (py_sum w) as c. intros c. revert i.
  induction w as [|x w IH]; intros [|i]; simpl; try lra. apply IH.
Qed.

Lemma normalise_sum w : py_sum w <> 0 -> py_sum (normalise w) = 1.
Proof.
  intros H. rewrite py_sum_sum_over, normalise_length.
  rewrite (sum_over_ext _ _ (fun i => site w i * (1 / py_sum w)))
    by (intros; apply normalise_site).
  rewrite sum_over_scale, <- py_sum_sum_over. now field.
Qed.

Lemma normalise_fixed w : py_sum w = 1 -> normalise w = w.
Proof.
  intros H. unfold normalise. rewrite H.
  rewrite <- (map_id w) at 2. apply map_ext. intros a. field.
Qed.

Lemma np_dot_same_length a b :
  length a = length b -> np_dot a b = Some (np_sum (zip_mul a b)).
Proof. intros H. unfold np_dot. now rewrite H, Nat.eqb_refl. Qed.

(** The entry that [calc_sum_squares_mmi_weighted] appends for one field. *)
Lemma weighted_squares_site w mmi obs :
  length w = length obs ->
  length mmi = length obs ->
  np_sum (zip_mul (normalise w) (np_square (zip_sub mmi obs)))
  = weighted_squares_spec w mmi obs.
Proof.
  intros Hw Hm. unfold weighted_squares_spec, normalized_weight.
  rewrite np_sum_sum_over, zip_mul_length, np_square_length, zip_sub_length;
    try assumption;
    try (now rewrite normalise_length, np_square_length, zip_sub_length).
  apply sum_over_ext. intros i _.
  rewrite zip_mul_site
    by (now rewrite normalise_length, np_square_length, zip_sub_length).
  rewrite normalise_site, np_square_site, zip_sub_site by assumption.
  rewrite py_sum_sum_over. unfold Rdiv. ring.
Qed.

(** The state [calc_sum_squares_mmi_weighted] leaves: one entry per field,
    all computed with the weights as normalised on the first turn. *)
Lemma calc_sum_squares_mmi_weighted_run s obs w :
  py_sum w <> 0 ->
  length w = length obs ->
  Forall (fun mmi => length mmi = length obs) (mmi_list s) ->
  calc_sum_squares_mmi_weighted obs w s
  = (Ok tt,
     set_sum_squares_list
       (map (fun mmi => np_sum (zip_mul (normalise w)
                                  (np_square (zip_sub mmi obs))))
          (mmi_list s)) s,
     []).
Proof.
  intros Hsum Hw Hlen.
  unfold calc_sum_squares_mmi_weighted.
  match goal with
  | |- context [for_fold _ _ ?b] => set (body := b)
  end.
  assert (Hloop : forall mmis acc w',
    Forall (fun mmi => length mmi = length obs) mmis ->
    length w' = length obs ->
    py_sum w' <> 0 ->
    exists wf,
      for_fold mmis w' body (set_sum_squares_list acc s)
      = (Ok wf,
         set_sum_squares_list
           (acc ++ map (fun mmi => np_sum (zip_mul (normalise w')
                                             (np_square (zip_sub mmi obs))))
              mmis) s,
         [])).
  { intros mmis acc w' H. revert acc w'.
    induction H as [|mmi mmis Hm _ IH]; intros acc w' Hw' Hs'.
    - exists w'. simpl. unfold ret. now rewrite app_nil_r.
    - destruct (IH (acc ++ [np_sum (zip_mul (normalise w')
                                      (np_square (zip_sub mmi obs)))])
                   (normalise w')) as [wf Hwf].
      + now rewrite normalise_length.
      + rewrite (normalise_sum w' Hs'). lra.
      + exists wf.
        change (for_fold (mmi :: mmis) w' body)
          with (bind (body mmi w') (fun v' => for_fold mmis v' body)).
        unfold bind at 1. unfold body at 1. cbv zeta.
        fold (normalise w').
        unfold bind at 1. rewrite (np_sub_same_length _ _ Hm).
        unfold lift at 1, ret at 1.
        unfold bind at 1.
        rewrite np_dot_same_length
          by (now rewrite normalise_length, np_square_length, zip_sub_length).
        unfold lift at 1, ret at 1.
        unfold bind at 1, getattr at 1. simpl sum_squares_list. cbv iota beta.
        unfold bind at 1, assign at 1, ret at 1.
        change (set_sum_squares_list ?v (set_sum_squares_list acc s))
          with (set_sum_squares_list v s).
        rewrite Hwf.
        rewrite (normalise_fixed (normalise w') (normalise_sum w' Hs')).
        simpl. now rewrite <- app_assoc. }
  destruct (Hloop (mmi_list s) [] w Hlen Hw Hsum) as [wf Hwf].
  unfold bind at 1, assign at 1.
  unfold bind at 1, getfield at 1.
  unfold bind at 1.
  change (mmi_list (set_sum_squares_list [] s)) with (mmi_list s).
  rewrite Hwf. reflexivity.
Qed.

Lemma bind_run {A B} (m : M A) (k : A -> M B) s a s1 o1 :
  m s = (Ok a, s1, o1) ->
  bind m k s = (let '(r, s2, o2) := k a s1 in (r, s2, o1 ++ o2)).
Proof. intros H. unfold bind. now rewrite H. Qed.

Lemma bind_raise {A B} (m : M A) (k : A -> M B) s e s1 o1 :
  m s = (Raise e, s1, o1) ->
  bind m k s = (Raise e, s1, o1).
Proof. intros H. unfold bind. now rewrite H. Qed.

(** The state [calc_rmse] leaves on a store without sums of squares, in
    weighted mode. *)
Lemma calc_rmse_weighted_run s obs w :
  sum_squares_list s = None ->
  py_sum w <> 0 ->
  length w = length obs ->
  Forall (fun mmi => length mmi = length obs) (mmi_list s) ->
  calc_rmse obs (Some w) s
  = (Ok tt,
     set_rmse
       (np_sqrt (map (fun mmi => np_sum (zip_mul (normalise w)
                                           (np_square (zip_sub mmi obs))))
                   (mmi_list s)))
       (set_sum_squares_list
          (map (fun mmi => np_sum (zip_mul (normalise w)
                                     (np_square (zip_sub mmi obs))))
             (mmi_list s))
          (set_mmi_obs obs s)),
     []).
Proof.
  intros Hnone Hsum Hw Hlen.
  unfold calc_rmse.
  unfold bind at 1, assign at 1.
  unfold try_except.
  unfold bind at 1, getattr at 1.
  change (sum_squares_list (set_mmi_obs obs s)) with (sum_squares_list s).
  rewrite Hnone.
  unfold bind at 1, getattr at 1.
  change (mmi_obs (set_mmi_obs obs s)) with (Some obs).
  cbv iota beta.
  rewrite (bind_run _ _ _ _ _ _
             (calc_sum_squares_mmi_weighted_run (set_mmi_obs obs s) obs w
                Hsum Hw Hlen)).
  reflexivity.
Qed.

Lemma weighted_squares_uniform w mmi obs :
  length w = length obs ->
  py_sum w <> 0 ->
  (forall i, (i < length w)%nat -> site w i = site w 0) ->
  weighted_squares_spec w mmi obs = mse_spec mmi obs.
Proof.
  intros Hw Hsum Hu.
  unfold weighted_squares_spec, mse_spec, normalized_weight. cbv zeta.
  rewrite py_sum_sum_over in Hsum.
  rewrite (sum_over_ext _ _ (fun _ => site w 0) Hu), sum_over_const in *.
  rewrite Hw in *.
  set (N := INR (length obs)) in *. set (c := site w 0) in *.
  assert (HN : N <> 0) by (intros E; apply Hsum; rewrite E; lra).
  assert (Hc : c <> 0) by (intros E; apply Hsum; rewrite E; lra).
  unfold Rdiv at 2. rewrite <- sum_over_scale.
  apply sum_over_ext. intros i Hi. rewrite Hu by lia. fold c. now field.
Qed.

(** C2, as the code has it.  In weighted mode, on a store whose sums of
    squares are not computed yet, with weights of nonzero sum and fields,
    weights and observations of one length: the weights are normalised to
    sum to 1, the entry of [sum_squares_list] for a candidate is the sum
    over sites of normalized_weight_i * (predicted_i - observed_i)^2, and
    the misfit stored in [rmse] is the square root of that entry; with all
    weights equal it is the root-mean-square error, the unweighted
    misfit. *)
Theorem calc_rmse_weighted_is_root_of_weighted_squares
  (s : RuptureGmf) (obs w : list R) :
  sum_squares_list s = None ->
  py_sum w <> 0 ->
  length w = length obs ->
  Forall (fun mmi => length mmi = length obs) (mmi_list s) ->
  let s' := state_of (calc_rmse obs (Some w) s) in
  outcome_of (calc_rmse obs (Some w) s) = Ok tt /\
  py_sum (normalise w) = 1 /\
  sum_squares_list s'
  = Some (map (fun mmi => weighted_squares_spec w mmi obs) (mmi_list s)) /\
  rmse s'
  = Some (map (fun mmi => sqrt (weighted_squares_spec w mmi obs))
            (mmi_list s)) /\
  ((forall i, (i < length w)%nat -> site w i = site w 0) ->
   rmse s' = Some (map (fun mmi => rmse_spec mmi obs) (mmi_list s)) /\
   rmse s' = rmse (state_of (calc_rmse obs None s))).
Proof.
  intros Hnone Hsum Hw Hlen s'. subst s'.
  rewrite (calc_rmse_weighted_run s obs w Hnone Hsum Hw Hlen).
  unfold outcome_of, state_of. simpl fst. simpl snd.
  assert (Hentries :
    map (fun mmi => np_sum (zip_mul (normalise w)
                              (np_square (zip_sub mmi obs)))) (mmi_list s)
    = map (fun mmi => weighted_squares_spec w mmi obs) (mmi_list s)).
  { apply map_ext_in. intros mmi Hin. rewrite Forall_forall in Hlen.
    apply weighted_squares_site; auto. }
  rewrite Hentries.
  assert (Hrmse :
    rmse (set_rmse
            (np_sqrt (map (fun mmi => weighted_squares_spec w mmi obs)
                        (mmi_list s)))
            (set_sum_squares_list
               (map (fun mmi => weighted_squares_spec w mmi obs) (mmi_list s))
               (set_mmi_obs obs s)))
    = Some (map (fun mmi => sqrt (weighted_squares_spec w mmi obs))
              (mmi_list s))).
  { simpl. unfold np_sqrt. now rewrite map_map. }
  split; [reflexivity|].
  split; [now apply normalise_sum|].
  split; [reflexivity|].
  split; [exact Hrmse|].
  intros Hu.
  assert (Heq :
    map (fun mmi => sqrt (weighted_squares_spec w mmi obs)) (mmi_list s)
    = map (fun mmi => rmse_spec mmi obs) (mmi_list s)).
  { apply map_ext. intros mmi.
    now rewrite (weighted_squares_uniform w mmi obs Hw Hsum Hu). }
  rewrite Hrmse, Heq.
  split; [reflexivity|].
  symmetry. exact (calc_rmse_unweighted_rmse s obs Hnone Hlen).
Qed.

(** C4 at a concrete store: one field [7; 5] against observations
    [5; 5]. *)
Lemma calc_rmse_unweighted_is_rmse_witness :
  outcome_of (calc_rmse [5; 5] None (new_RuptureGmf [] [[7; 5]])) = Ok tt /\
  rmse (state_of (calc_rmse [5; 5] None (new_RuptureGmf [] [[7; 5]])))
  = Some (map (fun mmi => rmse_spec mmi [5; 5]) [[7; 5]]).
Proof.
  apply (calc_rmse_unweighted_is_rmse (new_RuptureGmf [] [[7; 5]]) [5; 5]).
  - reflexivity.
  - repeat constructor.
Defined.

(** C2 as stated fails: for one candidate with field [7], observation [5]
    and weight [1], the weighted sum of squared residuals is 4, and the
    misfit that [calc_rmse] stores is its square root, not 4. *)
Lemma weighted_misfit_is_square_rooted :
  weighted_squares_spec [1] [7] [5] = 4 /\
  rmse (state_of (calc_rmse [5] (Some [1]) (new_RuptureGmf [] [[7]])))
  <> Some [weighted_squares_spec [1] [7] [5]].
Proof.
  assert (H4 : weighted_squares_spec [1] [7] [5] = 4).
  { unfold weighted_squares_spec, normalized_weight, site. simpl. field. }
  split; [exact H4|].
  rewrite calc_rmse_weighted_run.
  - unfold state_of, np_sqrt. cbn [fst snd rmse set_rmse map mmi_list new_RuptureGmf].
    rewrite (weighted_squares_site [1] [7] [5] eq_refl eq_refl), H4.
    intros H. injection H as H.
    pose proof (sqrt_sqrt 4 ltac:(lra)) as Hs. rewrite H in Hs. lra.
  - reflexivity.
  - unfold py_sum. simpl. lra.
  - reflexivity.
  - repeat constructor.
Qed.

(** The amended C2 at a concrete store: fields [7; 5] and [5; 5],
    observations [5; 5], weights [1; 1]. *)
Lemma calc_rmse_weighted_is_root_of_weighted_squares_witness :
  rmse (state_of (calc_rmse [5; 5] (Some [1; 1])
                    (new_RuptureGmf [] [[7; 5]; [5; 5]])))
  = Some (map (fun mmi => sqrt (weighted_squares_spec [1; 1] mmi [5; 5]))
            [[7; 5]; [5; 5]]).
Proof.
  refine (proj1 (proj2 (proj2 (proj2
    (calc_rmse_weighted_is_root_of_weighted_squares
       (new_RuptureGmf [] [[7; 5]; [5; 5]]) [5; 5] [1; 1] _ _ _ _))))).
  - reflexivity.
  - unfold py_sum. simpl. lra.
  - reflexivity.
  - repeat constructor.
Defined.

(** ** Invariants of the object across a method call *)

Lemma preserves_ret P {A} (a : A) : preserves P (ret a).
Proof. intros s H. exact H. Qed.

Lemma preserves_raise P {A} e : preserves P (@raise A e).
Proof. intros s H. exact H. Qed.

Lemma preserves_print P items : preserves P (print items).
Proof. intros s H. exact H. Qed.

Lemma preserves_emit P e : preserves P (emit e).
Proof. intros s H. exact H. Qed.

Lemma preserves_getattr P {A} (field : RuptureGmf -> option A) :
  preserves P (getattr field).
Proof. intros s H. unfold getattr, state_of. now destruct (field s). Qed.

Lemma preserves_getfield P {A} (field : RuptureGmf -> A) :
  preserves P (getfield field).
Proof. intros s H. exact H. Qed.

Lemma preserves_lift P {A} e (o : option A) : preserves P (lift e o).
Proof. intros s H. now destruct o. Qed.

Lemma preserves_lift_outcome P {A} (o : outcome A) :
  preserves P (lift_outcome o).
Proof. intros s H. now destruct o. Qed.

Lemma preserves_assign P f :
  (forall s, P s -> P (f s)) -> preserves P (assign f).
Proof. intros Hf s H. now apply Hf. Qed.

Lemma preserves_bind P {A B} (m : M A) (k : A -> M B) :
  preserves P m -> (forall a, preserves P (k a)) -> preserves P (bind m k).
Proof.
  intros Hm Hk s H. specialize (Hm s H).
  unfold bind, state_of in *.
  destruct (m s) as [[[a|e] s1] o1]; simpl in *; [|exact Hm].
  specialize (Hk a s1 Hm). unfold state_of in Hk.
  now destruct (k a s1) as [[r s2] o2].
Qed.

Lemma preserves_try_except P {A} (m : M A) e (h : M A) :
  preserves P m -> preserves P h -> preserves P (try_except m e h).
Proof.
  intros Hm Hh s H. specialize (Hm s H).
  unfold try_except, state_of in *.
  destruct (m s) as [[[a|e'] s1] o1]; simpl in *; [exact Hm|].
  specialize (Hh s1 Hm). unfold state_of in Hh.
  destruct e, e'; simpl; try exact Hm;
    now destruct (h s1) as [[r s2] o2].
Qed.

Lemma preserves_for_each P {A} (l : list A) (body : A -> M unit) :
  (forall x, preserves P (body x)) -> preserves P (for_each l body).
Proof.
  intros Hb. induction l as [|x l IH]; simpl.
  - apply preserves_ret.
  - apply preserves_bind; auto.
Qed.

Lemma preserves_for_fold P {A V} (l : list A) (v : V) (body : A -> V -> M V) :
  (forall x v', preserves P (body x v')) -> preserves P (for_fold l v body).
Proof.
  intros Hb. revert v. induction l as [|x l IH]; intros v; simpl.
  - apply preserves_ret.
  - apply preserves_bind; auto.
Qed.

Lemma preserves_if P {A} (b : bool) (m1 m2 : M A) :
  preserves P m1 -> preserves P m2 -> preserves P (if b then m1 else m2).
Proof. now destruct b. Qed.

Create HintDb frame.
#[export] Hint Resolve preserves_ret preserves_raise preserves_print
  preserves_emit preserves_getattr preserves_getfield preserves_lift
  preserves_lift_outcome preserves_if : frame.

Ltac frame_step :=
  first
    [ apply preserves_bind; [|intros ?]
    | apply preserves_try_except
    | apply preserves_for_each; intros ?
    | apply preserves_for_fold; intros ? ?
    | solve [auto with frame] ].

(** ** The misfit is cached *)

Lemma establishes_bind P {A B} (m : M A) (k : A -> M B) :
  establishes P m -> (forall a, preserves P (k a)) -> establishes P (bind m k).
Proof.
  intros Hm Hk s. specialize (Hm s).
  unfold bind, state_of in *.
  destruct (m s) as [[[a|e] s1] o1]; simpl in *; [|exact Hm].
  specialize (Hk a s1 Hm). unfold state_of in Hk.
  now destruct (k a s1) as [[r s2] o2].
Qed.

Lemma has_sums_set v s : has_sums (set_sum_squares_list v s).
Proof. unfold has_sums. simpl. discriminate. Qed.

Lemma has_sums_set_rmse v s : has_sums s -> has_sums (set_rmse v s).
Proof. unfold has_sums. now simpl. Qed.

Lemma calc_sum_squares_mmi_has_sums obs :
  establishes has_sums (calc_sum_squares_mmi obs).
Proof.
  unfold calc_sum_squares_mmi.
  apply establishes_bind.
  - intros s. apply has_sums_set.
  - intros _. repeat frame_step.
    apply preserves_assign. intros; apply has_sums_set.
Qed.

Lemma calc_sum_squares_mmi_weighted_has_sums obs w :
  establishes has_sums (calc_sum_squares_mmi_weighted obs w).
Proof.
  unfold calc_sum_squares_mmi_weighted.
  apply establishes_bind.
  - intros s. apply has_sums_set.
  - intros _. repeat frame_step.
    apply preserves_assign. intros; apply has_sums_set.
Qed.

Lemma state_of_wrap {A} (X : outcome A * RuptureGmf * list Event) o :
  state_of (let (p, out2) := X in let (r, s2) := p in (r, s2, o ++ out2))
  = state_of X.
Proof. now destruct X as [[r s2] o2]. Qed.

Lemma outcome_of_wrap {A} (X : outcome A * RuptureGmf * list Event) o :
  outcome_of (let (p, out2) := X in let (r, s2) := p in (r, s2, o ++ out2))
  = outcome_of X.
Proof. now destruct X as [[r s2] o2]. Qed.

(** After a call of [calc_rmse] the attribute [sum_squares_list] exists,
    also when the call raised part of the way. *)
Lemma calc_rmse_has_sums obs w : establishes has_sums (calc_rmse obs w).
Proof.
  intros s. unfold calc_rmse.
  unfold bind at 1, assign at 1, try_except.
  unfold bind at 1, getattr at 1.
  change (sum_squares_list (set_mmi_obs obs s)) with (sum_squares_list s).
  destruct (sum_squares_list s) as [ssl|] eqn:E.
  - unfold state_of, has_sums. simpl. rewrite E. discriminate.
  - cbv iota beta. destruct w as [w|].
    + unfold bind at 1, getattr at 1.
      change (mmi_obs (set_mmi_obs obs s)) with (Some obs). cbv iota beta.
      rewrite !state_of_wrap.
      apply establishes_bind.
      * apply calc_sum_squares_mmi_weighted_has_sums.
      * intros _. repeat frame_step.
        apply preserves_assign. intros; now apply has_sums_set_rmse.
    + unfold bind at 1, getattr at 1.
      change (mmi_obs (set_mmi_obs obs s)) with (Some obs). cbv iota beta.
      rewrite !state_of_wrap.
      apply establishes_bind.
      * apply calc_sum_squares_mmi_has_sums.
      * intros _. repeat frame_step.
        apply preserves_assign. intros; now apply has_sums_set_rmse.
Qed.

(** A call of [calc_rmse] on an object that has [sum_squares_list] only
    assigns [mmi_obs]. *)
Lemma calc_rmse_cached_run obs w s :
  has_sums s -> calc_rmse obs w s = (Ok tt, set_mmi_obs obs s, []).
Proof.
  intros H. unfold calc_rmse.
  unfold bind at 1, assign at 1, try_except.
  unfold bind at 1, getattr at 1.
  change (sum_squares_list (set_mmi_obs obs s)) with (sum_squares_list s).
  unfold has_sums in H.
  destruct (sum_squares_list s) as [ssl|]; [reflexivity | contradiction].
Qed.

(** C9, as the code has it.  The misfit is cached in the object: whatever
    the first evaluation computed, a second evaluation on the same store,
    with any observations and any weights, returns normally, stores the
    new observations and leaves the sums of squares and the misfit
    sequence exactly as the first evaluation left them. *)
Theorem calc_rmse_second_call_keeps_misfit
  (s : RuptureGmf) (obs1 obs2 : list R) (w1 w2 : option (list R)) :
  let s1 := state_of (calc_rmse obs1 w1 s) in
  let r2 := calc_rmse obs2 w2 s1 in
  outcome_of r2 = Ok tt /\
  mmi_obs (state_of r2) = Some obs2 /\
  sum_squares_list (state_of r2) = sum_squares_list s1 /\
  rmse (state_of r2) = rmse s1.
Proof.
  intros s1 r2. subst r2.
  rewrite (calc_rmse_cached_run obs2 w2 s1 (calc_rmse_has_sums obs1 w1 s)).
  repeat split.
Qed.

(** C9 as stated fails: for one candidate with field [5], a first
    evaluation against the observation [5] and a second against [6] leave
    the misfit of the first, which differs from the misfit [1] that a fresh
    store gives for [6]. *)
Lemma calc_rmse_second_call_is_stale :
  let fresh := new_RuptureGmf [] [[5]] in
  let s1 := state_of (calc_rmse [5] None fresh) in
  rmse (state_of (calc_rmse [6] None fresh)) = Some [1] /\
  rmse (state_of (calc_rmse [6] None s1)) = Some [0] /\
  rmse (state_of (calc_rmse [6] None s1))
  <> rmse (state_of (calc_rmse [6] None fresh)).
Proof.
  cbv zeta.
  assert (H1 : rmse (state_of (calc_rmse [6] None (new_RuptureGmf [] [[5]])))
               = Some [1]).
  { rewrite calc_rmse_unweighted_rmse; [|reflexivity|repeat constructor].
    unfold rmse_spec, site. simpl.
    replace ((0 + (5 - 6) * ((5 - 6) * 1)) / 1) with 1 by field.
    now rewrite sqrt_1. }
  assert (H0 : rmse (state_of (calc_rmse [6] None
                 (state_of (calc_rmse [5] None (new_RuptureGmf [] [[5]])))))
               = Some [0]).
  { rewrite (calc_rmse_cached_run [6] None _ (calc_rmse_has_sums [5] None _)).
    unfold state_of at 1. cbn [fst snd rmse set_mmi_obs].
    rewrite calc_rmse_unweighted_rmse; [|reflexivity|repeat constructor].
    unfold rmse_spec, site. simpl.
    replace ((0 + (5 - 5) * ((5 - 5) * 1)) / 1) with 0 by field.
    now rewrite sqrt_0. }
  split; [exact H1|]. split; [exact H0|].
  rewrite H0, H1. intros H. injection H as H. lra.
Qed.

(** ** Best-fit selector *)

Lemma nth_error_snoc_inv {A} (pre : list A) x j v :
  nth_error (pre ++ [x]) j = Some v ->
  (j < length pre)%nat /\ nth_error pre j = Some v \/ j = length pre /\ v = x.
Proof.
  intros H. destruct (Nat.lt_ge_cases j (length pre)) as [Hj|Hj].
  - left. split; [exact Hj|]. now rewrite nth_error_app1 in H.
  - right. rewrite nth_error_app2 in H by exact Hj.
    destruct (j - length pre)%nat as [|n] eqn:E; simpl in H.
    + split; [lia | congruence].
    + now destruct n.
Qed.

(** The scan of [np.argmin]: [best] is the least value of the prefix
    already seen and [best_i] its first position. *)
Lemma argmin_from_spec l : forall pre best_i best i,
  i = length pre ->
  nth_error pre best_i = Some best ->
  (forall j v, nth_error pre j = Some v -> best <= v) ->
  (forall j v, (j < best_i)%nat -> nth_error pre j = Some v -> best < v) ->
  exists m,
    nth_error (pre ++ l) (argmin_from best_i best i l) = Some m /\
    (forall j v, nth_error (pre ++ l) j = Some v -> m <= v) /\
    (forall j v, (j < argmin_from best_i best i l)%nat ->
                 nth_error (pre ++ l) j = Some v -> m < v).
Proof.
  induction l as [|x l IH]; intros pre best_i best i Hi Hb Hle Hlt.
  - simpl. rewrite app_nil_r. exists best. auto.
  - simpl. replace (pre ++ x :: l) with ((pre ++ [x]) ++ l)
      by (now rewrite <- app_assoc).
    destruct (Rlt_dec x best) as [Hx|Hx].
    + apply IH.
      * rewrite length_app. simpl. lia.
      * subst i. now rewrite nth_error_app2, Nat.sub_diag by lia.
      * intros j v Hj. apply nth_error_snoc_inv in Hj.
        destruct Hj as [[_ Hj]|[_ ->]]; [|lra].
        specialize (Hle j v Hj). lra.
      * intros j v Hji Hj. apply nth_error_snoc_inv in Hj.
        destruct Hj as [[_ Hj]|[Hj' _]]; [|lia].
        specialize (Hle j v Hj). lra.
    + apply IH.
      * rewrite length_app. simpl. lia.
      * rewrite nth_error_app1; [exact Hb|].
        apply nth_error_Some. congruence.
      * intros j v Hj. apply nth_error_snoc_inv in Hj.
        destruct Hj as [[_ Hj]|[_ ->]]; [eauto | lra].
      * intros j v Hji Hj. apply nth_error_snoc_inv in Hj.
        destruct Hj as [[_ Hj]|[Hj' _]]; [eauto|].
        assert (best_i < length pre)%nat
          by (apply nth_error_Some; congruence).
        lia.
Qed.

Lemma np_argmin_spec r :
  r <> [] ->
  exists index m,
    np_argmin r = Some index /\
    nth_error r index = Some m /\
    (forall j v, nth_error r j = Some v -> m <= v) /\
    (forall j v, (j < index)%nat -> nth_error r j = Some v -> m < v).
Proof.
  destruct r as [|x l]; [congruence|]. intros _.
  destruct (argmin_from_spec l [x] 0%nat x 1%nat eq_refl eq_refl)
    as [m Hm].
  - intros [|[|j]] v H; simpl in H; try discriminate.
    injection H as <-. lra.
  - intros j v Hj. lia.
  - exists (argmin_from 0 x 1 l), m. simpl in *. tauto.
Qed.

Lemma find_best_fit_run s r index m rup :
  rmse s = Some r ->
  np_argmin r = Some index ->
  nth_error (rupture_list s) index = Some rup ->
  nth_error r index = Some m ->
  find_best_fit s = (Ok tt, set_min_rmse m (set_best_rupture rup s), []).
Proof.
  intros Hr Ha Hrup Hm. unfold find_best_fit.
  unfold bind at 1, getattr at 1. rewrite Hr.
  unfold bind at 1. rewrite Ha. unfold lift at 1, ret at 1.
  unfold bind at 1, getfield at 1.
  unfold bind at 1. rewrite Hrup. unfold lift at 1, ret at 1.
  unfold bind at 1, assign at 1.
  unfold bind at 1, getattr at 1.
  change (rmse (set_best_rupture rup s)) with (rmse s). rewrite Hr.
  unfold bind at 1. rewrite Hm. reflexivity.
Qed.

(** C5.  On a non-empty misfit sequence aligned with the rupture list,
    [find_best_fit] returns normally and stores the rupture at the index
    of the least misfit and that misfit; the index is the first one at
    which the least misfit occurs.  On an empty misfit sequence it raises
    [ValueError] and stores nothing. *)
Theorem find_best_fit_first_minimum (s : RuptureGmf) (r : list R) :
  rmse s = Some r ->
  length (rupture_list s) = length r ->
  (r = [] -> find_best_fit s = (Raise ValueError, s, [])) /\
  (r <> [] ->
   exists index m rup,
     np_argmin r = Some index /\
     nth_error r index = Some m /\
     nth_error (rupture_list s) index = Some rup /\
     (forall j v, nth_error r j = Some v -> m <= v) /\
     (forall j v, (j < index)%nat -> nth_error r j = Some v -> m < v) /\
     outcome_of (find_best_fit s) = Ok tt /\
     best_rupture (state_of (find_best_fit s)) = Some rup /\
     min_rmse (state_of (find_best_fit s)) = Some m).
Proof.
  intros Hr Hlen. split.
  - intros ->. unfold find_best_fit.
    unfold bind at 1, getattr at 1. now rewrite Hr.
  - intros Hne.
    destruct (np_argmin_spec r Hne) as (index & m & Ha & Hm & Hle & Hlt).
    assert (Hi : (index < length (rupture_list s))%nat).
    { rewrite Hlen. apply nth_error_Some. congruence. }
    destruct (nth_error (rupture_list s) index) as [rup|] eqn:Hrup;
      [|apply nth_error_Some in Hi; contradiction].
    exists index, m, rup.
    rewrite (find_best_fit_run s r index m rup Hr Ha Hrup Hm).
    repeat split; auto.
Qed.

(** ** Builtins and array operations *)

Lemma fold_min_spec l : forall x,
  let m := fold_left (fun m v => if Rlt_dec v m then v else m) l x in
  In m (x :: l) /\ forall v, In v (x :: l) -> m <= v.
Proof.
  induction l as [|y l IH]; intros x; simpl.
  - split; [now left|]. intros v [<-|[]]. lra.
  - destruct (Rlt_dec y x) as [H|H].
    + destruct (IH y) as [Hin Hle]. simpl in Hin, Hle. split.
      * destruct Hin as [E|Hin]; [right; left; exact E | right; right; exact Hin].
      * intros v [<-|[<-|Hv]].
        -- specialize (Hle y (or_introl eq_refl)). lra.
        -- apply Hle. now left.
        -- apply Hle. now right.
    + destruct (IH x) as [Hin Hle]. simpl in Hin, Hle. split.
      * destruct Hin as [E|Hin]; [left; exact E | right; right; exact Hin].
      * intros v [<-|[<-|Hv]].
        -- apply Hle. now left.
        -- specialize (Hle x (or_introl eq_refl)). lra.
        -- apply Hle. now right.
Qed.

Lemma py_min_spec l m :
  py_min l = Some m -> In m l /\ forall v, In v l -> m <= v.
Proof.
  destruct l as [|x l]; simpl; [discriminate|].
  intros H. injection H as <-. apply fold_min_spec.
Qed.

Lemma py_min_some l : l <> [] -> exists m, py_min l = Some m.
Proof. destruct l; [congruence | eexists; reflexivity]. Qed.

Lemma py_max_some l : l <> [] -> exists m, py_max l = Some m.
Proof. destruct l; [congruence | eexists; reflexivity]. Qed.

Lemma Rltb_true a b : Rltb a b = true <-> a < b.
Proof. unfold Rltb. destruct (Rlt_dec a b); split; auto; discriminate. Qed.

Lemma Reqb_true a b : Reqb a b = true <-> a = b.
Proof. unfold Reqb. destruct (Req_dec_T a b); split; auto; discriminate. Qed.

Lemma where_from_spec {A} (cond : A -> bool) l : forall i q,
  In q (where_from i cond l) <->
  exists v, (i <= q)%nat /\ nth_error l (q - i) = Some v /\ cond v = true.
Proof.
  induction l as [|x l IH]; intros i q; simpl.
  - split; [intros [] | intros (v & _ & H & _)].
    now destruct (q - i)%nat.
  - assert (Htail :
      (exists v, (S i <= q)%nat /\ nth_error l (q - S i) = Some v
                 /\ cond v = true) ->
      exists v, (i <= q)%nat /\ nth_error (x :: l) (q - i) = Some v
                /\ cond v = true).
    { intros (v & Hq & Hn & Hc). exists v. split; [lia|]. split; [|exact Hc].
      replace (q - i)%nat with (S (q - S i)) by lia. exact Hn. }
    assert (Hhead : forall v, (i <= q)%nat ->
      nth_error (x :: l) (q - i) = Some v -> cond v = true ->
      q = i /\ v = x \/
      exists v', (S i <= q)%nat /\ nth_error l (q - S i) = Some v'
                 /\ cond v' = true).
    { intros v Hq Hn Hc. destruct (q - i)%nat as [|n] eqn:E; simpl in Hn.
      - left. split; [lia | congruence].
      - right. exists v. split; [lia|]. split; [|exact Hc].
        replace (q - S i)%nat with n by lia. exact Hn. }
    destruct (cond x) eqn:Hx; simpl; rewrite IH.
    + split.
      * intros [<-|H]; [|now apply Htail].
        exists x. split; [lia|]. now rewrite Nat.sub_diag.
      * intros (v & Hq & Hn & Hc).
        destruct (Hhead v Hq Hn Hc) as [[-> _]|H]; [now left | now right].
    + split; [exact Htail|].
      intros (v & Hq & Hn & Hc).
      destruct (Hhead v Hq Hn Hc) as [[_ ->]|H]; [congruence | exact H].
Qed.

Lemma np_where_spec {A} (cond : A -> bool) l q :
  In q (np_where cond l) <->
  exists v, nth_error l q = Some v /\ cond v = true.
Proof.
  unfold np_where. rewrite where_from_spec. rewrite Nat.sub_0_r.
  split; [intros (v & _ & H) | intros (v & H)]; exists v;
    [exact H | split; [lia | exact H]].
Qed.

Lemma np_where_in_range {A} (cond : A -> bool) l :
  Forall (fun q => (q < length l)%nat) (np_where cond l).
Proof.
  apply Forall_forall. intros q Hq. apply np_where_spec in Hq.
  destruct Hq as (v & Hv & _). apply nth_error_Some. congruence.
Qed.

Lemma take_at_in_range {A} (l : list A) idx :
  Forall (fun q => (q < length l)%nat) idx ->
  exists vs, take_at l idx = Some vs.
Proof.
  induction 1 as [|q idx Hq _ [vs IH]]; simpl.
  - now exists [].
  - destruct (nth_error l q) as [v|] eqn:E.
    + rewrite IH. now exists (v :: vs).
    + apply nth_error_Some in Hq. contradiction.
Qed.

Lemma take_at_spec {A} (l : list A) idx : forall vs,
  take_at l idx = Some vs ->
  length vs = length idx /\
  forall q c, nth_error idx q = Some c -> nth_error vs q = nth_error l c.
Proof.
  induction idx as [|i idx IH]; intros vs H; simpl in H.
  - injection H as <-. split; [reflexivity|]. now intros [|q].
  - destruct (nth_error l i) as [v|] eqn:Ev; [|discriminate].
    destruct (take_at l idx) as [vs'|]; [|discriminate].
    injection H as <-. destruct (IH vs' eq_refl) as [Hl Hn].
    split; [simpl; now rewrite Hl|].
    intros [|q] c Hc; simpl in *.
    + injection Hc as <-. now rewrite Ev.
    + now apply Hn.
Qed.

Lemma take_at_map {A B} (f : A -> B) l idx vs :
  take_at l idx = Some vs -> take_at (map f l) idx = Some (map f vs).
Proof.
  revert vs. induction idx as [|i idx IH]; intros vs H; simpl in *.
  - now injection H as <-.
  - rewrite nth_error_map.
    destruct (nth_error l i) as [v|]; [|discriminate].
    destruct (take_at l idx) as [vs'|]; [|discriminate].
    injection H as <-. now rewrite (IH vs' eq_refl).
Qed.

Lemma take_at_nil {A} (l : list A) idx vs :
  take_at l idx = Some vs -> vs = [] -> idx = [].
Proof.
  intros H ->. apply take_at_spec in H. destruct H as [H _].
  destruct idx; [reflexivity | discriminate].
Qed.

(** ** Uncertainty estimator *)

Section Estimator.

Variable z975 : R.

(** The degenerate branch of [uncertainty_model]: at most six
    observations. *)
Lemma accepted_indices_small s obs r :
  mmi_obs s = Some obs ->
  (length obs <= 6)%nat ->
  rmse s = Some r ->
  accepted_indices z975 s
  = (Ok (np_where (fun v => Rltb v 1e24) r), s,
     [PrintLine
        [Str "Not enough data points to calculate uncertainties"]]).
Proof.
  intros Hobs Hlen Hr. unfold accepted_indices.
  unfold bind at 1, getattr at 1. rewrite Hobs.
  apply Nat.leb_le in Hlen. rewrite Hlen.
  unfold bind at 1, print at 1.
  unfold bind at 1, getattr at 1. rewrite Hr.
  reflexivity.
Qed.

(** The regular branch of [uncertainty_model]: more than six
    observations. *)
Lemma accepted_indices_large s obs r m :
  mmi_obs s = Some obs ->
  (6 < length obs)%nat ->
  rmse s = Some r ->
  py_min r = Some m ->
  let sg := (1 / INR (length obs - 6)) * m ^ 2 in
  accepted_indices z975 s
  = (Ok (np_where (fun v => lt_float v (ppf975 z975 (m, sg))) r),
     set_uncert_fun (m, sg) (set_sigma sg s),
     [PrintLine [Num sg];
      PrintLine [item_of_float (ppf975 z975 (m, sg))]]).
Proof.
  intros Hobs Hlen Hr Hm sg. unfold accepted_indices.
  unfold bind at 1, getattr at 1. rewrite Hobs.
  assert (Hleb : (length obs <=? 6)%nat = false)
    by (apply Nat.leb_gt; exact Hlen).
  rewrite Hleb.
  unfold bind at 1, getattr at 1. rewrite Hr.
  unfold bind at 1. rewrite Hm. unfold lift at 1, ret at 1.
  unfold bind at 1, assign at 1.
  unfold bind at 1, getattr at 1.
  change (sigma (set_sigma ?v s)) with (Some v). cbv iota beta.
  reflexivity.
Qed.

(** The loop that collects the fitted ruptures. *)
Lemma fitted_loop s indices : forall acc vs,
  take_at (rupture_list s) indices = Some vs ->
  for_each indices (fun index =>
    rl <- getfield rupture_list ;;
    rup <- lift IndexError (nth_error rl index) ;;
    fr <- getattr fitted_ruptures ;;
    assign (set_fitted_ruptures (fr ++ [rup])))
    (set_fitted_ruptures acc s)
  = (Ok tt, set_fitted_ruptures (acc ++ vs) s, []).
Proof.
  induction indices as [|i indices IH]; intros acc vs H; simpl in H.
  - injection H as <-. simpl. unfold ret. now rewrite app_nil_r.
  - destruct (nth_error (rupture_list s) i) as [rup|] eqn:Ei;
      [|discriminate].
    destruct (take_at (rupture_list s) indices) as [vs'|] eqn:Et;
      [|discriminate].
    injection H as <-.
    change (for_each (i :: indices) ?b)
      with (bind (b i) (fun _ => for_each indices b)).
    unfold bind at 1. unfold bind at 1, getfield at 1.
    change (rupture_list (set_fitted_ruptures acc s))
      with (rupture_list s).
    unfold bind at 1. rewrite Ei. unfold lift at 1, ret at 1.
    unfold bind at 1, getattr at 1. simpl fitted_ruptures.
    cbv iota beta. unfold assign at 1.
    change (set_fitted_ruptures ?v (set_fitted_ruptures acc s))
      with (set_fitted_ruptures v s).
    rewrite (IH (acc ++ [rup]) vs' eq_refl).
    simpl. now rewrite <- app_assoc.
Qed.

(** The second part of [uncertainty_model] up to the ranges. *)
Lemma fit_ruptures_run s indices r mx fr :
  rmse s = Some r ->
  py_max r = Some mx ->
  take_at (rupture_list s) indices = Some fr ->
  fit_ruptures indices s
  = match ranges_of (fitted_lists_of fr) with
    | Some rg =>
        (Ok tt,
         set_ranges rg
           (set_fitted_lists (fitted_lists_of fr)
              (set_fitted_ruptures fr s)),
         [PrintLine [Str "max rmse"; Num mx];
          PrintLine [Str "strikes";
                     Arr (np_unique (fitted_strikes (fitted_lists_of fr)))];
          PrintLine [Str "dips";
                     Arr (np_unique (fitted_dips (fitted_lists_of fr)))]])
    | None =>
        (Raise ValueError,
         set_fitted_lists (fitted_lists_of fr) (set_fitted_ruptures fr s),
         [PrintLine [Str "max rmse"; Num mx]])
    end.
Proof.
  intros Hr Hmx Ht. unfold fit_ruptures.
  unfold bind at 1, getattr at 1. rewrite Hr.
  unfold bind at 1. rewrite Hmx. unfold lift at 1, ret at 1.
  unfold bind at 1, print at 1.
  unfold bind at 1, assign at 1.
  rewrite (bind_run _ _ _ _ _ _ (fitted_loop s indices [] fr Ht)).
  unfold bind at 1, getattr at 1. simpl fitted_ruptures. cbv iota beta.
  unfold bind at 1, assign at 1.
  unfold bind at 1, getattr at 1. simpl fitted_lists. cbv iota beta.
  unfold bind at 1.
  change (set_fitted_lists ?v (set_fitted_ruptures ([] ++ fr) ?t))
    with (set_fitted_lists v (set_fitted_ruptures fr t)).
  destruct (ranges_of (fitted_lists_of fr)) as [rg|]; reflexivity.
Qed.

(** With no misfit at all, the second part raises at [max(self.rmse)]. *)
Lemma fit_ruptures_no_misfit s indices :
  rmse s = Some [] ->
  fit_ruptures indices s = (Raise ValueError, s, []).
Proof.
  intros Hr. unfold fit_ruptures.
  unfold bind at 1, getattr at 1. rewrite Hr. reflexivity.
Qed.

Lemma ranges_of_some fr :
  fr <> [] -> exists rg, ranges_of (fitted_lists_of fr) = Some rg.
Proof.
  destruct fr as [|rup fr]; [congruence|]. intros _.
  unfold ranges_of, fitted_lists_of. simpl. eexists. reflexivity.
Qed.

Lemma ranges_of_none : ranges_of (fitted_lists_of []) = None.
Proof. reflexivity. Qed.

End Estimator.

(** ** The concrete stores *)

(** Decide the comparisons of explicit numbers that a run meets. *)
Ltac plain_number a :=
  lazymatch a with
  | context [Rlt_dec _ _] => fail
  | context [Req_dec_T _ _] => fail
  | _ => idtac
  end.

Ltac Rdecide :=
  repeat match goal with
    | |- context [Rlt_dec ?a ?b] =>
        plain_number a; plain_number b; destruct (Rlt_dec a b); try lra
    | |- context [Req_dec_T ?a ?b] =>
        plain_number a; plain_number b; destruct (Req_dec_T a b); try lra
    end.

Lemma scenario_A_state :
  scenario_A
  = set_rmse [0; 1; 1]
      (set_sum_squares_list [0; 3; 3] (set_mmi_obs [5; 5; 5] scenario_A_fresh)).
Proof.
  unfold scenario_A.
  rewrite calc_rmse_unweighted_run by (try reflexivity; repeat constructor).
  unfold state_of, np_sqrt, np_sum, np_square.
  cbn [fst snd map scenario_A_fresh new_RuptureGmf mmi_list zip_sub
       fold_left length].
  replace (0 + (5 - 5) ^ 2 + (5 - 5) ^ 2 + (5 - 5) ^ 2) with 0 by ring.
  replace (0 + (6 - 5) ^ 2 + (6 - 5) ^ 2 + (6 - 5) ^ 2) with 3 by ring.
  replace (0 + (4 - 5) ^ 2 + (4 - 5) ^ 2 + (4 - 5) ^ 2) with 3 by ring.
  replace (0 / INR 3) with (0 * 0) by (simpl; field).
  replace (3 / INR 3) with (1 * 1) by (simpl; field).
  rewrite (sqrt_square 0), (sqrt_square 1) by lra.
  reflexivity.
Qed.

Lemma scenario_B_state :
  scenario_B
  = set_rmse [0.2; 1; 1]
      (set_sum_squares_list [0.28; 7; 7] (set_mmi_obs obs7 scenario_B_fresh)).
Proof.
  unfold scenario_B.
  rewrite calc_rmse_unweighted_run by (try reflexivity; repeat constructor).
  unfold state_of, np_sqrt, np_sum, np_square, obs7.
  cbn [fst snd map scenario_B_fresh new_RuptureGmf mmi_list zip_sub
       fold_left length].
  replace (0 + (5.2 - 5) ^ 2 + (5.2 - 5) ^ 2 + (5.2 - 5) ^ 2 + (5.2 - 5) ^ 2
           + (5.2 - 5) ^ 2 + (5.2 - 5) ^ 2 + (5.2 - 5) ^ 2)
    with 0.28 by lra.
  replace (0 + (6 - 5) ^ 2 + (6 - 5) ^ 2 + (6 - 5) ^ 2 + (6 - 5) ^ 2
           + (6 - 5) ^ 2 + (6 - 5) ^ 2 + (6 - 5) ^ 2)
    with 7 by ring.
  replace (0 + (4 - 5) ^ 2 + (4 - 5) ^ 2 + (4 - 5) ^ 2 + (4 - 5) ^ 2
           + (4 - 5) ^ 2 + (4 - 5) ^ 2 + (4 - 5) ^ 2)
    with 7 by ring.
  replace (0.28 / INR 7) with (0.2 * 0.2) by (simpl; lra).
  replace (7 / INR 7) with (1 * 1) by (simpl; field).
  rewrite (sqrt_square 0.2), (sqrt_square 1) by lra.
  reflexivity.
Qed.

Lemma exact_fit_state :
  exact_fit
  = set_rmse [0; 1]
      (set_sum_squares_list [0; 7] (set_mmi_obs obs7 exact_fit_fresh)).
Proof.
  unfold exact_fit.
  rewrite calc_rmse_unweighted_run by (try reflexivity; repeat constructor).
  unfold state_of, np_sqrt, np_sum, np_square, obs7.
  cbn [fst snd map exact_fit_fresh new_RuptureGmf mmi_list zip_sub
       fold_left length].
  replace (0 + (5 - 5) ^ 2 + (5 - 5) ^ 2 + (5 - 5) ^ 2 + (5 - 5) ^ 2
           + (5 - 5) ^ 2 + (5 - 5) ^ 2 + (5 - 5) ^ 2)
    with 0 by ring.
  replace (0 + (6 - 5) ^ 2 + (6 - 5) ^ 2 + (6 - 5) ^ 2 + (6 - 5) ^ 2
           + (6 - 5) ^ 2 + (6 - 5) ^ 2 + (6 - 5) ^ 2)
    with 7 by ring.
  replace (0 / INR 7) with (0 * 0) by (simpl; field).
  replace (7 / INR 7) with (1 * 1) by (simpl; field).
  rewrite (sqrt_square 0), (sqrt_square 1) by lra.
  reflexivity.
Qed.

Lemma no_candidate_state :
  no_candidate
  = set_rmse []
      (set_sum_squares_list [] (set_mmi_obs [5; 5; 5] (new_RuptureGmf [] []))).
Proof.
  unfold no_candidate.
  now rewrite calc_rmse_unweighted_run by (try reflexivity; repeat constructor).
Qed.

Lemma py_min_scenario_B : py_min [0.2; 1; 1] = Some 0.2.
Proof. unfold py_min. simpl. Rdecide. reflexivity. Qed.

Lemma py_max_scenario_B : py_max [0.2; 1; 1] = Some 1.
Proof. unfold py_max. simpl. Rdecide; reflexivity. Qed.

Lemma py_min_scenario_A : py_min [0; 1; 1] = Some 0.
Proof. unfold py_min. simpl. Rdecide. reflexivity. Qed.

Lemma py_max_scenario_A : py_max [0; 1; 1] = Some 1.
Proof. unfold py_max. simpl. Rdecide; reflexivity. Qed.

Lemma py_min_exact_fit : py_min [0; 1] = Some 0.
Proof. unfold py_min. simpl. Rdecide. reflexivity. Qed.

Lemma py_max_exact_fit : py_max [0; 1] = Some 1.
Proof. unfold py_max. simpl. Rdecide. reflexivity. Qed.

(** ** The dispersion and the acceptance threshold *)

Lemma fit_ruptures_preserves (P : RuptureGmf -> Prop) indices :
  (forall v s, P s -> P (set_fitted_ruptures v s)) ->
  (forall v s, P s -> P (set_fitted_lists v s)) ->
  (forall v s, P s -> P (set_ranges v s)) ->
  preserves P (fit_ruptures indices).
Proof.
  intros H1 H2 H3. unfold fit_ruptures.
  repeat (frame_step || (apply preserves_assign; intros; auto)).
Qed.

Lemma uncertainty_model_large z975 s obs r m :
  mmi_obs s = Some obs ->
  (6 < length obs)%nat ->
  rmse s = Some r ->
  py_min r = Some m ->
  let sg := (1 / INR (length obs - 6)) * m ^ 2 in
  let indices := np_where (fun v => lt_float v (ppf975 z975 (m, sg))) r in
  state_of (uncertainty_model z975 s)
  = state_of (fit_ruptures indices (set_uncert_fun (m, sg) (set_sigma sg s)))
  /\ outcome_of (uncertainty_model z975 s)
     = outcome_of (fit_ruptures indices
                     (set_uncert_fun (m, sg) (set_sigma sg s))).
Proof.
  intros Hobs Hlen Hr Hm sg indices. unfold uncertainty_model.
  rewrite (bind_run _ _ _ _ _ _
             (accepted_indices_large z975 s obs r m Hobs Hlen Hr Hm)).
  fold sg. fold indices.
  destruct (fit_ruptures indices (set_uncert_fun (m, sg) (set_sigma sg s)))
    as [[o s2] out2].
  split; reflexivity.
Qed.

Lemma uncertainty_model_scale z975 s obs r m :
  mmi_obs s = Some obs ->
  (6 < length obs)%nat ->
  rmse s = Some r ->
  py_min r = Some m ->
  let sg := (1 / INR (length obs - 6)) * m ^ 2 in
  sigma (state_of (uncertainty_model z975 s)) = Some sg /\
  uncert_fun (state_of (uncertainty_model z975 s)) = Some (m, sg).
Proof.
  intros Hobs Hlen Hr Hm sg.
  destruct (uncertainty_model_large z975 s obs r m Hobs Hlen Hr Hm)
    as [-> _].
  fold sg.
  apply (fit_ruptures_preserves
           (fun s' => sigma s' = Some sg /\ uncert_fun s' = Some (m, sg)));
    try (intros v s0 H; exact H).
  split; reflexivity.
Qed.

Lemma dof_positive (obs : list R) :
  (6 < length obs)%nat -> 0 < INR (length obs - 6).
Proof. intros H. apply lt_0_INR. lia. Qed.

Lemma ppf975_positive_scale z975 m sg :
  0 < sg -> ppf975 z975 (m, sg) = Some (m + sg * z975).
Proof.
  intros H. unfold ppf975. destruct (Rlt_dec 0 sg); [reflexivity | lra].
Qed.

Lemma ppf975_zero_scale z975 m : ppf975 z975 (m, 0) = None.
Proof. unfold ppf975. destruct (Rlt_dec 0 0); [lra | reflexivity]. Qed.

Lemma scale_positive (obs : list R) m :
  (6 < length obs)%nat -> m <> 0 -> 0 < m ^ 2 / INR (length obs - 6).
Proof.
  intros Hlen Hm. apply Rdiv_lt_0_compat; [|now apply dof_positive].
  assert (0 < m * m) by nra. simpl. lra.
Qed.

(** What line 242 and line 244 of the method do.  With more than six
    observations the estimator stores in [sigma] the quotient
    min_misfit^2 / (N - 6) itself, no square root taken, and uses that
    number as the standard deviation of the normal distribution centred at
    min_misfit; the accepted positions are those whose misfit is below the
    97.5th percentile of that distribution, which is
    min_misfit + sigma * z975 when the minimum misfit is not zero. *)
Theorem uncertainty_model_sigma_is_square_over_dof
  (z975 : R) (s : RuptureGmf) (obs r : list R) (m : R) :
  mmi_obs s = Some obs ->
  (6 < length obs)%nat ->
  rmse s = Some r ->
  py_min r = Some m ->
  let sg := m ^ 2 / INR (length obs - 6) in
  sigma (state_of (uncertainty_model z975 s)) = Some sg /\
  uncert_fun (state_of (uncertainty_model z975 s)) = Some (m, sg) /\
  outcome_of (accepted_indices z975 s)
  = Ok (np_where (fun v => lt_float v (ppf975 z975 (m, sg))) r) /\
  (m <> 0 -> ppf975 z975 (m, sg) = Some (m + sg * z975)).
Proof.
  intros Hobs Hlen Hr Hm sg.
  assert (Hsg : (1 / INR (length obs - 6)) * m ^ 2 = sg)
    by (unfold sg, Rdiv; ring).
  destruct (uncertainty_model_scale z975 s obs r m Hobs Hlen Hr Hm)
    as [H1 H2].
  rewrite Hsg in H1, H2.
  repeat split; try assumption.
  - rewrite (accepted_indices_large z975 s obs r m Hobs Hlen Hr Hm).
    now rewrite Hsg.
  - intros Hm0. apply ppf975_positive_scale. now apply scale_positive.
Qed.

Lemma scenario_B_scale :
  sigma (state_of (uncertainty_model z975_approx scenario_B)) = Some 0.04 /\
  uncert_fun (state_of (uncertainty_model z975_approx scenario_B))
  = Some (0.2, 0.04).
Proof.
  destruct (uncertainty_model_scale z975_approx scenario_B obs7
              [0.2; 1; 1] 0.2) as [H1 H2];
    try (rewrite scenario_B_state; reflexivity).
  - unfold obs7. simpl. lia.
  - exact py_min_scenario_B.
  - assert (E : 1 / INR (length obs7 - 6) * 0.2 ^ 2 = 0.04)
      by (unfold obs7; simpl; lra).
    rewrite E in H1, H2. now split.
Qed.

(** C1 on the code, in scenario B (best misfit 0.2, seven observations,
    one degree of freedom): the stored sigma is 0.04, so its square is not
    0.2^2 / 1, and the normal distribution used has mean 0.2 and standard
    deviation 0.04, not 0.2.  The docstring of the method announces an
    estimate of the standard deviation; the quotient is assigned without
    its square root. *)
Theorem scenario_B_sigma_is_not_root :
  py_min [0.2; 1; 1] = Some 0.2 /\
  rmse scenario_B = Some [0.2; 1; 1] /\
  mmi_obs scenario_B = Some obs7 /\
  sigma (state_of (uncertainty_model z975_approx scenario_B)) = Some 0.04 /\
  0.04 ^ 2 <> 0.2 ^ 2 / INR (length obs7 - 6) /\
  uncert_fun (state_of (uncertainty_model z975_approx scenario_B))
  <> Some (0.2, 0.2).
Proof.
  destruct scenario_B_scale as [H1 H2].
  split; [exact py_min_scenario_B|].
  split; [now rewrite scenario_B_state|].
  split; [now rewrite scenario_B_state|].
  split; [exact H1|].
  split.
  - unfold obs7. simpl. lra.
  - rewrite H2. intros H. injection H as H. lra.
Qed.

(** The same in scenario B: mean 0.2 and scale 0.2^2 / 1. *)
Lemma uncertainty_model_sigma_is_square_over_dof_witness :
  uncert_fun (state_of (uncertainty_model z975_approx scenario_B))
  = Some (0.2, 0.2 ^ 2 / INR (length obs7 - 6)).
Proof.
  refine (proj1 (proj2
    (uncertainty_model_sigma_is_square_over_dof z975_approx scenario_B obs7
       [0.2; 1; 1] 0.2 _ _ _ _))).
  - now rewrite scenario_B_state.
  - unfold obs7. simpl. lia.
  - now rewrite scenario_B_state.
  - exact py_min_scenario_B.
Defined.

(** ** The best fit and the accepted set *)

(** The value at the position [np.argmin] returns is the value [min]
    returns. *)
Lemma argmin_is_min r index m v :
  np_argmin r = Some index ->
  nth_error r index = Some v ->
  py_min r = Some m ->
  v = m.
Proof.
  intros Ha Hv Hm.
  assert (Hne : r <> []) by (intros ->; discriminate).
  destruct (np_argmin_spec r Hne) as (i' & m' & Ha' & Hm' & Hle & _).
  assert (i' = index) by congruence. subst i'.
  assert (m' = v) by congruence. subst m'.
  destruct (py_min_spec r m Hm) as [Hin Hmin].
  destruct (In_nth_error r m Hin) as [j Hj].
  specialize (Hle j m Hj).
  specialize (Hmin v (nth_error_In r index Hv)). lra.
Qed.

(** C3, as the code has it.  With more than six observations, a misfit
    sequence aligned with the rupture list and a least misfit that is not
    zero, the accepted set is exactly the set of positions whose misfit is
    strictly below the threshold, the position [np.argmin] returns is one
    of them, so the accepted set is not empty, and [uncertainty_model]
    returns normally with the ruptures at those positions as fitted
    ruptures. *)
Theorem uncertainty_model_accepts_best_fit
  (z975 : R) (s : RuptureGmf) (obs r : list R) (m : R) :
  0 < z975 ->
  mmi_obs s = Some obs ->
  (6 < length obs)%nat ->
  rmse s = Some r ->
  length (rupture_list s) = length r ->
  py_min r = Some m ->
  m <> 0 ->
  let thr := m + m ^ 2 / INR (length obs - 6) * z975 in
  exists accepted index fr,
    outcome_of (accepted_indices z975 s) = Ok accepted /\
    (forall i, In i accepted <->
               exists v, nth_error r i = Some v /\ v < thr) /\
    np_argmin r = Some index /\
    In index accepted /\
    accepted <> [] /\
    outcome_of (uncertainty_model z975 s) = Ok tt /\
    take_at (rupture_list s) accepted = Some fr /\
    fitted_ruptures (state_of (uncertainty_model z975 s)) = Some fr.
Proof.
  intros Hz Hobs Hlen Hr Hal Hm Hm0 thr.
  assert (Hne : r <> []) by (intros ->; discriminate).
  set (sg := (1 / INR (length obs - 6)) * m ^ 2).
  assert (Hsg : sg = m ^ 2 / INR (length obs - 6))
    by (unfold sg, Rdiv; ring).
  assert (Hpos : 0 < sg) by (rewrite Hsg; now apply scale_positive).
  assert (Hppf : ppf975 z975 (m, sg) = Some thr).
  { rewrite (ppf975_positive_scale z975 m sg Hpos). unfold thr.
    now rewrite Hsg. }
  set (accepted := np_where (fun v => lt_float v (ppf975 z975 (m, sg))) r).
  assert (Hacc : forall i, In i accepted <->
                   exists v, nth_error r i = Some v /\ v < thr).
  { intros i. unfold accepted. rewrite np_where_spec, Hppf.
    split; intros (v & Hv & Hlt); exists v; (split; [exact Hv|]);
      simpl in *; now apply Rltb_true. }
  destruct (np_argmin_spec r Hne) as (index & v & Ha & Hv & _ & _).
  assert (v = m) by (eapply argmin_is_min; eauto). subst v.
  assert (Hin : In index accepted).
  { apply Hacc. exists m. split; [exact Hv|]. unfold thr.
    rewrite <- Hsg. assert (0 < sg * z975) by now apply Rmult_lt_0_compat.
    lra. }
  destruct (take_at_in_range (rupture_list s) accepted) as [fr Hfr].
  { rewrite Hal. apply np_where_in_range. }
  assert (Hfrne : fr <> []).
  { intros E. rewrite (take_at_nil _ _ _ Hfr E) in Hin. exact Hin. }
  destruct (ranges_of_some fr Hfrne) as [rg Hrg].
  destruct (py_max_some r Hne) as [mx Hmx].
  destruct (uncertainty_model_large z975 s obs r m Hobs Hlen Hr Hm)
    as [Hst Hout].
  fold sg in Hst, Hout. fold accepted in Hst, Hout.
  rewrite (fit_ruptures_run (set_uncert_fun (m, sg) (set_sigma sg s))
             accepted r mx fr Hr Hmx Hfr), Hrg in Hst, Hout.
  exists accepted, index, fr.
  rewrite (accepted_indices_large z975 s obs r m Hobs Hlen Hr Hm).
  fold sg. fold accepted. rewrite Hst, Hout.
  repeat split; try assumption; try apply Hacc.
  intros E. rewrite E in Hin. exact Hin.
Qed.

(** C3 as stated fails when a candidate fits exactly: with seven
    observations and misfits [0; 1] the dispersion is 0, the percentile is
    nan, no position is accepted although [np.argmin] returns position 0,
    and [uncertainty_model] raises [ValueError] at [min] of the empty
    [fitted_mags]. *)
Lemma exact_fit_is_not_accepted :
  rmse exact_fit = Some [0; 1] /\
  mmi_obs exact_fit = Some obs7 /\
  np_argmin [0; 1] = Some 0%nat /\
  outcome_of (accepted_indices z975_approx exact_fit) = Ok [] /\
  outcome_of (uncertainty_model z975_approx exact_fit) = Raise ValueError /\
  fitted_ruptures (state_of (uncertainty_model z975_approx exact_fit))
  = Some [].
Proof.
  assert (Hr : rmse exact_fit = Some [0; 1])
    by (now rewrite exact_fit_state).
  assert (Hobs : mmi_obs exact_fit = Some obs7)
    by (now rewrite exact_fit_state).
  assert (Hlen : (6 < length obs7)%nat) by (unfold obs7; simpl; lia).
  assert (Hsg : 1 / INR (length obs7 - 6) * 0 ^ 2 = 0)
    by (unfold obs7; simpl; lra).
  assert (Hidx :
    np_where (fun v => lt_float v
                (ppf975 z975_approx
                   (0, 1 / INR (length obs7 - 6) * 0 ^ 2))) [0; 1] = []).
  { rewrite Hsg, ppf975_zero_scale. reflexivity. }
  split; [exact Hr|]. split; [exact Hobs|].
  split.
  { unfold np_argmin. simpl. Rdecide. reflexivity. }
  split.
  { rewrite (accepted_indices_large z975_approx exact_fit obs7 [0; 1] 0
               Hobs Hlen Hr py_min_exact_fit).
    cbv zeta. now rewrite Hidx. }
  destruct (uncertainty_model_large z975_approx exact_fit obs7 [0; 1] 0
              Hobs Hlen Hr py_min_exact_fit) as [Hst Hout].
  rewrite Hidx in Hst, Hout.
  match type of Hst with
  | context [fit_ruptures [] ?s1] =>
      rewrite (fit_ruptures_run s1 [] [0; 1] 1 [] Hr py_max_exact_fit
                 eq_refl) in Hst, Hout
  end.
  rewrite ranges_of_none in Hst, Hout.
  rewrite Hst, Hout. split; reflexivity.
Qed.

(** The amended C3 in scenario B. *)
Lemma uncertainty_model_accepts_best_fit_witness :
  exists accepted index fr,
    outcome_of (accepted_indices z975_approx scenario_B) = Ok accepted /\
    (forall i, In i accepted <->
               exists v, nth_error [0.2; 1; 1] i = Some v /\
                         v < 0.2 + 0.2 ^ 2 / INR (length obs7 - 6)
                                   * z975_approx) /\
    np_argmin [0.2; 1; 1] = Some index /\
    In index accepted /\
    accepted <> [] /\
    outcome_of (uncertainty_model z975_approx scenario_B) = Ok tt /\
    take_at (rupture_list scenario_B) accepted = Some fr /\
    fitted_ruptures (state_of (uncertainty_model z975_approx scenario_B))
    = Some fr.
Proof.
  apply (uncertainty_model_accepts_best_fit z975_approx scenario_B obs7
           [0.2; 1; 1] 0.2).
  - unfold z975_approx. lra.
  - now rewrite scenario_B_state.
  - unfold obs7. simpl. lia.
  - now rewrite scenario_B_state.
  - now rewrite scenario_B_state.
  - exact py_min_scenario_B.
  - lra.
Defined.

(** ** Too few observations *)

Lemma uncertainty_model_small z975 s obs r :
  mmi_obs s = Some obs ->
  (length obs <= 6)%nat ->
  rmse s = Some r ->
  uncertainty_model z975 s
  = (let '(o, s2, out2) :=
       fit_ruptures (np_where (fun v => Rltb v 1e24) r) s in
     (o, s2, not_enough :: out2)).
Proof.
  intros Hobs Hlen Hr. unfold uncertainty_model.
  rewrite (bind_run _ _ _ _ _ _
             (accepted_indices_small z975 s obs r Hobs Hlen Hr)).
  reflexivity.
Qed.

Lemma uncertainty_model_degenerate z975 s obs r :
  mmi_obs s = Some obs ->
  (length obs <= 6)%nat ->
  rmse s = Some r ->
  length (rupture_list s) = length r ->
  (exists v, In v r /\ v < 1e24) ->
  let accepted := np_where (fun v => Rltb v 1e24) r in
  outcome_of (uncertainty_model z975 s) = Ok tt /\
  In not_enough (output_of (uncertainty_model z975 s)) /\
  sigma (state_of (uncertainty_model z975 s)) = sigma s /\
  (forall i, In i accepted <->
             exists v, nth_error r i = Some v /\ v < 1e24) /\
  exists fr,
    take_at (rupture_list s) accepted = Some fr /\
    fitted_ruptures (state_of (uncertainty_model z975 s)) = Some fr.
Proof.
  intros Hobs Hlen Hr Hal (v0 & Hin0 & Hlt0) accepted.
  assert (Hacc : forall i, In i accepted <->
                   exists v, nth_error r i = Some v /\ v < 1e24).
  { intros i. unfold accepted. rewrite np_where_spec.
    split; intros (v & Hv & Hlt); exists v; (split; [exact Hv|]);
      now apply Rltb_true. }
  assert (Hne : r <> []) by (intros ->; contradiction).
  destruct (take_at_in_range (rupture_list s) accepted) as [fr Hfr].
  { rewrite Hal. apply np_where_in_range. }
  assert (Hfrne : fr <> []).
  { intros E. pose proof (take_at_nil _ _ _ Hfr E) as Hnil.
    destruct (In_nth_error r v0 Hin0) as [j Hj].
    assert (Hj' : In j accepted) by (apply Hacc; eauto).
    rewrite Hnil in Hj'. exact Hj'. }
  destruct (ranges_of_some fr Hfrne) as [rg Hrg].
  destruct (py_max_some r Hne) as [mx Hmx].
  rewrite (uncertainty_model_small z975 s obs r Hobs Hlen Hr).
  fold accepted.
  rewrite (fit_ruptures_run s accepted r mx fr Hr Hmx Hfr), Hrg.
  unfold outcome_of, output_of, state_of. simpl.
  repeat split; try apply Hacc; auto.
  exists fr. split; [exact Hfr | reflexivity].
Qed.

Lemma scenario_A_best_fit :
  np_argmin [0; 1; 1] = Some 0%nat /\
  find_best_fit scenario_A
  = (Ok tt, set_min_rmse 0 (set_best_rupture rup_a scenario_A), []).
Proof.
  assert (Ha : np_argmin [0; 1; 1] = Some 0%nat).
  { unfold np_argmin. simpl. Rdecide. reflexivity. }
  split; [exact Ha|].
  apply (find_best_fit_run scenario_A [0; 1; 1] 0%nat 0 rup_a);
    try exact Ha; try rewrite scenario_A_state; reflexivity.
Qed.

Lemma scenario_A_accepted :
  np_where (fun v => Rltb v 1e24) [0; 1; 1] = [0; 1; 2]%nat.
Proof.
  unfold np_where, where_from, Rltb. Rdecide. reflexivity.
Qed.

Lemma scenario_A_uncertainty z975 :
  outcome_of (uncertainty_model z975 scenario_A) = Ok tt /\
  In not_enough (output_of (uncertainty_model z975 scenario_A)) /\
  fitted_ruptures (state_of (uncertainty_model z975 scenario_A))
  = Some [rup_a; rup_b; rup_c].
Proof.
  rewrite (uncertainty_model_small z975 scenario_A [5; 5; 5] [0; 1; 1]);
    try (now rewrite scenario_A_state); [|simpl; lia].
  rewrite scenario_A_accepted.
  rewrite (fit_ruptures_run scenario_A [0; 1; 2]%nat [0; 1; 1] 1
             [rup_a; rup_b; rup_c]);
    try (now rewrite scenario_A_state); [|exact py_max_scenario_A].
  destruct (ranges_of_some [rup_a; rup_b; rup_c]) as [rg ->];
    [discriminate|].
  unfold outcome_of, output_of, state_of. simpl. auto.
Qed.

(** C6, as the code has it.  With at most six observations, a misfit
    sequence aligned with the rupture list and at least one misfit below
    the sentinel 1e24, the estimator returns normally: it prints the
    not-enough-data line, assigns no [sigma], and its fitted ruptures are
    the candidates at exactly the positions whose misfit is below the
    sentinel.  In scenario A the unweighted misfits are [0; 1; 1], the
    best fit is position 0 with value 0, and all three candidates are
    accepted. *)
Theorem uncertainty_model_few_observations :
  (forall (z975 : R) (s : RuptureGmf) (obs r : list R),
     mmi_obs s = Some obs ->
     (length obs <= 6)%nat ->
     rmse s = Some r ->
     length (rupture_list s) = length r ->
     (exists v, In v r /\ v < 1e24) ->
     let accepted := np_where (fun v => Rltb v 1e24) r in
     outcome_of (uncertainty_model z975 s) = Ok tt /\
     In not_enough (output_of (uncertainty_model z975 s)) /\
     sigma (state_of (uncertainty_model z975 s)) = sigma s /\
     (forall i, In i accepted <->
                exists v, nth_error r i = Some v /\ v < 1e24) /\
     exists fr,
       take_at (rupture_list s) accepted = Some fr /\
       fitted_ruptures (state_of (uncertainty_model z975 s)) = Some fr) /\
  rmse scenario_A = Some [0; 1; 1] /\
  mmi_obs scenario_A = Some [5; 5; 5] /\
  np_argmin [0; 1; 1] = Some 0%nat /\
  outcome_of (find_best_fit scenario_A) = Ok tt /\
  best_rupture (state_of (find_best_fit scenario_A)) = Some rup_a /\
  min_rmse (state_of (find_best_fit scenario_A)) = Some 0 /\
  (forall z975,
     outcome_of (uncertainty_model z975 scenario_A) = Ok tt /\
     In not_enough (output_of (uncertainty_model z975 scenario_A)) /\
     fitted_ruptures (state_of (uncertainty_model z975 scenario_A))
     = Some [rup_a; rup_b; rup_c]).
Proof.
  split; [exact uncertainty_model_degenerate|].
  destruct scenario_A_best_fit as [Ha Hb].
  rewrite Hb.
  repeat split; try (now rewrite scenario_A_state); try exact Ha;
    apply scenario_A_uncertainty.
Qed.

(** C6 as stated fails on a store without candidates: with three
    observations and an empty misfit sequence the estimator prints the
    not-enough-data line and then raises [ValueError] at
    [max(self.rmse)]. *)
Lemma no_candidate_estimator_raises :
  mmi_obs no_candidate = Some [5; 5; 5] /\
  rmse no_candidate = Some [] /\
  uncertainty_model z975_approx no_candidate
  = (Raise ValueError, no_candidate, [not_enough]).
Proof.
  split; [now rewrite no_candidate_state|].
  split; [now rewrite no_candidate_state|].
  rewrite (uncertainty_model_small z975_approx no_candidate [5; 5; 5] []);
    [ | now rewrite no_candidate_state | simpl; lia
      | now rewrite no_candidate_state ].
  rewrite fit_ruptures_no_misfit by (now rewrite no_candidate_state).
  reflexivity.
Qed.

(** The amended C6 in scenario A. *)
Lemma uncertainty_model_few_observations_witness :
  outcome_of (uncertainty_model z975_approx scenario_A) = Ok tt /\
  In not_enough (output_of (uncertainty_model z975_approx scenario_A)).
Proof.
  destruct (proj1 uncertainty_model_few_observations z975_approx scenario_A
              [5; 5; 5] [0; 1; 1]) as (H1 & H2 & _).
  - now rewrite scenario_A_state.
  - simpl. lia.
  - now rewrite scenario_A_state.
  - now rewrite scenario_A_state.
  - exists 0. split; [now left | lra].
  - exact (conj H1 H2).
Defined.

(** ** Parameter slice: the two loops *)

Lemma np_intersect1d_spec j k q :
  In q (np_intersect1d j k) <-> In q j /\ In q k.
Proof.
  unfold np_intersect1d. rewrite filter_In, existsb_exists.
  split.
  - intros (Hj & c & Hc & E). apply Nat.eqb_eq in E. subst c. now split.
  - intros (Hj & Hk). split; [exact Hj|]. exists q. split; [exact Hk|].
    apply Nat.eqb_refl.
Qed.

Lemma take_at_In {A} (l : list A) idx : forall vs v,
  take_at l idx = Some vs ->
  (In v vs <-> exists c, In c idx /\ nth_error l c = Some v).
Proof.
  induction idx as [|i idx IH]; intros vs v H; simpl in H.
  - injection H as <-. split; [intros [] | intros (c & [] & _)].
  - destruct (nth_error l i) as [w|] eqn:Ew; [|discriminate].
    destruct (take_at l idx) as [vs'|]; [|discriminate].
    injection H as <-. simpl. rewrite (IH vs' v eq_refl). split.
    + intros [<-|(c & Hc & Hn)]; [exists i | exists c]; auto.
    + intros (c & [<-|Hc] & Hn); [left; congruence | right; eauto].
Qed.

(** The positions that a turn of the inner loop selects. *)
Lemma cell_positions xv yv a b q :
  In q (np_intersect1d (np_where (fun v => Reqb v a) xv)
          (np_where (fun v => Reqb v b) yv))
  <-> nth_error xv q = Some a /\ nth_error yv q = Some b.
Proof.
  rewrite np_intersect1d_spec, !np_where_spec. split.
  - intros [(v & Hv & Ev) (w & Hw & Ew)].
    apply Reqb_true in Ev, Ew. subst. now split.
  - intros [Ha Hb]. split; [exists a | exists b];
      (split; [assumption | now apply Reqb_true]).
Qed.

Lemma cell_positions_in_range xv yv (rs : list R) a b :
  (length xv <= length rs)%nat ->
  Forall (fun q => (q < length rs)%nat)
    (np_intersect1d (np_where (fun v => Reqb v a) xv)
       (np_where (fun v => Reqb v b) yv)).
Proof.
  intros Hlen. apply Forall_forall. intros q Hq.
  apply cell_positions in Hq. destruct Hq as [Hq _].
  assert (q < length xv)%nat by (apply nth_error_Some; congruence). lia.
Qed.

(** One turn of the inner loop appends its cell and cannot raise. *)
Lemma slice_inner_run xv yv rs xi :
  (length xv <= length rs)%nat ->
  forall yus acc,
    slice_inner xv yv rs xi yus acc
    = Ok (append_entries acc (slice_row xv yv rs xi yus)).
Proof.
  intros Hlen. induction yus as [|yi yus IH]; intros [[xs ys] ms].
  - simpl. now rewrite !app_nil_r.
  - unfold slice_row. cbn [slice_inner flat_map]. unfold slice_cell.
    set (i := np_intersect1d (np_where (fun v => Reqb v xi) xv)
                (np_where (fun v => Reqb v yi) yv)).
    cbv zeta. fold i.
    destruct (0 <? length i)%nat eqn:Hpos.
    + destruct (take_at_in_range rs i) as [sub Hsub];
        [apply cell_positions_in_range; exact Hlen|].
      rewrite Hsub.
      assert (Hne : sub <> []).
      { intros E. rewrite (take_at_nil _ _ _ Hsub E) in Hpos.
        discriminate. }
      destruct (py_min_some sub Hne) as [m Hm]. rewrite Hm.
      rewrite IH. unfold append_entries, slice_row.
      cbn [app map entry_x entry_y entry_rmse fst snd].
      now rewrite <- !app_assoc.
    + rewrite IH. reflexivity.
Qed.

Lemma append_entries_app acc E1 E2 :
  append_entries (append_entries acc E1) E2 = append_entries acc (E1 ++ E2).
Proof.
  destruct acc as [[xs ys] ms]. unfold append_entries.
  now rewrite !map_app, !app_assoc.
Qed.

(** The outer loop appends the rows in order and cannot raise. *)
Lemma slice_outer_run xv yv rs :
  (length xv <= length rs)%nat ->
  forall xus acc,
    slice_outer xv yv rs xus acc
    = Ok (append_entries acc (slice_entries xv yv rs xus)).
Proof.
  intros Hlen. induction xus as [|xi xus IH]; intros acc.
  - destruct acc as [[xs ys] ms]. simpl. now rewrite !app_nil_r.
  - cbn [slice_outer]. rewrite (slice_inner_run xv yv rs xi Hlen).
    rewrite IH, append_entries_app. reflexivity.
Qed.

(** A cell holds the least misfit among the selected positions with the
    pair [(a, b)], when there is one. *)
Lemma slice_cell_spec xv yv rs a b t :
  (length xv <= length rs)%nat ->
  In t (slice_cell xv yv rs a b) <->
  exists m,
    t = (a, b, m) /\
    (exists q, nth_error xv q = Some a /\ nth_error yv q = Some b /\
               nth_error rs q = Some m) /\
    (forall q v, nth_error xv q = Some a -> nth_error yv q = Some b ->
                 nth_error rs q = Some v -> m <= v).
Proof.
  intros Hlen. unfold slice_cell.
  set (i := np_intersect1d (np_where (fun v => Reqb v a) xv)
              (np_where (fun v => Reqb v b) yv)).
  cbv zeta. fold i.
  destruct (take_at_in_range rs i) as [sub Hsub];
    [apply cell_positions_in_range; exact Hlen|].
  rewrite Hsub.
  destruct (0 <? length i)%nat eqn:Hpos.
  - assert (Hne : sub <> []).
    { intros E. rewrite (take_at_nil _ _ _ Hsub E) in Hpos. discriminate. }
    destruct (py_min_some sub Hne) as [m Hm]. rewrite Hm.
    destruct (py_min_spec sub m Hm) as [Hin Hmin].
    apply (take_at_In rs i sub m Hsub) in Hin.
    destruct Hin as (q0 & Hq0 & Hr0).
    apply cell_positions in Hq0. destruct Hq0 as [Hx0 Hy0].
    assert (Hleast : forall q v, nth_error xv q = Some a ->
              nth_error yv q = Some b -> nth_error rs q = Some v -> m <= v).
    { intros q v Hx Hy Hr. apply Hmin.
      apply (take_at_In rs i sub v Hsub). exists q. split; [|exact Hr].
      now apply cell_positions. }
    split.
    + intros [<-|[]]. exists m. split; [reflexivity|]. split; [|exact Hleast].
      now exists q0.
    + intros (m' & -> & (q & Hx & Hy & Hr) & Hleast'). left.
      specialize (Hleast q m' Hx Hy Hr).
      specialize (Hleast' q0 m Hx0 Hy0 Hr0).
      f_equal. lra.
  - split; [intros []|].
    intros (m' & _ & (q & Hx & Hy & _) & _).
    assert (Hq : In q i) by (now apply cell_positions).
    apply Nat.ltb_ge in Hpos. destruct i; [exact Hq | simpl in Hpos; lia].
Qed.

(** ** [np.unique] *)

Lemma insert_unique_In a l x :
  In x (insert_unique a l) <-> x = a \/ In x l.
Proof.
  induction l as [|y l IH]; simpl.
  - split; [intros [<-|[]]; now left | intros [->|[]]; now left].
  - destruct (Rlt_dec a y) as [Hlt|Hlt]; [simpl; intuition|].
    destruct (Req_dec_T a y) as [Heq|Hne]; simpl.
    + subst y. intuition.
    + rewrite IH. intuition.
Qed.

Lemma np_unique_In l x : In x (np_unique l) <-> In x l.
Proof.
  induction l as [|a l IH]; simpl; [reflexivity|].
  rewrite insert_unique_In, IH. intuition.
Qed.

Lemma insert_unique_increasing a l :
  increasing l -> increasing (insert_unique a l).
Proof.
  induction 1 as [|y l Hl IH Hy]; simpl.
  - constructor; [constructor | intros x []].
  - destruct (Rlt_dec a y) as [Hlt|Hlt].
    + constructor; [now constructor|].
      intros x [<-|Hx]; [exact Hlt|]. specialize (Hy x Hx). lra.
    + destruct (Req_dec_T a y) as [Heq|Hne]; [now constructor|].
      constructor; [exact IH|].
      intros x Hx. apply insert_unique_In in Hx.
      destruct Hx as [->|Hx]; [lra | now apply Hy].
Qed.

Lemma np_unique_increasing l : increasing (np_unique l).
Proof.
  induction l as [|a l IH]; simpl; [constructor|].
  now apply insert_unique_increasing.
Qed.

Lemma increasing_NoDup l : increasing l -> NoDup l.
Proof.
  induction 1 as [|a l Hl IH Ha]; constructor; [|exact IH].
  intros Hin. specialize (Ha a Hin). lra.
Qed.

Lemma np_unique_NoDup l : NoDup (np_unique l).
Proof. apply increasing_NoDup, np_unique_increasing. Qed.

(** ** Parameter slice: the entries *)

Lemma NoDup_flat_map {A B} (f : A -> list B) l :
  NoDup l ->
  (forall x, In x l -> NoDup (f x)) ->
  (forall x y b, In x l -> In y l -> In b (f x) -> In b (f y) -> x = y) ->
  NoDup (flat_map f l).
Proof.
  induction 1 as [|a l Ha Hl IH]; intros Hf Hd; simpl; [constructor|].
  apply NoDup_app.
  - apply Hf. now left.
  - apply IH.
    + intros x Hx. apply Hf. now right.
    + intros x y b Hx Hy. apply Hd; now right.
  - intros b Hb Hb'. apply in_flat_map in Hb'.
    destruct Hb' as (x & Hx & Hbx).
    assert (a = x) by (apply (Hd a x b); auto; [now left | now right]).
    subst x. contradiction.
Qed.

Lemma map_flat_map_comm {A B C} (g : B -> C) (f : A -> list B) l :
  map g (flat_map f l) = flat_map (fun x => map g (f x)) l.
Proof.
  induction l as [|a l IH]; simpl; [reflexivity|].
  now rewrite map_app, IH.
Qed.

Lemma slice_cell_key xv yv rs a b t :
  In t (slice_cell xv yv rs a b) -> entry_key t = (a, b).
Proof.
  unfold slice_cell. cbv zeta.
  destruct (0 <? _)%nat; [|intros []].
  destruct (take_at rs _) as [sub|]; [|intros []].
  destruct (py_min sub) as [m|]; [|intros []].
  now intros [<-|[]].
Qed.

Lemma slice_cell_keys_NoDup xv yv rs a b :
  NoDup (map entry_key (slice_cell xv yv rs a b)).
Proof.
  unfold slice_cell. cbv zeta.
  destruct (0 <? _)%nat; [|constructor].
  destruct (take_at rs _) as [sub|]; [|constructor].
  destruct (py_min sub) as [m|]; [|constructor].
  simpl. constructor; [intros [] | constructor].
Qed.

Lemma slice_row_key xv yv rs a yus k :
  In k (map entry_key (slice_row xv yv rs a yus)) -> fst k = a.
Proof.
  intros H. apply in_map_iff in H. destruct H as (t & <- & Ht).
  apply in_flat_map in Ht. destruct Ht as (b & _ & Ht).
  now rewrite (slice_cell_key _ _ _ _ _ _ Ht).
Qed.

Lemma slice_row_keys_NoDup xv yv rs a yus :
  NoDup yus -> NoDup (map entry_key (slice_row xv yv rs a yus)).
Proof.
  intros Hy. unfold slice_row. rewrite map_flat_map_comm.
  apply NoDup_flat_map; [exact Hy | |].
  - intros b _. apply slice_cell_keys_NoDup.
  - intros b1 b2 k _ _ H1 H2.
    apply in_map_iff in H1, H2.
    destruct H1 as (t1 & <- & H1). destruct H2 as (t2 & E & H2).
    rewrite (slice_cell_key _ _ _ _ _ _ H1) in E.
    rewrite (slice_cell_key _ _ _ _ _ _ H2) in E. congruence.
Qed.

(** No pair occurs twice among the entries of the slice. *)
Lemma slice_entries_keys_NoDup xv yv rs :
  NoDup (map entry_key (slice_entries xv yv rs (np_unique xv))).
Proof.
  unfold slice_entries. rewrite map_flat_map_comm.
  apply NoDup_flat_map; [apply np_unique_NoDup | |].
  - intros a _. apply slice_row_keys_NoDup, np_unique_NoDup.
  - intros a1 a2 k _ _ H1 H2.
    apply slice_row_key in H1, H2. congruence.
Qed.

(** The entries of the slice: one triple per pair that occurs among the
    selected positions, with the least misfit of that pair. *)
Lemma slice_entries_spec xv yv rs t :
  (length xv <= length rs)%nat ->
  In t (slice_entries xv yv rs (np_unique xv)) <->
  exists m,
    t = (entry_x t, entry_y t, m) /\
    (exists q, nth_error xv q = Some (entry_x t) /\
               nth_error yv q = Some (entry_y t) /\
               nth_error rs q = Some m) /\
    (forall q v, nth_error xv q = Some (entry_x t) ->
                 nth_error yv q = Some (entry_y t) ->
                 nth_error rs q = Some v -> m <= v).
Proof.
  intros Hlen. unfold slice_entries, slice_row. split.
  - intros H. apply in_flat_map in H. destruct H as (a & _ & H).
    apply in_flat_map in H. destruct H as (b & _ & H).
    apply (slice_cell_spec xv yv rs a b t Hlen) in H.
    destruct H as (m & -> & Hq & Hmin). exists m. simpl. auto.
  - intros (m & Et & (q & Hx & Hy & Hr) & Hmin).
    apply in_flat_map. exists (entry_x t). split.
    { apply np_unique_In. eapply nth_error_In; eauto. }
    apply in_flat_map. exists (entry_y t). split.
    { apply np_unique_In. eapply nth_error_In; eauto. }
    apply (slice_cell_spec xv yv rs _ _ t Hlen).
    exists m. split; [exact Et|]. split; [now exists q | exact Hmin].
Qed.

(** ** Parameter slice: the method *)

Lemma parameter_row p rl :
  nth (parameter_dict p) (parameter_space rl) [] = map (param_value p) rl.
Proof. destruct p; reflexivity. Qed.

Lemma runs_ok_bind {A B} (m : M A) (k : A -> M B) s a b :
  runs_ok m s a -> runs_ok (k a) s b -> runs_ok (bind m k) s b.
Proof.
  intros [o1 H1] [o2 H2]. exists (o1 ++ o2).
  unfold bind. now rewrite H1, H2.
Qed.

Lemma runs_raise_bind {A B} (m : M A) (k : A -> M B) s a e :
  runs_ok m s a -> runs_raise (k a) s e -> runs_raise (bind m k) s e.
Proof.
  intros [o1 H1] [o2 H2]. exists (o1 ++ o2).
  unfold bind. now rewrite H1, H2.
Qed.

Lemma runs_ok_ret {A} (a : A) s : runs_ok (ret a) s a.
Proof. now exists []. Qed.

Lemma runs_ok_getfield {A} (field : RuptureGmf -> A) s :
  runs_ok (getfield field) s (field s).
Proof. now exists []. Qed.

Lemma runs_ok_getattr {A} (field : RuptureGmf -> option A) s v :
  field s = Some v -> runs_ok (getattr field) s v.
Proof. intros H. exists []. unfold getattr. now rewrite H. Qed.

Lemma runs_ok_lift {A} e (o : option A) s v :
  o = Some v -> runs_ok (lift e o) s v.
Proof. intros ->. now exists []. Qed.

Lemma runs_raise_lift {A} e s : runs_raise (@lift A e None) s e.
Proof. now exists []. Qed.

Lemma runs_ok_lift_outcome {A} (o : outcome A) s v :
  o = Ok v -> runs_ok (lift_outcome o) s v.
Proof. intros ->. now exists []. Qed.

Lemma runs_ok_print items s : runs_ok (print items) s tt.
Proof. now eexists. Qed.

Lemma runs_ok_emit e s : runs_ok (emit e) s tt.
Proof. now eexists. Qed.

Section Slice.

Variable z975 : R.
Variable Grid : Type.
Variable GridValues : Type.
Variable np_mgrid : R * R * R -> R * R * R -> Grid.
Variable griddata_nearest : list R -> list R -> list R -> Grid -> GridValues.
Variable plt_contour : Grid -> GridValues -> list (option R) -> bool.
Variable plt_contourf : Grid -> GridValues -> R -> R -> bool.

Let slice := uncertainty_slice z975 Grid GridValues np_mgrid
               griddata_nearest plt_contour plt_contourf.

(** The contour overlay is skipped without an uncertainty model and on
    a [ValueError] of the backend: the block always completes. *)
Lemma contour_block_ok s grid rmse_grid :
  runs_ok
    (try_except
       (try_except
          (sg <- getattr sigma ;;
           uf <- getattr uncert_fun ;;
           if plt_contour grid rmse_grid [Some sg; ppf975 z975 uf]
           then ret tt else raise ValueError)
          AttributeError (ret tt))
       ValueError (print only_one)) s tt.
Proof.
  unfold runs_ok, try_except, bind, getattr.
  destruct (sigma s) as [sg|]; [|eexists; reflexivity].
  destruct (uncert_fun s) as [uf|]; [|eexists; reflexivity].
  destruct (plt_contour grid rmse_grid [Some sg; ppf975 z975 uf]);
    eexists; reflexivity.
Qed.

(** The filled contours complete, or their [ValueError] is caught. *)
Lemma contourf_block_ok s r grid rmse_grid fig z zvalue x y :
  rmse s = Some r ->
  runs_ok
    (try_except
       (r' <- getattr rmse ;;
        vmax <- lift ValueError (py_max r') ;;
        vmin <- lift ValueError (py_min r') ;;
        (if plt_contourf grid rmse_grid vmax vmin
         then ret tt else raise ValueError) ;;
        emit (SaveFig fig z zvalue x y))
       ValueError (print only_one)) s tt.
Proof.
  intros Hr. unfold runs_ok, try_except.
  unfold bind at 1, getattr at 1. rewrite Hr.
  destruct r as [|v r']; [eexists; reflexivity|].
  unfold bind, lift, py_max, py_min, ret.
  destruct (plt_contourf grid rmse_grid _ _); eexists; reflexivity.
Qed.

(** The run of [uncertainty_slice] on a store with a misfit sequence:
    with at least one selected candidate it returns the entries of the
    two loops; with none it raises at [min(xvalues)].  The object is
    left as it was in both cases. *)
Lemma uncertainty_slice_run s r x y z zvalue fig sel rs :
  rmse s = Some r ->
  let indices := np_where (fun v => Reqb v zvalue)
                   (map (param_value z) (rupture_list s)) in
  take_at (rupture_list s) indices = Some sel ->
  take_at r indices = Some rs ->
  let xv := map (param_value x) sel in
  let yv := map (param_value y) sel in
  (sel <> [] ->
   runs_ok (slice x y z zvalue fig) s
     (append_entries ([], [], [])
        (slice_entries xv yv rs (np_unique xv)))) /\
  (sel = [] -> runs_raise (slice x y z zvalue fig) s ValueError).
Proof.
  intros Hr indices Hsel Hrs xv yv.
  assert (Hlen : (length xv <= length rs)%nat).
  { unfold xv. rewrite length_map.
    destruct (take_at_spec _ _ _ Hsel) as [-> _].
    destruct (take_at_spec _ _ _ Hrs) as [-> _]. lia. }
  unfold slice, uncertainty_slice.
  split.
  - intros Hne.
    eapply runs_ok_bind; [apply runs_ok_getfield|]. cbv zeta.
    rewrite !parameter_row. fold indices.
    eapply runs_ok_bind;
      [apply runs_ok_lift, (take_at_map _ _ _ _ Hsel)|]. fold xv.
    eapply runs_ok_bind;
      [apply runs_ok_lift, (take_at_map _ _ _ _ Hsel)|]. fold yv.
    eapply runs_ok_bind; [apply runs_ok_getattr, Hr|].
    eapply runs_ok_bind; [apply runs_ok_lift, Hrs|].
    eapply runs_ok_bind;
      [apply runs_ok_lift_outcome, (slice_outer_run xv yv rs Hlen)|].
    cbn [append_entries app].
    eapply runs_ok_bind; [apply runs_ok_print|].
    assert (Hxv : xv <> []) by (unfold xv; now destruct sel).
    assert (Hyv : yv <> []) by (unfold yv; now destruct sel).
    destruct (py_min_some xv Hxv) as [x0 Hx0].
    destruct (py_max_some xv Hxv) as [x1 Hx1].
    destruct (py_min_some yv Hyv) as [y0 Hy0].
    destruct (py_max_some yv Hyv) as [y1 Hy1].
    eapply runs_ok_bind; [apply runs_ok_lift, Hx0|].
    eapply runs_ok_bind; [apply runs_ok_lift, Hx1|].
    eapply runs_ok_bind; [apply runs_ok_lift, Hy0|].
    eapply runs_ok_bind; [apply runs_ok_lift, Hy1|].
    cbv zeta.
    eapply runs_ok_bind; [apply runs_ok_emit|].
    eapply runs_ok_bind; [apply contour_block_ok|].
    eapply runs_ok_bind; [apply (contourf_block_ok s r), Hr|].
    apply runs_ok_ret.
  - intros ->. simpl in xv, yv.
    eapply runs_raise_bind; [apply runs_ok_getfield|]. cbv zeta.
    rewrite !parameter_row. fold indices.
    eapply runs_raise_bind;
      [apply runs_ok_lift, (take_at_map _ _ _ _ Hsel)|].
    eapply runs_raise_bind;
      [apply runs_ok_lift, (take_at_map _ _ _ _ Hsel)|].
    eapply runs_raise_bind; [apply runs_ok_getattr, Hr|].
    eapply runs_raise_bind; [apply runs_ok_lift, Hrs|].
    eapply runs_raise_bind;
      [apply runs_ok_lift_outcome, (slice_outer_run [] [] rs Hlen)|].
    cbn [append_entries app map np_unique fold_right slice_entries flat_map].
    eapply runs_raise_bind; [apply runs_ok_print|].
    exists []. reflexivity.
Qed.

End Slice.

(** ** Parameter slice: the selected candidates *)

Section Selection.

Variable s : RuptureGmf.
Variable r : list R.
Variables x y z : Param.
Variable zvalue : R.

Hypothesis rmse_present : rmse s = Some r.
Hypothesis aligned : length (rupture_list s) = length r.

Let indices : list nat :=
  np_where (fun v => Reqb v zvalue)
    (map (param_value z) (rupture_list s)).

Lemma indices_selected c :
  In c indices <-> exists rup, selected s z zvalue c rup.
Proof.
  unfold indices, selected. rewrite np_where_spec. split.
  - intros (v & Hv & Ev). rewrite nth_error_map in Hv.
    destruct (nth_error (rupture_list s) c) as [rup|]; [|discriminate].
    injection Hv as <-. apply Reqb_true in Ev. now exists rup.
  - intros (rup & Hc & Hz). exists (param_value z rup).
    rewrite nth_error_map, Hc. split; [reflexivity|].
    now apply Reqb_true.
Qed.

Lemma indices_in_range :
  Forall (fun q => (q < length (rupture_list s))%nat) indices.
Proof.
  unfold indices.
  rewrite <- (length_map (param_value z) (rupture_list s)).
  apply np_where_in_range.
Qed.

Lemma selection_exists :
  exists sel rs,
    take_at (rupture_list s) indices = Some sel /\
    take_at r indices = Some rs.
Proof.
  destruct (take_at_in_range _ _ indices_in_range) as [sel Hsel].
  destruct (take_at_in_range r indices) as [rs Hrs].
  { rewrite <- aligned. exact indices_in_range. }
  now exists sel, rs.
Qed.

Variable sel : list Rupture.
Variable rs : list R.
Hypothesis Hsel : take_at (rupture_list s) indices = Some sel.
Hypothesis Hrs : take_at r indices = Some rs.

(** A position of the subset is a selected candidate, and conversely. *)
Lemma subset_position a b m :
  (exists q, nth_error (map (param_value x) sel) q = Some a /\
             nth_error (map (param_value y) sel) q = Some b /\
             nth_error rs q = Some m)
  <->
  (exists c rup, selected s z zvalue c rup /\
                 param_value x rup = a /\ param_value y rup = b /\
                 nth_error r c = Some m).
Proof.
  destruct (take_at_spec _ _ _ Hsel) as [Hl1 Hn1].
  destruct (take_at_spec _ _ _ Hrs) as [Hl2 Hn2].
  split.
  - intros (q & Hx & Hy & Hm).
    assert (Hq : (q < length indices)%nat).
    { rewrite <- Hl2. apply nth_error_Some. congruence. }
    destruct (nth_error indices q) as [c|] eqn:Ec;
      [|apply nth_error_Some in Hq; contradiction].
    rewrite nth_error_map, (Hn1 q c Ec) in Hx, Hy.
    rewrite (Hn2 q c Ec) in Hm.
    destruct (nth_error (rupture_list s) c) as [rup|] eqn:Er;
      [|discriminate].
    injection Hx as Hx. injection Hy as Hy.
    exists c, rup. repeat split; auto.
    destruct (proj1 (indices_selected c) (nth_error_In _ _ Ec))
      as (rup' & Hc' & Hz').
    congruence.
  - intros (c & rup & [Hc Hz] & Hx & Hy & Hm).
    assert (Hin : In c indices)
      by (apply indices_selected; exists rup; now split).
    destruct (In_nth_error _ _ Hin) as [q Hq].
    exists q. rewrite !nth_error_map, (Hn1 q c Hq), (Hn2 q c Hq), Hc.
    simpl. now subst.
Qed.

Lemma selection_nonempty :
  (exists c rup, selected s z zvalue c rup) <-> sel <> [].
Proof.
  split.
  - intros (c & rup & H) E.
    assert (Hin : In c indices) by (apply indices_selected; eauto).
    rewrite (take_at_nil _ _ _ Hsel E) in Hin. exact Hin.
  - intros Hne. destruct (take_at_spec _ _ _ Hsel) as [Hl _].
    destruct indices as [|c idx] eqn:E.
    + destruct sel; [congruence | discriminate].
    + assert (Hin : In c indices) by (rewrite E; now left).
      apply indices_selected in Hin. destruct Hin as [rup H].
      now exists c, rup.
Qed.

(** The entries of the slice in terms of the candidates of the store. *)
Lemma slice_entries_candidates a b m :
  In (a, b, m)
    (slice_entries (map (param_value x) sel) (map (param_value y) sel) rs
       (np_unique (map (param_value x) sel)))
  <->
  (exists c rup, selected s z zvalue c rup /\
                 param_value x rup = a /\ param_value y rup = b /\
                 nth_error r c = Some m) /\
  (forall c rup v, selected s z zvalue c rup ->
                   param_value x rup = a -> param_value y rup = b ->
                   nth_error r c = Some v -> m <= v).
Proof.
  assert (Hlen : (length (map (param_value x) sel) <= length rs)%nat).
  { rewrite length_map.
    destruct (take_at_spec _ _ _ Hsel) as [-> _].
    destruct (take_at_spec _ _ _ Hrs) as [-> _]. lia. }
  rewrite (slice_entries_spec _ _ _ (a, b, m) Hlen).
  unfold entry_x, entry_y. cbn [fst snd]. split.
  - intros (m' & Et & Hq & Hmin). injection Et as <-.
    split; [now apply subset_position|].
    intros c rup v Hc Hx Hy Hv.
    destruct (proj2 (subset_position a b v)) as (q & Hq1 & Hq2 & Hq3).
    { exists c, rup. auto. }
    exact (Hmin q v Hq1 Hq2 Hq3).
  - intros [Hex Hmin]. exists m. split; [reflexivity|].
    split; [now apply subset_position|].
    intros q v Hq1 Hq2 Hq3.
    destruct (proj1 (subset_position a b v)) as (c & rup & Hc & Hx & Hy & Hv).
    { now exists q. }
    exact (Hmin c rup v Hc Hx Hy Hv).
Qed.

End Selection.

(** ** Parameter slice: what it returns *)

Lemma append_entries_nil E :
  append_entries ([], [], []) E
  = (map entry_x E, map entry_y E, map entry_rmse E).
Proof. reflexivity. Qed.

(** The slice of an aligned store: a list of entries, one per pair of the
    selected candidates with the least misfit of the pair, which every
    backend returns as three parallel lists when a candidate is selected;
    with no selected candidate the method raises [ValueError]. *)
Lemma uncertainty_slice_entries s r x y z zvalue :
  rmse s = Some r ->
  length (rupture_list s) = length r ->
  exists E : list (R * R * R),
    NoDup (map entry_key E) /\
    (forall a b m,
       In (a, b, m) E <->
       (exists c rup, selected s z zvalue c rup /\
                      param_value x rup = a /\ param_value y rup = b /\
                      nth_error r c = Some m) /\
       (forall c rup v, selected s z zvalue c rup ->
                        param_value x rup = a -> param_value y rup = b ->
                        nth_error r c = Some v -> m <= v)) /\
    ((exists c rup, selected s z zvalue c rup) ->
     forall z975 (Grid GridValues : Type) np_mgrid griddata_nearest
            plt_contour plt_contourf fig,
       runs_ok (uncertainty_slice z975 Grid GridValues np_mgrid
                  griddata_nearest plt_contour plt_contourf
                  x y z zvalue fig) s
         (map entry_x E, map entry_y E, map entry_rmse E)) /\
    ((forall c rup, ~ selected s z zvalue c rup) ->
     E = [] /\
     forall z975 (Grid GridValues : Type) np_mgrid griddata_nearest
            plt_contour plt_contourf fig,
       runs_raise (uncertainty_slice z975 Grid GridValues np_mgrid
                     griddata_nearest plt_contour plt_contourf
                     x y z zvalue fig) s ValueError).
Proof.
  intros Hr Hal.
  destruct (selection_exists s r z zvalue Hal) as (sel & rs & Hsel & Hrs).
  exists (slice_entries (map (param_value x) sel) (map (param_value y) sel)
            rs (np_unique (map (param_value x) sel))).
  split; [apply slice_entries_keys_NoDup|].
  split;
    [intros a b m;
     exact (slice_entries_candidates s r x y z zvalue Hal sel rs Hsel Hrs
              a b m)|].
  split.
  - intros Hex z975 Grid GridValues np_mgrid griddata_nearest plt_contour
      plt_contourf fig.
    rewrite <- append_entries_nil.
    apply (proj1 (uncertainty_slice_run z975 Grid GridValues np_mgrid
                    griddata_nearest plt_contour plt_contourf
                    s r x y z zvalue fig sel rs Hr Hsel Hrs)).
    now apply (selection_nonempty s r z zvalue sel rs Hsel Hrs).
  - intros Hnone.
    assert (E : sel = []).
    { destruct sel as [|rup sel'] eqn:Es; [reflexivity|]. exfalso.
      destruct (proj2 (selection_nonempty s r z zvalue (rup :: sel') rs
                         Hsel Hrs))
        as (c & rup' & H); [discriminate|].
      exact (Hnone c rup' H). }
    subst sel. split; [reflexivity|].
    intros z975 Grid GridValues np_mgrid griddata_nearest plt_contour
      plt_contourf fig.
    now apply (proj2 (uncertainty_slice_run z975 Grid GridValues np_mgrid
                        griddata_nearest plt_contour plt_contourf
                        s r x y z zvalue fig [] rs Hr Hsel Hrs)).
Qed.

Lemma runs_ok_outcome {A} (m : M A) s a :
  runs_ok m s a -> outcome_of (m s) = Ok a /\ state_of (m s) = s.
Proof. intros [out H]. rewrite H. now split. Qed.

Lemma runs_raise_outcome {A} (m : M A) s e :
  runs_raise m s e -> outcome_of (m s) = Raise e /\ state_of (m s) = s.
Proof. intros [out H]. rewrite H. now split. Qed.

(** [uncertainty_slice] assigns no attribute: whatever it does, returning
    or raising, the object after the call is the object before it. *)
Lemma uncertainty_slice_readonly z975 (Grid GridValues : Type)
  np_mgrid griddata_nearest plt_contour plt_contourf x y z zvalue fig s :
  state_of (uncertainty_slice z975 Grid GridValues np_mgrid griddata_nearest
              plt_contour plt_contourf x y z zvalue fig s) = s.
Proof.
  assert (H : preserves (eq s)
                (uncertainty_slice z975 Grid GridValues np_mgrid
                   griddata_nearest plt_contour plt_contourf
                   x y z zvalue fig)).
  { unfold uncertainty_slice.
    repeat (frame_step
            || match goal with
               | |- preserves _ (match ?p with pair _ _ => _ end) =>
                   destruct p as [[? ?] ?]
               end). }
  symmetry. exact (H s eq_refl).
Qed.

(** C7.  On a store whose misfit sequence is aligned with the rupture
    list, for every slice request (x, y, z, zvalue) there is a list of
    entries (x, y, misfit) such that: no (x, y) pair occurs twice; an entry
    is in the list exactly when some candidate whose z-parameter equals
    zvalue has that (x, y) pair and that misfit, and no candidate with
    that z-value and that pair has a smaller misfit; and, whenever some
    candidate has that z-value, the method returns the three parallel
    lists of these entries whatever the grid, the interpolation and the
    plotting backend are. *)
Theorem uncertainty_slice_least_misfit_per_pair
  (s : RuptureGmf) (r : list R) (x y z : Param) (zvalue : R) :
  rmse s = Some r ->
  length (rupture_list s) = length r ->
  exists E : list (R * R * R),
    NoDup (map entry_key E) /\
    (forall a b m,
       In (a, b, m) E <->
       (exists c rup, selected s z zvalue c rup /\
                      param_value x rup = a /\ param_value y rup = b /\
                      nth_error r c = Some m) /\
       (forall c rup v, selected s z zvalue c rup ->
                        param_value x rup = a -> param_value y rup = b ->
                        nth_error r c = Some v -> m <= v)) /\
    ((exists c rup, selected s z zvalue c rup) ->
     forall z975 (Grid GridValues : Type) np_mgrid griddata_nearest
            plt_contour plt_contourf fig,
       outcome_of (uncertainty_slice z975 Grid GridValues np_mgrid
                     griddata_nearest plt_contour plt_contourf
                     x y z zvalue fig s)
       = Ok (map entry_x E, map entry_y E, map entry_rmse E)).
Proof.
  intros Hr Hal.
  destruct (uncertainty_slice_entries s r x y z zvalue Hr Hal)
    as (E & Hnd & Hin & Hok & _).
  exists E. split; [exact Hnd|]. split; [exact Hin|].
  intros Hex z975 Grid GridValues np_mgrid griddata_nearest plt_contour
    plt_contourf fig.
  apply runs_ok_outcome, Hok, Hex.
Qed.

(** C10.  On a store whose misfit sequence is aligned with the rupture
    list, a slice request for which some candidate's z-parameter equals
    zvalue returns three lists and leaves the object, every attribute of
    it, as it was, whatever the plotting backend does and whether or not
    [sigma] and [uncert_fun] exist. *)
Theorem uncertainty_slice_returns_and_keeps_state
  (z975 : R) (Grid GridValues : Type)
  (np_mgrid : R * R * R -> R * R * R -> Grid)
  (griddata_nearest : list R -> list R -> list R -> Grid -> GridValues)
  (plt_contour : Grid -> GridValues -> list (option R) -> bool)
  (plt_contourf : Grid -> GridValues -> R -> R -> bool)
  (s : RuptureGmf) (r : list R) (x y z : Param) (zvalue : R)
  (fig : option string) :
  rmse s = Some r ->
  length (rupture_list s) = length r ->
  (exists c rup, selected s z zvalue c rup) ->
  exists xs ys rmse_list,
    outcome_of (uncertainty_slice z975 Grid GridValues np_mgrid
                  griddata_nearest plt_contour plt_contourf
                  x y z zvalue fig s)
    = Ok (xs, ys, rmse_list) /\
    state_of (uncertainty_slice z975 Grid GridValues np_mgrid
                griddata_nearest plt_contour plt_contourf
                x y z zvalue fig s)
    = s.
Proof.
  intros Hr Hal Hex.
  destruct (uncertainty_slice_entries s r x y z zvalue Hr Hal)
    as (E & _ & _ & Hok & _).
  exists (map entry_x E), (map entry_y E), (map entry_rmse E).
  split; [|apply uncertainty_slice_readonly].
  apply runs_ok_outcome, Hok, Hex.
Qed.

Lemma scenario_A_no_magnitude_9 c rup : ~ selected scenario_A Pmag 9 c rup.
Proof.
  intros [Hc Hz]. rewrite scenario_A_state in Hc. simpl in Hc.
  destruct c as [|[|[|c]]]; simpl in Hc;
    try (injection Hc as <-; simpl in Hz; lra).
  destruct c; discriminate.
Qed.

(** C8 on the code: in scenario A no candidate has magnitude 9, and the
    slice at magnitude 9 raises [ValueError] instead of returning empty
    lists, for every plotting backend. *)
Theorem uncertainty_slice_without_match_raises
  (z975 : R) (Grid GridValues : Type)
  (np_mgrid : R * R * R -> R * R * R -> Grid)
  (griddata_nearest : list R -> list R -> list R -> Grid -> GridValues)
  (plt_contour : Grid -> GridValues -> list (option R) -> bool)
  (plt_contourf : Grid -> GridValues -> R -> R -> bool)
  (fig : option string) :
  (forall c rup, ~ selected scenario_A Pmag 9 c rup) /\
  outcome_of (uncertainty_slice z975 Grid GridValues np_mgrid
                griddata_nearest plt_contour plt_contourf
                Plongitude Platitude Pmag 9 fig scenario_A)
  = Raise ValueError.
Proof.
  split; [exact scenario_A_no_magnitude_9|].
  destruct (uncertainty_slice_entries scenario_A [0; 1; 1]
              Plongitude Platitude Pmag 9)
    as (E & _ & _ & _ & Hraise);
    try (now rewrite scenario_A_state).
  destruct (Hraise scenario_A_no_magnitude_9) as [_ H].
  apply runs_raise_outcome, H.
Qed.

(** ** The theorems at concrete stores *)

(** C5 in scenario A. *)
Lemma find_best_fit_first_minimum_witness :
  ([0; 1; 1] = [] -> find_best_fit scenario_A = (Raise ValueError, scenario_A, [])) /\
  ([0; 1; 1] <> [] ->
   exists index m rup,
     np_argmin [0; 1; 1] = Some index /\
     nth_error [0; 1; 1] index = Some m /\
     nth_error (rupture_list scenario_A) index = Some rup /\
     (forall j v, nth_error [0; 1; 1] j = Some v -> m <= v) /\
     (forall j v, (j < index)%nat -> nth_error [0; 1; 1] j = Some v -> m < v) /\
     outcome_of (find_best_fit scenario_A) = Ok tt /\
     best_rupture (state_of (find_best_fit scenario_A)) = Some rup /\
     min_rmse (state_of (find_best_fit scenario_A)) = Some m).
Proof.
  apply (find_best_fit_first_minimum scenario_A [0; 1; 1]).
  - rewrite scenario_A_state. reflexivity.
  - rewrite scenario_A_state. reflexivity.
Defined.

Lemma scenario_A_magnitude_7 : selected scenario_A Pmag 7 0 rup_a.
Proof. split; [rewrite scenario_A_state|]; reflexivity. Qed.

(** C7 in scenario A: longitude against depth at magnitude 7. *)
Lemma uncertainty_slice_least_misfit_per_pair_witness :
  exists E : list (R * R * R),
    NoDup (map entry_key E) /\
    (forall a b m,
       In (a, b, m) E <->
       (exists c rup, selected scenario_A Pmag 7 c rup /\
                      param_value Plongitude rup = a /\
                      param_value Pdepth rup = b /\
                      nth_error [0; 1; 1] c = Some m) /\
       (forall c rup v, selected scenario_A Pmag 7 c rup ->
                        param_value Plongitude rup = a ->
                        param_value Pdepth rup = b ->
                        nth_error [0; 1; 1] c = Some v -> m <= v)) /\
    ((exists c rup, selected scenario_A Pmag 7 c rup) ->
     forall z975 (Grid GridValues : Type) np_mgrid griddata_nearest
            plt_contour plt_contourf fig,
       outcome_of (uncertainty_slice z975 Grid GridValues np_mgrid
                     griddata_nearest plt_contour plt_contourf
                     Plongitude Pdepth Pmag 7 fig scenario_A)
       = Ok (map entry_x E, map entry_y E, map entry_rmse E)).
Proof.
  apply (uncertainty_slice_least_misfit_per_pair scenario_A [0; 1; 1]
           Plongitude Pdepth Pmag 7).
  - rewrite scenario_A_state. reflexivity.
  - rewrite scenario_A_state. reflexivity.
Defined.

(** C10 in scenario A, with a backend whose [contour] and [contourf]
    both raise [ValueError]. *)
Lemma uncertainty_slice_returns_and_keeps_state_witness :
  exists xs ys rmse_list,
    outcome_of (uncertainty_slice z975_approx unit unit
                  (fun _ _ => tt) (fun _ _ _ _ => tt)
                  (fun _ _ _ => false) (fun _ _ _ _ => false)
                  Plongitude Pdepth Pmag 7 None scenario_A)
    = Ok (xs, ys, rmse_list) /\
    state_of (uncertainty_slice z975_approx unit unit
                (fun _ _ => tt) (fun _ _ _ _ => tt)
                (fun _ _ _ => false) (fun _ _ _ _ => false)
                Plongitude Pdepth Pmag 7 None scenario_A)
    = scenario_A.
Proof.
  apply (uncertainty_slice_returns_and_keeps_state z975_approx unit unit
           (fun _ _ => tt) (fun _ _ _ _ => tt)
           (fun _ _ _ => false) (fun _ _ _ _ => false)
           scenario_A [0; 1; 1] Plongitude Pdepth Pmag 7 None).
  - rewrite scenario_A_state. reflexivity.
  - rewrite scenario_A_state. reflexivity.
  - exists 0%nat, rup_a. exact scenario_A_magnitude_7.
Defined.

(** * Further properties of the module *)

(** ** Misfit evaluator: shapes that do not match *)

Lemma np_sub_mismatch (a b : list R) :
  length a <> length b -> length a <> 1%nat -> length b <> 1%nat ->
  np_sub a b = None.
Proof.
  intros Hab Ha Hb. unfold np_sub.
  destruct (length a =? length b)%nat eqn:E;
    [apply Nat.eqb_eq in E; contradiction|].
  destruct a as [|x [|x' a]], b as [|y [|y' b]]; simpl in *;
    try reflexivity; congruence.
Qed.

(** The loop of [calc_sum_squares_mmi] up to the first field that cannot
    be subtracted: the sums of the fields before it stay appended. *)
Lemma sum_squares_loop_raises obs good bad rest acc s :
  Forall (fun mmi => length mmi = length obs) good ->
  np_sub bad obs = None ->
  for_each (good ++ bad :: rest) (fun mmi =>
    d <- lift ValueError (np_sub mmi obs) ;;
    ssl <- getattr sum_squares_list ;;
    assign (set_sum_squares_list (ssl ++ [np_sum (np_square d)])))
    (set_sum_squares_list acc s)
  = (Raise ValueError,
     set_sum_squares_list
       (acc ++ map (fun mmi => np_sum (np_square (zip_sub mmi obs))) good) s,
     []).
Proof.
  intros H Hbad. revert acc.
  induction H as [|mmi good Hlen _ IH]; intros acc.
  - simpl. unfold bind at 1. unfold bind at 1. rewrite Hbad. simpl.
    now rewrite app_nil_r.
  - simpl. unfold bind at 1. unfold bind at 1.
    rewrite (np_sub_same_length _ _ Hlen). simpl.
    change (set_sum_squares_list ?v (set_sum_squares_list acc s))
      with (set_sum_squares_list v s).
    rewrite IH. rewrite <- app_assoc. reflexivity.
Qed.

Lemma calc_rmse_raises_run s obs good bad rest :
  sum_squares_list s = None ->
  mmi_list s = good ++ bad :: rest ->
  Forall (fun mmi => length mmi = length obs) good ->
  np_sub bad obs = None ->
  calc_rmse obs None s
  = (Raise ValueError,
     set_sum_squares_list
       (map (fun mmi => np_sum (np_square (zip_sub mmi obs))) good)
       (set_mmi_obs obs s),
     []).
Proof.
  intros Hnone Hm Hgood Hbad.
  unfold calc_rmse, calc_sum_squares_mmi.
  unfold bind at 1. simpl.
  unfold try_except. unfold bind at 1. unfold getattr at 1. simpl.
  rewrite Hnone. simpl.
  unfold bind at 1. simpl.
  unfold bind at 1. unfold bind at 1. simpl.
  unfold bind at 1. simpl.
  change (mkRuptureGmf (rupture_list s) (mmi_list s) (Some [])
            (Some obs) (rmse s) (best_rupture s) (min_rmse s) (sigma s)
            (uncert_fun s) (fitted_ruptures s) (fitted_lists s) (ranges s))
    with (set_sum_squares_list [] (set_mmi_obs obs s)).
  rewrite Hm.
  rewrite (sum_squares_loop_raises obs good bad rest []
             (set_mmi_obs obs s) Hgood Hbad).
  reflexivity.
Qed.

(** X1.  On a store without sums of squares, if the fields before some
    field have the observations' length and that field has another length
    (neither it nor the observation vector being of length one),
    [calc_rmse] raises [ValueError]; the observations and the sums of
    squares of the fields before it stay stored, and [rmse] is not
    assigned. *)
Theorem calc_rmse_shape_mismatch_raises
  (s : RuptureGmf) (obs : list R) (good : list (list R)) (bad : list R)
  (rest : list (list R)) :
  sum_squares_list s = None ->
  mmi_list s = good ++ bad :: rest ->
  Forall (fun mmi => length mmi = length obs) good ->
  length bad <> length obs ->
  length bad <> 1%nat ->
  length obs <> 1%nat ->
  outcome_of (calc_rmse obs None s) = Raise ValueError /\
  mmi_obs (state_of (calc_rmse obs None s)) = Some obs /\
  sum_squares_list (state_of (calc_rmse obs None s))
  = Some (map (fun mmi =>
                 sum_over (length obs)
                   (fun i => (site mmi i - site obs i) ^ 2)) good) /\
  rmse (state_of (calc_rmse obs None s)) = rmse s.
Proof.
  intros Hnone Hm Hgood H1 H2 H3.
  rewrite (calc_rmse_raises_run s obs good bad rest Hnone Hm Hgood
             (np_sub_mismatch bad obs H1 H2 H3)).
  unfold outcome_of, state_of. cbn [fst snd].
  repeat split.
  cbn [sum_squares_list set_sum_squares_list]. f_equal.
  apply map_ext_in. intros mmi Hin. rewrite Forall_forall in Hgood.
  now apply sum_squares_site, Hgood.
Qed.

(** A store with three-site observations whose second field has two
    sites. *)
Lemma calc_rmse_shape_mismatch_raises_witness :
  outcome_of (calc_rmse [5; 5; 5] None
                (new_RuptureGmf [] [[6; 6; 6]; [4; 4]; [5; 5; 5]]))
  = Raise ValueError.
Proof.
  refine (proj1 (calc_rmse_shape_mismatch_raises
                   (new_RuptureGmf [] [[6; 6; 6]; [4; 4]; [5; 5; 5]])
                   [5; 5; 5] [[6; 6; 6]] [4; 4] [[5; 5; 5]] _ _ _ _ _ _));
    try reflexivity; try (repeat constructor); simpl; lia.
Defined.

Lemma keeps_of_preserves P {A} (m : M A) :
  preserves P m -> keeps_unless_ok P m.
Proof. intros H s Hs. right. now apply H. Qed.

Lemma keeps_assign P f : keeps_unless_ok P (assign f).
Proof. intros s _. left. now exists tt. Qed.

Lemma keeps_bind P {A B} (m : M A) (k : A -> M B) :
  preserves P m -> (forall a, keeps_unless_ok P (k a)) ->
  keeps_unless_ok P (bind m k).
Proof.
  intros Hm Hk s Hs. specialize (Hm s Hs).
  unfold bind, state_of, outcome_of in *.
  destruct (m s) as [[[a|e] s1] o1]; cbn [fst snd] in *; [|now right].
  destruct (Hk a s1 Hm) as [[b Hb]|Hp]; unfold state_of, outcome_of in *;
    destruct (k a s1) as [[r s2] o2]; cbn [fst snd] in *;
    [left; now exists b | now right].
Qed.

Lemma keeps_try_except P {A} (m : M A) e (h : M A) :
  preserves P m -> keeps_unless_ok P h ->
  keeps_unless_ok P (try_except m e h).
Proof.
  intros Hm Hh s Hs. specialize (Hm s Hs).
  unfold try_except, state_of, outcome_of in *.
  destruct (m s) as [[[a|e'] s1] o1]; cbn [fst snd] in *;
    [left; now exists a|].
  destruct (Hh s1 Hm) as [[b Hb]|Hp]; unfold state_of, outcome_of in *;
    destruct (h s1) as [[r s2] o2]; cbn [fst snd] in *;
    destruct e, e'; cbn [fst snd]; auto; left; now exists b.
Qed.

Lemma calc_sum_squares_mmi_keeps_rmse obs v :
  preserves (fun s => rmse s = v) (calc_sum_squares_mmi obs).
Proof.
  unfold calc_sum_squares_mmi.
  repeat (frame_step || (apply preserves_assign; intros; auto)).
Qed.

Lemma calc_sum_squares_mmi_weighted_keeps_rmse obs w v :
  preserves (fun s => rmse s = v) (calc_sum_squares_mmi_weighted obs w).
Proof.
  unfold calc_sum_squares_mmi_weighted.
  repeat (frame_step || (apply preserves_assign; intros; auto)).
Qed.

(** [calc_rmse] assigns [rmse] in its last statement only: a call that
    raises leaves [rmse] as it was. *)
Lemma calc_rmse_keeps_rmse obs w v :
  keeps_unless_ok (fun s => rmse s = v) (calc_rmse obs w).
Proof.
  unfold calc_rmse.
  apply keeps_bind; [apply preserves_assign; auto | intros _].
  apply keeps_try_except; [repeat frame_step|].
  destruct w as [w|].
  - apply keeps_bind; [auto with frame | intros o].
    apply keeps_bind;
      [apply calc_sum_squares_mmi_weighted_keeps_rmse | intros _].
    apply keeps_bind; [auto with frame | intros ssl].
    apply keeps_assign.
  - apply keeps_bind; [auto with frame | intros o].
    apply keeps_bind; [apply calc_sum_squares_mmi_keeps_rmse | intros _].
    apply keeps_bind; [auto with frame | intros ssl].
    apply keeps_bind; [auto with frame | intros o'].
    apply keeps_assign.
Qed.

(** X2.  After a [calc_rmse] that raised on a store without misfit, the
    store stays unusable: every later [calc_rmse], with any observations
    and weights, returns normally without computing anything, [rmse] stays
    unassigned, and [find_best_fit] raises [AttributeError]. *)
Theorem calc_rmse_failure_is_permanent
  (s : RuptureGmf) (obs obs' : list R) (w w' : option (list R)) :
  rmse s = None ->
  outcome_of (calc_rmse obs w s) <> Ok tt ->
  let s1 := state_of (calc_rmse obs w s) in
  rmse s1 = None /\
  outcome_of (calc_rmse obs' w' s1) = Ok tt /\
  rmse (state_of (calc_rmse obs' w' s1)) = None /\
  outcome_of (find_best_fit (state_of (calc_rmse obs' w' s1)))
  = Raise AttributeError.
Proof.
  intros Hr Hfail s1.
  assert (H1 : rmse s1 = None).
  { destruct (calc_rmse_keeps_rmse obs w None s Hr) as [[[] Ha]|Hp];
      [contradiction | exact Hp]. }
  rewrite (calc_rmse_cached_run obs' w' s1 (calc_rmse_has_sums obs w s)).
  unfold outcome_of, state_of. cbn [fst snd].
  repeat split; try assumption.
  unfold find_best_fit, bind, getattr.
  change (rmse (set_mmi_obs obs' s1)) with (rmse s1). now rewrite H1.
Qed.

(** The store of the witness of X1, called again with observations that
    would fit. *)
Lemma calc_rmse_failure_is_permanent_witness :
  outcome_of (find_best_fit
                (state_of (calc_rmse [4; 4] None
                   (state_of (calc_rmse [5; 5; 5] None
                      (new_RuptureGmf [] [[6; 6; 6]; [4; 4]; [5; 5; 5]]))))))
  = Raise AttributeError.
Proof.
  refine (proj2 (proj2 (proj2
    (calc_rmse_failure_is_permanent
       (new_RuptureGmf [] [[6; 6; 6]; [4; 4]; [5; 5; 5]])
       [5; 5; 5] [4; 4] None None _ _)))).
  - reflexivity.
  - rewrite (calc_rmse_raises_run _ [5; 5; 5] [[6; 6; 6]] [4; 4]
               [[5; 5; 5]]); try reflexivity; [discriminate|].
    repeat constructor.
Defined.

(** ** Misfit evaluator: repeated calls, exact fits, weights *)

Lemma set_mmi_obs_same obs s : mmi_obs s = Some obs -> set_mmi_obs obs s = s.
Proof. destruct s. simpl. now intros ->. Qed.

Lemma calc_rmse_stores_obs obs w :
  establishes (fun s => mmi_obs s = Some obs) (calc_rmse obs w).
Proof.
  unfold calc_rmse. apply establishes_bind; [intros s; reflexivity|].
  intros _. apply preserves_try_except; [repeat frame_step|].
  destruct w as [w|].
  - unfold calc_sum_squares_mmi_weighted.
    repeat (frame_step || (apply preserves_assign; intros; auto)).
  - unfold calc_sum_squares_mmi.
    repeat (frame_step || (apply preserves_assign; intros; auto)).
Qed.

(** X3.  [calc_rmse] called again with the same observations, with or
    without weights, returns normally, prints nothing and leaves the
    object exactly as the first call left it. *)
Theorem calc_rmse_twice_same_observations
  (s : RuptureGmf) (obs : list R) (w w' : option (list R)) :
  calc_rmse obs w' (state_of (calc_rmse obs w s))
  = (Ok tt, state_of (calc_rmse obs w s), []).
Proof.
  rewrite (calc_rmse_cached_run obs w' _ (calc_rmse_has_sums obs w s)).
  now rewrite (set_mmi_obs_same obs _ (calc_rmse_stores_obs obs w s)).
Qed.

Lemma sum_over_nonneg n f :
  (forall i, (i < n)%nat -> 0 <= f i) -> 0 <= sum_over n f.
Proof.
  induction n as [|n IH]; intros H; simpl; [lra|].
  assert (0 <= sum_over n f) by (apply IH; intros; apply H; lia).
  assert (0 <= f n) by (apply H; lia). lra.
Qed.

Lemma sum_over_zero n f :
  (forall i, (i < n)%nat -> 0 <= f i) ->
  sum_over n f = 0 -> forall i, (i < n)%nat -> f i = 0.
Proof.
  induction n as [|n IH]; intros H E i Hi; [lia|]. simpl in E.
  assert (0 <= sum_over n f)
    by (apply sum_over_nonneg; intros; apply H; lia).
  assert (0 <= f n) by (apply H; lia).
  destruct (Nat.eq_dec i n) as [->|Hne]; [lra|].
  apply IH; try lia; [intros; apply H; lia | lra].
Qed.

(** The root-mean-square error is not negative, and it is zero exactly
    for the field that equals the observations. *)
Lemma rmse_spec_zero mmi obs :
  length mmi = length obs -> obs <> [] ->
  0 <= rmse_spec mmi obs /\ (rmse_spec mmi obs = 0 <-> mmi = obs).
Proof.
  intros Hlen Hne. unfold rmse_spec. cbv zeta.
  set (f := fun i => (site mmi i - site obs i) ^ 2).
  assert (Hf : forall i, (i < length obs)%nat -> 0 <= f i).
  { intros i _. unfold f. apply pow2_ge_0. }
  assert (HN : 0 < INR (length obs)).
  { apply lt_0_INR. destruct obs; [congruence | simpl; lia]. }
  assert (Hq : 0 <= sum_over (length obs) f / INR (length obs)).
  { apply Rmult_le_pos; [now apply sum_over_nonneg|].
    left. now apply Rinv_0_lt_compat. }
  split; [apply sqrt_pos|]. split.
  - intros E. apply sqrt_eq_0 in E; [|exact Hq].
    assert (Hs : sum_over (length obs) f = 0).
    { apply Rmult_integral in E. destruct E as [E|E]; [exact E|].
      apply Rinv_neq_0_compat in E; [contradiction | lra]. }
    apply (nth_ext mmi obs 0 0 Hlen). intros i Hi. rewrite Hlen in Hi.
    pose proof (sum_over_zero _ f Hf Hs i Hi) as Hz. unfold f in Hz.
    fold (site mmi i) (site obs i).
    assert (H0 : (site mmi i - site obs i) * (site mmi i - site obs i) = 0)
      by (simpl in Hz; lra).
    apply Rmult_integral in H0. lra.
  - intros ->.
    rewrite (sum_over_ext _ f (fun _ => 0)).
    + rewrite sum_over_const. unfold Rdiv. rewrite Rmult_0_r, Rmult_0_l.
      apply sqrt_0.
    + intros i _. unfold f. simpl. ring.
Qed.

(** X4.  In unweighted mode, on a store without sums of squares whose
    fields have the length of a non-empty observation vector, every
    misfit is non-negative, and the misfit of a candidate is zero exactly
    when its field equals the observations site by site. *)
Theorem calc_rmse_zero_iff_exact_fit
  (s : RuptureGmf) (obs : list R) (i : nat) (mmi : list R) :
  sum_squares_list s = None ->
  Forall (fun mmi => length mmi = length obs) (mmi_list s) ->
  obs <> [] ->
  nth_error (mmi_list s) i = Some mmi ->
  exists r v,
    rmse (state_of (calc_rmse obs None s)) = Some r /\
    nth_error r i = Some v /\
    0 <= v /\
    (v = 0 <-> mmi = obs).
Proof.
  intros Hnone Hlen Hne Hi.
  exists (map (fun mmi => rmse_spec mmi obs) (mmi_list s)),
         (rmse_spec mmi obs).
  split; [now apply calc_rmse_unweighted_rmse|].
  split; [now rewrite nth_error_map, Hi|].
  apply rmse_spec_zero; [|exact Hne].
  rewrite Forall_forall in Hlen. apply Hlen.
  eapply nth_error_In; eauto.
Qed.

(** Scenario A: the first candidate is the exact fit. *)
Lemma calc_rmse_zero_iff_exact_fit_witness :
  exists r v,
    rmse (state_of (calc_rmse [5; 5; 5] None scenario_A_fresh)) = Some r /\
    nth_error r 0 = Some v /\
    0 <= v /\
    (v = 0 <-> [5; 5; 5] = [5; 5; 5]).
Proof.
  apply (calc_rmse_zero_iff_exact_fit scenario_A_fresh [5; 5; 5] 0%nat
           [5; 5; 5]).
  - reflexivity.
  - repeat constructor.
  - discriminate.
  - reflexivity.
Defined.

Lemma py_sum_scaled c (w : list R) : py_sum (map (Rmult c) w) = c * py_sum w.
Proof.
  rewrite !py_sum_sum_over, length_map.
  rewrite (sum_over_ext _ _ (fun i => site w i * c)).
  - rewrite sum_over_scale. ring.
  - intros i _. unfold site. revert i.
    induction w as [|a w IH]; intros [|i]; simpl; try lra. apply IH.
Qed.

Lemma normalise_scaled c (w : list R) :
  c <> 0 -> py_sum w <> 0 -> normalise (map (Rmult c) w) = normalise w.
Proof.
  intros Hc Hs. unfold normalise. rewrite py_sum_scaled, map_map.
  apply map_ext. intros a. now field.
Qed.

(** X5.  In weighted mode only the proportions of the weights matter:
    multiplying every weight by the same nonzero number leaves the call,
    the sums of squares and the misfits as they are. *)
Theorem calc_rmse_weights_scale_invariant
  (s : RuptureGmf) (obs w : list R) (c : R) :
  sum_squares_list s = None ->
  py_sum w <> 0 ->
  c <> 0 ->
  length w = length obs ->
  Forall (fun mmi => length mmi = length obs) (mmi_list s) ->
  calc_rmse obs (Some (map (Rmult c) w)) s = calc_rmse obs (Some w) s.
Proof.
  intros Hnone Hs Hc Hw Hlen.
  rewrite (calc_rmse_weighted_run s obs w Hnone Hs Hw Hlen).
  rewrite (calc_rmse_weighted_run s obs (map (Rmult c) w) Hnone).
  - now rewrite (normalise_scaled c w Hc Hs).
  - rewrite py_sum_scaled. now apply Rmult_integral_contrapositive.
  - now rewrite length_map.
  - exact Hlen.
Qed.

(** Weights [2; 6] against weights [1; 3]. *)
Lemma calc_rmse_weights_scale_invariant_witness :
  calc_rmse [5; 5] (Some (map (Rmult 2) [1; 3]))
    (new_RuptureGmf [] [[7; 5]; [5; 5]])
  = calc_rmse [5; 5] (Some [1; 3]) (new_RuptureGmf [] [[7; 5]; [5; 5]]).
Proof.
  apply (calc_rmse_weights_scale_invariant
           (new_RuptureGmf [] [[7; 5]; [5; 5]]) [5; 5] [1; 3] 2).
  - reflexivity.
  - unfold py_sum. simpl. lra.
  - lra.
  - reflexivity.
  - repeat constructor.
Defined.

(** ** Misfit evaluator: one-site fields *)

Lemma sum_squares_loop_general obs (h : list R -> list R) mmis acc s :
  Forall (fun mmi => np_sub mmi obs = Some (h mmi)) mmis ->
  for_each mmis (fun mmi =>
    d <- lift ValueError (np_sub mmi obs) ;;
    ssl <- getattr sum_squares_list ;;
    assign (set_sum_squares_list (ssl ++ [np_sum (np_square d)])))
    (set_sum_squares_list acc s)
  = (Ok tt,
     set_sum_squares_list
       (acc ++ map (fun mmi => np_sum (np_square (h mmi))) mmis) s,
     []).
Proof.
  intros H. revert acc.
  induction H as [|mmi mmis Hsub _ IH]; intros acc.
  - simpl. unfold ret. now rewrite app_nil_r.
  - simpl. unfold bind at 1. unfold bind at 1.
    rewrite Hsub. simpl.
    change (set_sum_squares_list ?v (set_sum_squares_list acc s))
      with (set_sum_squares_list v s).
    rewrite IH. rewrite <- app_assoc. reflexivity.
Qed.

Lemma calc_rmse_general_run s obs (h : list R -> list R) :
  sum_squares_list s = None ->
  Forall (fun mmi => np_sub mmi obs = Some (h mmi)) (mmi_list s) ->
  calc_rmse obs None s
  = (Ok tt,
     set_rmse
       (np_sqrt (map (fun v => v / INR (length obs))
                   (map (fun mmi => np_sum (np_square (h mmi)))
                      (mmi_list s))))
       (set_sum_squares_list
          (map (fun mmi => np_sum (np_square (h mmi))) (mmi_list s))
          (set_mmi_obs obs s)),
     []).
Proof.
  intros Hnone Hsub.
  unfold calc_rmse, calc_sum_squares_mmi.
  unfold bind at 1. simpl.
  unfold try_except. unfold bind at 1. unfold getattr at 1. simpl.
  rewrite Hnone. simpl.
  unfold bind at 1. simpl.
  unfold bind at 1. unfold bind at 1. simpl.
  unfold bind at 1. simpl.
  change (mkRuptureGmf (rupture_list s) (mmi_list s) (Some [])
            (Some obs) (rmse s) (best_rupture s) (min_rmse s) (sigma s)
            (uncert_fun s) (fitted_ruptures s) (fitted_lists s) (ranges s))
    with (set_sum_squares_list [] (set_mmi_obs obs s)).
  rewrite (sum_squares_loop_general obs h (mmi_list s) []
             (set_mmi_obs obs s) Hsub).
  reflexivity.
Qed.

(** The difference that numpy forms for a field of the observations'
    length or of length one. *)
Lemma np_sub_broadcast mmi obs :
  length mmi = length obs \/ length mmi = 1%nat ->
  exists d,
    np_sub mmi obs = Some d /\
    length d = length obs /\
    forall i, (i < length obs)%nat ->
              site d i = site_or_only mmi i - site obs i.
Proof.
  intros [Hlen|H1].
  - exists (zip_sub mmi obs). rewrite (np_sub_same_length _ _ Hlen).
    split; [reflexivity|]. split; [now apply zip_sub_length|].
    intros i Hi. rewrite (zip_sub_site _ _ _ Hlen).
    destruct mmi as [|x [|x' mmi]]; try reflexivity.
    simpl in Hlen. rewrite <- Hlen in Hi. simpl in Hi.
    now replace i with 0%nat by lia.
  - destruct mmi as [|x [|x' mmi]]; try discriminate.
    destruct (Nat.eq_dec (length obs) 1) as [E|E].
    + exists (zip_sub [x] obs).
      rewrite np_sub_same_length by (simpl; lia).
      split; [reflexivity|]. split; [apply zip_sub_length; simpl; lia|].
      intros i Hi. rewrite zip_sub_site by (simpl; lia).
      simpl. now replace i with 0%nat by lia.
    + exists (map (fun y => x - y) obs).
      split.
      * unfold np_sub.
        destruct (length [x] =? length obs)%nat eqn:Eq;
          [apply Nat.eqb_eq in Eq; simpl in Eq; lia|].
        destruct obs as [|y [|y' obs]]; reflexivity.
      * split; [apply length_map|].
        intros i Hi. unfold site. simpl.
        rewrite (nth_indep _ 0 (x - 0))
          by (now rewrite length_map).
        now rewrite (map_nth (fun y => x - y)).
Qed.

(** X6.  A field with a single value is not rejected: on a store without
    sums of squares in which every field has the observations' length N
    or length one, [calc_rmse] without weights returns normally, and the
    misfit of a candidate is sqrt((sum over the N sites of
    (predicted - observed)^2) / N), where a one-site field predicts its
    single value at every site. *)
Theorem calc_rmse_broadcasts_one_site_fields
  (s : RuptureGmf) (obs : list R) :
  sum_squares_list s = None ->
  Forall (fun mmi => length mmi = length obs \/ length mmi = 1%nat)
    (mmi_list s) ->
  outcome_of (calc_rmse obs None s) = Ok tt /\
  rmse (state_of (calc_rmse obs None s))
  = Some (map (fun mmi =>
                 sqrt (sum_over (length obs)
                         (fun i => (site_or_only mmi i - site obs i) ^ 2)
                       / INR (length obs)))
            (mmi_list s)).
Proof.
  intros Hnone Hshape.
  set (h := fun mmi => match np_sub mmi obs with
                       | Some d => d
                       | None => []
                       end).
  assert (Hsub : Forall (fun mmi => np_sub mmi obs = Some (h mmi))
                   (mmi_list s)).
  { apply Forall_forall. intros mmi Hin. rewrite Forall_forall in Hshape.
    destruct (np_sub_broadcast mmi obs (Hshape mmi Hin)) as (d & Hd & _).
    unfold h. now rewrite Hd. }
  rewrite (calc_rmse_general_run s obs h Hnone Hsub).
  split; [reflexivity|].
  unfold state_of, np_sqrt. cbn [fst snd rmse set_rmse]. f_equal.
  rewrite !map_map. apply map_ext_in. intros mmi Hin.
  rewrite Forall_forall in Hshape.
  destruct (np_sub_broadcast mmi obs (Hshape mmi Hin)) as (d & Hd & Hl & Hs).
  unfold h. rewrite Hd. do 2 f_equal.
  rewrite np_sum_sum_over, np_square_length, Hl.
  apply sum_over_ext. intros i Hi.
  now rewrite np_square_site, Hs.
Qed.

(** A one-site field [6] beside a three-site field. *)
Lemma calc_rmse_broadcasts_one_site_fields_witness :
  outcome_of (calc_rmse [5; 5; 5] None
                (new_RuptureGmf [] [[6]; [4; 4; 4]])) = Ok tt.
Proof.
  refine (proj1 (calc_rmse_broadcasts_one_site_fields
                   (new_RuptureGmf [] [[6]; [4; 4; 4]]) [5; 5; 5] _ _)).
  - reflexivity.
  - constructor; [right; reflexivity|].
    constructor; [left; reflexivity | constructor].
Defined.

(** ** Best-fit selector: what it assigns and how it fails *)

Lemma np_argmin_in_range r index :
  np_argmin r = Some index -> exists m, nth_error r index = Some m.
Proof.
  intros Ha. assert (Hne : r <> []) by (intros ->; discriminate).
  destruct (np_argmin_spec r Hne) as (i' & m & Ha' & Hm & _).
  exists m. congruence.
Qed.

(** X7.  [find_best_fit] prints nothing and assigns no attribute other
    than [best_rupture] and [min_rmse]; when it raises it assigns nothing
    at all.  It raises [AttributeError] while no misfit is computed,
    [ValueError] on an empty misfit sequence, and [IndexError] when the
    rupture list is too short to hold the position of the least
    misfit. *)
Theorem find_best_fit_frame_and_errors (s : RuptureGmf) :
  same_but_best_fit s (state_of (find_best_fit s)) /\
  output_of (find_best_fit s) = [] /\
  (outcome_of (find_best_fit s) <> Ok tt -> state_of (find_best_fit s) = s) /\
  (rmse s = None -> outcome_of (find_best_fit s) = Raise AttributeError) /\
  (rmse s = Some [] -> outcome_of (find_best_fit s) = Raise ValueError) /\
  (forall r index,
     rmse s = Some r -> np_argmin r = Some index ->
     (length (rupture_list s) <= index)%nat ->
     outcome_of (find_best_fit s) = Raise IndexError).
Proof.
  assert (Hsame : same_but_best_fit s s) by (repeat split).
  destruct (rmse s) as [r|] eqn:Hr.
  2:{ assert (Hrun : find_best_fit s = (Raise AttributeError, s, [])).
      { unfold find_best_fit. unfold bind at 1, getattr at 1.
        now rewrite Hr. }
      rewrite Hrun. unfold state_of, outcome_of, output_of. cbn [fst snd].
      repeat split; try discriminate; intros; congruence. }
  destruct (np_argmin r) as [index|] eqn:Ha.
  2:{ assert (r = []) by (destruct r; [reflexivity | discriminate]).
      subst r.
      assert (Hrun : find_best_fit s = (Raise ValueError, s, [])).
      { unfold find_best_fit. unfold bind at 1, getattr at 1.
        now rewrite Hr. }
      rewrite Hrun. unfold state_of, outcome_of, output_of. cbn [fst snd].
      repeat split; try discriminate; intros; congruence. }
  destruct (np_argmin_in_range r index Ha) as [m Hm].
  destruct (nth_error (rupture_list s) index) as [rup|] eqn:Hrup.
  - rewrite (find_best_fit_run s r index m rup Hr Ha Hrup Hm).
    unfold state_of, outcome_of, output_of. cbn [fst snd].
    split; [repeat split|].
    split; [reflexivity|].
    split; [intros H; now contradiction H|].
    split; [discriminate|].
    split; [intros E; inversion E; subst; discriminate|].
    intros r' index' E Ha' Hle. inversion E; subst r'.
    rewrite Ha in Ha'. inversion Ha'; subst index'.
    apply nth_error_None in Hle. congruence.
  - assert (Hrun : find_best_fit s = (Raise IndexError, s, [])).
    { unfold find_best_fit. unfold bind at 1, getattr at 1. rewrite Hr.
      unfold bind at 1. rewrite Ha. unfold lift at 1, ret at 1.
      unfold bind at 1, getfield at 1.
      unfold bind at 1. now rewrite Hrup. }
    rewrite Hrun. unfold state_of, outcome_of, output_of. cbn [fst snd].
    split; [exact Hsame|].
    split; [reflexivity|].
    split; [reflexivity|].
    split; [discriminate|].
    split; [intros E; inversion E; subst; discriminate|].
    reflexivity.
Qed.

(** ** Uncertainty estimator: whenever it returns *)

(** The loop that collects the fitted ruptures raises [IndexError] at the
    first position outside the rupture list. *)
Lemma fitted_loop_raises s indices : forall acc,
  take_at (rupture_list s) indices = None ->
  exists part,
    for_each indices (fun index =>
      rl <- getfield rupture_list ;;
      rup <- lift IndexError (nth_error rl index) ;;
      fr <- getattr fitted_ruptures ;;
      assign (set_fitted_ruptures (fr ++ [rup])))
      (set_fitted_ruptures acc s)
    = (Raise IndexError, set_fitted_ruptures part s, []).
Proof.
  induction indices as [|i indices IH]; intros acc H; simpl in H;
    [discriminate|].
  change (for_each (i :: indices) ?b)
    with (bind (b i) (fun _ => for_each indices b)).
  unfold bind at 1. unfold bind at 1, getfield at 1.
  change (rupture_list (set_fitted_ruptures acc s)) with (rupture_list s).
  unfold bind at 1.
  destruct (nth_error (rupture_list s) i) as [rup|] eqn:Ei.
  - unfold lift at 1, ret at 1.
    unfold bind at 1, getattr at 1. simpl fitted_ruptures.
    cbv iota beta. unfold assign at 1.
    change (set_fitted_ruptures ?v (set_fitted_ruptures acc s))
      with (set_fitted_ruptures v s).
    destruct (take_at (rupture_list s) indices) as [vs|] eqn:Et;
      [discriminate|].
    destruct (IH (acc ++ [rup]) eq_refl) as [part Hp].
    exists part. now rewrite Hp.
  - exists acc. reflexivity.
Qed.

Lemma fit_ruptures_ok_inv indices s :
  outcome_of (fit_ruptures indices s) = Ok tt ->
  exists r mx fr rg,
    rmse s = Some r /\
    py_max r = Some mx /\
    take_at (rupture_list s) indices = Some fr /\
    ranges_of (fitted_lists_of fr) = Some rg /\
    state_of (fit_ruptures indices s)
    = set_ranges rg
        (set_fitted_lists (fitted_lists_of fr) (set_fitted_ruptures fr s)).
Proof.
  intros Hok.
  destruct (rmse s) as [r|] eqn:Hr.
  2:{ exfalso. revert Hok. unfold fit_ruptures.
      unfold bind at 1, getattr at 1. rewrite Hr. discriminate. }
  destruct (py_max r) as [mx|] eqn:Hmx.
  2:{ exfalso. revert Hok. unfold fit_ruptures.
      unfold bind at 1, getattr at 1. rewrite Hr.
      unfold bind at 1. rewrite Hmx. discriminate. }
  destruct (take_at (rupture_list s) indices) as [fr|] eqn:Ht.
  - rewrite (fit_ruptures_run s indices r mx fr Hr Hmx Ht) in Hok |- *.
    destruct (ranges_of (fitted_lists_of fr)) as [rg|] eqn:Hrg;
      [|discriminate].
    exists r, mx, fr, rg. repeat split; auto.
  - exfalso. revert Hok. unfold fit_ruptures.
    unfold bind at 1, getattr at 1. rewrite Hr.
    unfold bind at 1. rewrite Hmx. unfold lift at 1, ret at 1.
    unfold bind at 1, print at 1.
    unfold bind at 1, assign at 1.
    destruct (fitted_loop_raises s indices [] Ht) as [part Hp].
    rewrite (bind_raise _ _ _ _ _ _ Hp). discriminate.
Qed.

Lemma accepted_indices_ok_inv z975 s idx s1 out :
  accepted_indices z975 s = (Ok idx, s1, out) ->
  exists obs r,
    mmi_obs s = Some obs /\
    rmse s = Some r /\
    ((length obs <= 6)%nat /\
     idx = np_where (fun v => Rltb v 1e24) r /\ s1 = s
     \/
     (6 < length obs)%nat /\
     exists m,
       py_min r = Some m /\
       idx = np_where
               (fun v => lt_float v
                  (ppf975 z975 (m, (1 / INR (length obs - 6)) * m ^ 2))) r /\
       s1 = set_uncert_fun (m, (1 / INR (length obs - 6)) * m ^ 2)
              (set_sigma ((1 / INR (length obs - 6)) * m ^ 2) s)).
Proof.
  intros H.
  destruct (mmi_obs s) as [obs|] eqn:Hobs.
  2:{ exfalso. revert H. unfold accepted_indices.
      unfold bind at 1, getattr at 1. rewrite Hobs. discriminate. }
  destruct (rmse s) as [r|] eqn:Hr.
  2:{ exfalso. revert H. unfold accepted_indices.
      unfold bind at 1, getattr at 1. rewrite Hobs.
      destruct (length obs <=? 6)%nat.
      - unfold bind at 1, print at 1.
        unfold bind at 1, getattr at 1. rewrite Hr. discriminate.
      - unfold bind at 1, getattr at 1. rewrite Hr. discriminate. }
  exists obs, r. split; [reflexivity|]. split; [reflexivity|].
  destruct (Nat.le_gt_cases (length obs) 6) as [Hle|Hgt].
  - left. rewrite (accepted_indices_small z975 s obs r Hobs Hle Hr) in H.
    inversion H. auto.
  - right. split; [exact Hgt|].
    destruct (py_min r) as [m|] eqn:Hm.
    + rewrite (accepted_indices_large z975 s obs r m Hobs Hgt Hr Hm) in H.
      exists m. inversion H. auto.
    + exfalso. revert H. unfold accepted_indices.
      unfold bind at 1, getattr at 1. rewrite Hobs.
      assert (Hleb : (length obs <=? 6)%nat = false)
        by (now apply Nat.leb_gt).
      rewrite Hleb.
      unfold bind at 1, getattr at 1. rewrite Hr.
      unfold bind at 1. rewrite Hm. discriminate.
Qed.

(** What a call of [uncertainty_model] that returns has done. *)
Lemma uncertainty_model_ok_inv z975 s :
  outcome_of (uncertainty_model z975 s) = Ok tt ->
  exists idx s1 fr rg,
    (exists out, accepted_indices z975 s = (Ok idx, s1, out)) /\
    rupture_list s1 = rupture_list s /\
    rmse s1 = rmse s /\
    mmi_obs s1 = mmi_obs s /\
    take_at (rupture_list s) idx = Some fr /\
    fr <> [] /\
    ranges_of (fitted_lists_of fr) = Some rg /\
    state_of (uncertainty_model z975 s)
    = set_ranges rg
        (set_fitted_lists (fitted_lists_of fr) (set_fitted_ruptures fr s1)).
Proof.
  intros Hok. unfold uncertainty_model in *.
  destruct (accepted_indices z975 s) as [[[idx|e] s1] out] eqn:Ha.
  2:{ rewrite (bind_raise _ _ _ _ _ _ Ha) in Hok. discriminate. }
  rewrite (bind_run _ _ _ _ _ _ Ha) in *.
  rewrite outcome_of_wrap in Hok. rewrite state_of_wrap.
  destruct (fit_ruptures_ok_inv idx s1 Hok)
    as (r & mx & fr & rg & Hr & Hmx & Ht & Hrg & Hst).
  assert (Hs1 : rupture_list s1 = rupture_list s /\ rmse s1 = rmse s /\
                mmi_obs s1 = mmi_obs s).
  { destruct (accepted_indices_ok_inv z975 s idx s1 out Ha)
      as (obs & r0 & _ & _ & [(_ & _ & ->)|(_ & m & _ & _ & ->)]);
      repeat split. }
  destruct Hs1 as (H1 & H2 & H3).
  exists idx, s1, fr, rg.
  split; [now exists out|].
  rewrite <- H1. repeat split; try assumption.
  intros ->. discriminate.
Qed.

Lemma fold_max_spec l : forall x,
  let m := fold_left (fun m v => if Rlt_dec m v then v else m) l x in
  In m (x :: l) /\ forall v, In v (x :: l) -> v <= m.
Proof.
  induction l as [|y l IH]; intros x; simpl.
  - split; [now left|]. intros v [<-|[]]. lra.
  - destruct (Rlt_dec x y) as [H|H].
    + destruct (IH y) as [Hin Hle]. simpl in Hin, Hle. split.
      * destruct Hin as [E|Hin]; [right; left; exact E | right; right; exact Hin].
      * intros v [<-|[<-|Hv]].
        -- specialize (Hle y (or_introl eq_refl)). lra.
        -- apply Hle. now left.
        -- apply Hle. now right.
    + destruct (IH x) as [Hin Hle]. simpl in Hin, Hle. split.
      * destruct Hin as [E|Hin]; [left; exact E | right; right; exact Hin].
      * intros v [<-|[<-|Hv]].
        -- apply Hle. now left.
        -- specialize (Hle x (or_introl eq_refl)). lra.
        -- apply Hle. now right.
Qed.

Lemma py_max_spec l m :
  py_max l = Some m -> In m l /\ forall v, In v l -> v <= m.
Proof.
  destruct l as [|x l]; simpl; [discriminate|].
  intros H. injection H as <-. apply fold_max_spec.
Qed.

(** The bounds that [ranges_of] computes are the [min] and the [max] of
    the values of each parameter. *)
Lemma ranges_of_param fr rg p :
  ranges_of (fitted_lists_of fr) = Some rg ->
  py_min (map (param_value p) fr) = Some (range_min p rg) /\
  py_max (map (param_value p) fr) = Some (range_max p rg).
Proof.
  destruct fr as [|rup fr]; [discriminate|].
  unfold ranges_of, fitted_lists_of.
  cbn [obind py_min py_max map fitted_mags fitted_lons fitted_lats
       fitted_depths fitted_strikes fitted_dips].
  intros H. injection H as <-.
  destruct p; split; reflexivity.
Qed.

(** X8.  Whenever [uncertainty_model] returns, there is at least one
    fitted rupture, every fitted rupture is a rupture of the store, and
    for each of the six parameters the reported minimum and maximum bound
    the parameter of every fitted rupture and are each attained by a
    fitted rupture. *)
Theorem uncertainty_model_ranges_bound_fitted (z975 : R) (s : RuptureGmf) :
  outcome_of (uncertainty_model z975 s) = Ok tt ->
  exists fr rg,
    fitted_ruptures (state_of (uncertainty_model z975 s)) = Some fr /\
    ranges (state_of (uncertainty_model z975 s)) = Some rg /\
    fr <> [] /\
    (forall rup, In rup fr -> In rup (rupture_list s)) /\
    forall p : Param,
      (forall rup, In rup fr ->
                   range_min p rg <= param_value p rup <= range_max p rg) /\
      (exists lo, In lo fr /\ param_value p lo = range_min p rg) /\
      (exists hi, In hi fr /\ param_value p hi = range_max p rg).
Proof.
  intros Hok.
  destruct (uncertainty_model_ok_inv z975 s Hok)
    as (idx & s1 & fr & rg & _ & _ & _ & _ & Ht & Hne & Hrg & Hst).
  exists fr, rg. rewrite Hst.
  split; [reflexivity|]. split; [reflexivity|]. split; [exact Hne|].
  split.
  { intros rup Hin. apply (take_at_In _ _ _ rup Ht) in Hin.
    destruct Hin as (c & _ & Hc). eapply nth_error_In; eauto. }
  intros p. destruct (ranges_of_param fr rg p Hrg) as [Hmin Hmax].
  destruct (py_min_spec _ _ Hmin) as [Hin1 Hle1].
  destruct (py_max_spec _ _ Hmax) as [Hin2 Hle2].
  split; [|split].
  - intros rup Hin. split.
    + apply Hle1. now apply in_map.
    + apply Hle2. now apply in_map.
  - apply in_map_iff in Hin1. destruct Hin1 as (lo & E & Hlo). now exists lo.
  - apply in_map_iff in Hin2. destruct Hin2 as (hi & E & Hhi). now exists hi.
Qed.

(** X8 in scenario A. *)
Lemma uncertainty_model_ranges_bound_fitted_witness :
  exists fr rg,
    fitted_ruptures (state_of (uncertainty_model z975_approx scenario_A))
    = Some fr /\
    ranges (state_of (uncertainty_model z975_approx scenario_A)) = Some rg /\
    fr <> [] /\
    (forall rup, In rup fr -> In rup (rupture_list scenario_A)) /\
    forall p : Param,
      (forall rup, In rup fr ->
                   range_min p rg <= param_value p rup <= range_max p rg) /\
      (exists lo, In lo fr /\ param_value p lo = range_min p rg) /\
      (exists hi, In hi fr /\ param_value p hi = range_max p rg).
Proof.
  apply (uncertainty_model_ranges_bound_fitted z975_approx scenario_A).
  apply scenario_A_uncertainty.
Defined.

(** ** Uncertainty estimator: repeated calls and the best fit *)

Lemma uncertainty_model_run z975 s r idx s1 out1 mx fr rg :
  accepted_indices z975 s = (Ok idx, s1, out1) ->
  rmse s1 = Some r ->
  py_max r = Some mx ->
  take_at (rupture_list s1) idx = Some fr ->
  ranges_of (fitted_lists_of fr) = Some rg ->
  uncertainty_model z975 s
  = (Ok tt,
     set_ranges rg
       (set_fitted_lists (fitted_lists_of fr) (set_fitted_ruptures fr s1)),
     out1 ++
     [PrintLine [Str "max rmse"; Num mx];
      PrintLine [Str "strikes";
                 Arr (np_unique (fitted_strikes (fitted_lists_of fr)))];
      PrintLine [Str "dips";
                 Arr (np_unique (fitted_dips (fitted_lists_of fr)))]]).
Proof.
  intros Ha Hr Hmx Ht Hrg. unfold uncertainty_model.
  rewrite (bind_run _ _ _ _ _ _ Ha).
  now rewrite (fit_ruptures_run s1 idx r mx fr Hr Hmx Ht), Hrg.
Qed.

Lemma np_where_nil_inv {A} (cond : A -> bool) (l : list A) :
  np_where cond l <> [] -> l <> [].
Proof. intros H ->. now apply H. Qed.

(** X9.  [uncertainty_model] is idempotent: when a call returns, a second
    call on the object it leaves returns too, prints the same lines and
    leaves the object unchanged. *)
Theorem uncertainty_model_idempotent (z975 : R) (s : RuptureGmf) :
  outcome_of (uncertainty_model z975 s) = Ok tt ->
  uncertainty_model z975 (state_of (uncertainty_model z975 s))
  = (Ok tt, state_of (uncertainty_model z975 s),
     output_of (uncertainty_model z975 s)).
Proof.
  intros Hok.
  destruct (uncertainty_model_ok_inv z975 s Hok)
    as (idx & s1 & fr & rg & [out Ha] & Hrl & Hr1 & Hobs1 & Ht & Hne & Hrg
        & Hst).
  destruct (accepted_indices_ok_inv z975 s idx s1 out Ha)
    as (obs & r & Hobs & Hr & Hbranch).
  assert (Hidx : idx <> []).
  { intros ->. simpl in Ht. injection Ht as <-. now apply Hne. }
  assert (Hrne : r <> []).
  { destruct Hbranch as [(_ & E & _)|(_ & m & _ & E & _)];
      rewrite E in Hidx; exact (np_where_nil_inv _ _ Hidx). }
  destruct (py_max_some r Hrne) as [mx Hmx].
  rewrite <- Hrl in Ht. rewrite <- Hr1 in Hr.
  rewrite (uncertainty_model_run z975 s r idx s1 out mx fr rg
             Ha Hr Hmx Ht Hrg).
  unfold state_of, output_of. cbn [fst snd].
  destruct Hbranch as [(Hle & Eidx & Es)|(Hgt & m & Hm & Eidx & Es)].
  - subst s1.
    rewrite (accepted_indices_small z975 s obs r Hobs Hle Hr) in Ha.
    inversion Ha as [[Hidx' Hout]].
    set (s2 := set_ranges rg
                 (set_fitted_lists (fitted_lists_of fr)
                    (set_fitted_ruptures fr s))).
    pose proof (accepted_indices_small z975 s2 obs r Hobs Hle Hr) as Ha2.
    rewrite <- Eidx in Ha2.
    rewrite (uncertainty_model_run z975 s2 r idx s2 _ mx fr rg
               Ha2 Hr Hmx Ht Hrg).
    reflexivity.
  - assert (Hr' : rmse s = Some r) by (now rewrite <- Hr1).
    rewrite (accepted_indices_large z975 s obs r m Hobs Hgt Hr' Hm) in Ha.
    cbv zeta in Ha. rewrite <- Eidx in Ha.
    assert (Hout : out = [PrintLine [Num ((1 / INR (length obs - 6)) * m ^ 2)];
                          PrintLine [item_of_float
                            (ppf975 z975
                               (m, (1 / INR (length obs - 6)) * m ^ 2))]])
      by (inversion Ha; reflexivity).
    clear Ha. subst s1 out.
    set (sg := (1 / INR (length obs - 6)) * m ^ 2) in *.
    set (s2 := set_ranges rg
                 (set_fitted_lists (fitted_lists_of fr)
                    (set_fitted_ruptures fr
                       (set_uncert_fun (m, sg) (set_sigma sg s))))).
    pose proof (accepted_indices_large z975 s2 obs r m Hobs Hgt Hr' Hm)
      as Ha2.
    cbv zeta in Ha2. fold sg in Ha2. rewrite <- Eidx in Ha2.
    rewrite (uncertainty_model_run z975 s2 r idx _ _ mx fr rg
               Ha2 Hr' Hmx Ht Hrg).
    reflexivity.
Qed.

(** X9 in scenario A. *)
Lemma uncertainty_model_idempotent_witness :
  uncertainty_model z975_approx
    (state_of (uncertainty_model z975_approx scenario_A))
  = (Ok tt, state_of (uncertainty_model z975_approx scenario_A),
     output_of (uncertainty_model z975_approx scenario_A)).
Proof.
  apply (uncertainty_model_idempotent z975_approx scenario_A).
  apply scenario_A_uncertainty.
Defined.

(** X10.  [find_best_fit] and [uncertainty_model] agree and commute: on a
    store with observations and an aligned misfit sequence whose least
    misfit is neither zero nor above the sentinel, both orders of the
    two calls leave the same object; in it [min_rmse] is the least misfit,
    the best rupture is one of the fitted ruptures, and with more than six
    observations the normal distribution is centred at [min_rmse]. *)
Theorem best_rupture_is_fitted
  (z975 : R) (s : RuptureGmf) (obs r : list R) (m : R) :
  0 < z975 ->
  mmi_obs s = Some obs ->
  rmse s = Some r ->
  length (rupture_list s) = length r ->
  py_min r = Some m ->
  m <> 0 ->
  m < 1e24 ->
  let s2 := state_of (uncertainty_model z975 (state_of (find_best_fit s))) in
  exists rup fr,
    best_rupture s2 = Some rup /\
    min_rmse s2 = Some m /\
    fitted_ruptures s2 = Some fr /\
    In rup fr /\
    ((6 < length obs)%nat ->
     uncert_fun s2 = Some (m, m ^ 2 / INR (length obs - 6))) /\
    state_of (find_best_fit (state_of (uncertainty_model z975 s))) = s2.
Proof.
  intros Hz Hobs Hr Hal Hm Hm0 Hsent s2.
  assert (Hne : r <> []) by (intros ->; discriminate).
  destruct (np_argmin_spec r Hne) as (index & v & Ha & Hv & _ & _).
  assert (v = m) by (eapply argmin_is_min; eauto). subst v.
  assert (Hi : (index < length (rupture_list s))%nat).
  { rewrite Hal. apply nth_error_Some. congruence. }
  destruct (nth_error (rupture_list s) index) as [rup|] eqn:Hrup;
    [|apply nth_error_Some in Hi; contradiction].
  pose proof (find_best_fit_run s r index m rup Hr Ha Hrup Hv) as Hfb.
  set (s1 := set_min_rmse m (set_best_rupture rup s)) in *.
  destruct (py_max_some r Hne) as [mx Hmx].
  assert (Hcommon : forall idx sa sa' out,
    accepted_indices z975 s = (Ok idx, sa, out) ->
    accepted_indices z975 s1 = (Ok idx, sa', out) ->
    rupture_list sa = rupture_list s -> rmse sa = Some r ->
    rupture_list sa' = rupture_list s -> rmse sa' = Some r ->
    best_rupture sa' = Some rup -> min_rmse sa' = Some m ->
    (forall rg fr,
       set_min_rmse m (set_best_rupture rup
         (set_ranges rg (set_fitted_lists (fitted_lists_of fr)
                           (set_fitted_ruptures fr sa))))
       = set_ranges rg (set_fitted_lists (fitted_lists_of fr)
                          (set_fitted_ruptures fr sa'))) ->
    In index idx ->
    Forall (fun q => (q < length r)%nat) idx ->
    exists fr,
      best_rupture s2 = Some rup /\ min_rmse s2 = Some m /\
      fitted_ruptures s2 = Some fr /\ In rup fr /\
      uncert_fun s2 = uncert_fun sa' /\
      state_of (find_best_fit (state_of (uncertainty_model z975 s))) = s2).
  { intros idx sa sa' out Hacc Hacc' Hrl Hra Hrl' Hra' Hb Hmin Hsw Hin Hrange.
    destruct (take_at_in_range (rupture_list s) idx) as [fr Hfr];
      [now rewrite Hal|].
    assert (Hfrne : fr <> []).
    { intros E. rewrite (take_at_nil _ _ _ Hfr E) in Hin. exact Hin. }
    destruct (ranges_of_some fr Hfrne) as [rg Hrg].
    assert (Ht : take_at (rupture_list sa) idx = Some fr)
      by (now rewrite Hrl).
    assert (Ht' : take_at (rupture_list sa') idx = Some fr)
      by (now rewrite Hrl').
    pose proof (uncertainty_model_run z975 s1 r idx sa' out mx fr rg
                  Hacc' Hra' Hmx Ht' Hrg) as E1.
    pose proof (uncertainty_model_run z975 s r idx sa out mx fr rg
                  Hacc Hra Hmx Ht Hrg) as E2.
    assert (E3 : find_best_fit
                   (set_ranges rg
                      (set_fitted_lists (fitted_lists_of fr)
                         (set_fitted_ruptures fr sa)))
                 = (Ok tt,
                    set_min_rmse m
                      (set_best_rupture rup
                         (set_ranges rg
                            (set_fitted_lists (fitted_lists_of fr)
                               (set_fitted_ruptures fr sa)))), [])).
    { apply (find_best_fit_run _ r index m rup); try assumption.
      cbn [rupture_list set_ranges set_fitted_lists set_fitted_ruptures].
      now rewrite Hrl. }
    exists fr. subst s2. rewrite Hfb. cbn [state_of fst snd].
    rewrite E1, E2. cbn [state_of fst snd]. rewrite E3.
    cbn [state_of fst snd].
    split; [exact Hb|]. split; [exact Hmin|]. split; [reflexivity|].
    split; [apply (take_at_In _ _ _ rup Hfr); now exists index|].
    split; [reflexivity | apply Hsw]. }
  destruct (Nat.le_gt_cases (length obs) 6) as [Hle|Hgt].
  - destruct (Hcommon (np_where (fun v => Rltb v 1e24) r) s s1 _
                (accepted_indices_small z975 s obs r Hobs Hle Hr)
                (accepted_indices_small z975 s1 obs r Hobs Hle Hr))
      as (fr & H1 & H2 & H3 & H4 & _ & H6);
      try reflexivity; try assumption.
    + apply np_where_spec. exists m. split; [exact Hv|].
      now apply Rltb_true.
    + apply np_where_in_range.
    + exists rup, fr. repeat split; try assumption. intros Hgt. lia.
  - set (sg := (1 / INR (length obs - 6)) * m ^ 2).
    assert (Hsg : sg = m ^ 2 / INR (length obs - 6))
      by (unfold sg, Rdiv; ring).
    assert (Hpos : 0 < sg) by (rewrite Hsg; now apply scale_positive).
    pose proof (accepted_indices_large z975 s obs r m Hobs Hgt Hr Hm) as A1.
    pose proof (accepted_indices_large z975 s1 obs r m Hobs Hgt Hr Hm) as A2.
    cbv zeta in A1, A2. fold sg in A1, A2.
    destruct (Hcommon _ _ _ _ A1 A2)
      as (fr & H1 & H2 & H3 & H4 & H5 & H6);
      try reflexivity; try assumption.
    + apply np_where_spec. exists m. split; [exact Hv|].
      rewrite (ppf975_positive_scale z975 m sg Hpos). simpl.
      apply Rltb_true.
      assert (0 < sg * z975) by now apply Rmult_lt_0_compat. lra.
    + apply np_where_in_range.
    + exists rup, fr. repeat split; try assumption.
      intros _. rewrite H5. simpl. now rewrite Hsg.
Qed.

(** X10 in scenario B. *)
Lemma best_rupture_is_fitted_witness :
  exists rup fr,
    best_rupture
      (state_of (uncertainty_model z975_approx
                   (state_of (find_best_fit scenario_B)))) = Some rup /\
    min_rmse
      (state_of (uncertainty_model z975_approx
                   (state_of (find_best_fit scenario_B)))) = Some 0.2 /\
    fitted_ruptures
      (state_of (uncertainty_model z975_approx
                   (state_of (find_best_fit scenario_B)))) = Some fr /\
    In rup fr /\
    ((6 < length obs7)%nat ->
     uncert_fun
       (state_of (uncertainty_model z975_approx
                    (state_of (find_best_fit scenario_B))))
     = Some (0.2, 0.2 ^ 2 / INR (length obs7 - 6))) /\
    state_of (find_best_fit
                (state_of (uncertainty_model z975_approx scenario_B)))
    = state_of (uncertainty_model z975_approx
                  (state_of (find_best_fit scenario_B))).
Proof.
  apply (best_rupture_is_fitted z975_approx scenario_B obs7 [0.2; 1; 1] 0.2).
  - unfold z975_approx. lra.
  - now rewrite scenario_B_state.
  - now rewrite scenario_B_state.
  - now rewrite scenario_B_state.
  - exact py_min_scenario_B.
  - lra.
  - lra.
Defined.

(** ** Parameter slice: errors, and the slice through the best fit *)

(** X11.  Without a misfit sequence [uncertainty_slice] raises
    [AttributeError] for every request and every backend, before it
    prints or plots anything, and leaves the object as it was. *)
Theorem uncertainty_slice_needs_misfit
  (z975 : R) (Grid GridValues : Type)
  (np_mgrid : R * R * R -> R * R * R -> Grid)
  (griddata_nearest : list R -> list R -> list R -> Grid -> GridValues)
  (plt_contour : Grid -> GridValues -> list (option R) -> bool)
  (plt_contourf : Grid -> GridValues -> R -> R -> bool)
  (s : RuptureGmf) (x y z : Param) (zvalue : R) (fig : option string) :
  rmse s = None ->
  uncertainty_slice z975 Grid GridValues np_mgrid griddata_nearest
    plt_contour plt_contourf x y z zvalue fig s
  = (Raise AttributeError, s, []).
Proof.
  intros Hr.
  destruct (take_at_in_range _ _ (indices_in_range s z zvalue))
    as [sel Hsel].
  unfold uncertainty_slice.
  unfold bind at 1, getfield at 1. cbv zeta.
  rewrite !parameter_row.
  unfold bind at 1. rewrite (take_at_map (param_value x) _ _ _ Hsel).
  unfold lift at 1, ret at 1.
  unfold bind at 1. rewrite (take_at_map (param_value y) _ _ _ Hsel).
  unfold lift at 1, ret at 1.
  unfold bind at 1, getattr at 1. rewrite Hr. reflexivity.
Qed.

(** X11 on the store of scenario A before [calc_rmse]. *)
Lemma uncertainty_slice_needs_misfit_witness :
  uncertainty_slice z975_approx unit unit
    (fun _ _ => tt) (fun _ _ _ _ => tt)
    (fun _ _ _ => true) (fun _ _ _ _ => true)
    Plongitude Platitude Pmag 7 None scenario_A_fresh
  = (Raise AttributeError, scenario_A_fresh, []).
Proof.
  apply (uncertainty_slice_needs_misfit z975_approx unit unit
           (fun _ _ => tt) (fun _ _ _ _ => tt)
           (fun _ _ _ => true) (fun _ _ _ _ => true)
           scenario_A_fresh Plongitude Platitude Pmag 7 None).
  reflexivity.
Defined.

(** X12.  The slice through the best fit shows it: on a store with a
    non-empty misfit sequence aligned with the rupture list, after
    [find_best_fit] a slice at the best rupture's own value of the sliced
    parameter returns, for every pair of axes and every backend, lists in
    which the best rupture's (x, y) pair carries [min_rmse], and no
    returned misfit is below [min_rmse]. *)
Theorem uncertainty_slice_through_best_fit
  (s : RuptureGmf) (r : list R) (x y z : Param) :
  rmse s = Some r ->
  r <> [] ->
  length (rupture_list s) = length r ->
  exists rup m xs ys rmse_list,
    best_rupture (state_of (find_best_fit s)) = Some rup /\
    min_rmse (state_of (find_best_fit s)) = Some m /\
    (forall z975 (Grid GridValues : Type) np_mgrid griddata_nearest
            plt_contour plt_contourf fig,
       outcome_of (uncertainty_slice z975 Grid GridValues np_mgrid
                     griddata_nearest plt_contour plt_contourf
                     x y z (param_value z rup) fig
                     (state_of (find_best_fit s)))
       = Ok (xs, ys, rmse_list)) /\
    (exists i,
       nth_error xs i = Some (param_value x rup) /\
       nth_error ys i = Some (param_value y rup) /\
       nth_error rmse_list i = Some m) /\
    (forall v, In v rmse_list -> m <= v).
Proof.
  intros Hr Hne Hal.
  destruct (np_argmin_spec r Hne) as (index & m & Ha & Hm & Hle & _).
  assert (Hi : (index < length (rupture_list s))%nat).
  { rewrite Hal. apply nth_error_Some. congruence. }
  destruct (nth_error (rupture_list s) index) as [rup|] eqn:Hrup;
    [|apply nth_error_Some in Hi; contradiction].
  rewrite (find_best_fit_run s r index m rup Hr Ha Hrup Hm).
  cbn [state_of fst snd].
  set (s1 := set_min_rmse m (set_best_rupture rup s)).
  destruct (uncertainty_slice_entries s1 r x y z (param_value z rup) Hr Hal)
    as (E & _ & Hin & Hok & _).
  assert (Hsel : selected s1 z (param_value z rup) index rup)
    by (split; [exact Hrup | reflexivity]).
  exists rup, m, (map entry_x E), (map entry_y E), (map entry_rmse E).
  split; [reflexivity|]. split; [reflexivity|].
  split.
  { intros z975 Grid GridValues np_mgrid griddata_nearest plt_contour
      plt_contourf fig.
    apply runs_ok_outcome, Hok. now exists index, rup. }
  split.
  - assert (HinE : In (param_value x rup, param_value y rup, m) E).
    { apply Hin. split.
      - exists index, rup. repeat split; auto.
      - intros c rup' v _ _ _ Hv. now apply (Hle c). }
    destruct (In_nth_error _ _ HinE) as [i Hi'].
    exists i. rewrite !nth_error_map, Hi'. now repeat split.
  - intros v Hv. apply in_map_iff in Hv. destruct Hv as ([[a b] v'] & E' & Ht).
    simpl in E'. subst v'.
    apply Hin in Ht. destruct Ht as [(c & rup' & _ & _ & _ & Hc) _].
    now apply (Hle c).
Qed.

(** X12 in scenario A. *)
Lemma uncertainty_slice_through_best_fit_witness :
  exists rup m xs ys rmse_list,
    best_rupture (state_of (find_best_fit scenario_A)) = Some rup /\
    min_rmse (state_of (find_best_fit scenario_A)) = Some m /\
    (forall z975 (Grid GridValues : Type) np_mgrid griddata_nearest
            plt_contour plt_contourf fig,
       outcome_of (uncertainty_slice z975 Grid GridValues np_mgrid
                     griddata_nearest plt_contour plt_contourf
                     Plongitude Platitude Pdepth
                     (param_value Pdepth rup) fig
                     (state_of (find_best_fit scenario_A)))
       = Ok (xs, ys, rmse_list)) /\
    (exists i,
       nth_error xs i = Some (param_value Plongitude rup) /\
       nth_error ys i = Some (param_value Platitude rup) /\
       nth_error rmse_list i = Some m) /\
    (forall v, In v rmse_list -> m <= v).
Proof.
  apply (uncertainty_slice_through_best_fit scenario_A [0; 1; 1]
           Plongitude Platitude Pdepth).
  - now rewrite scenario_A_state.
  - discriminate.
  - now rewrite scenario_A_state.
Defined.

(** ** Parameter slice: what it prints and saves *)

Section SliceEffects.

Variable z975 : R.
Variable Grid : Type.
Variable GridValues : Type.
Variable np_mgrid : R * R * R -> R * R * R -> Grid.
Variable griddata_nearest : list R -> list R -> list R -> Grid -> GridValues.
Variable plt_contour : Grid -> GridValues -> list (option R) -> bool.
Variable plt_contourf : Grid -> GridValues -> R -> R -> bool.

Lemma contour_block_run s grid rmse_grid :
  exists out_c,
    try_except
      (try_except
         (sg <- getattr sigma ;;
          uf <- getattr uncert_fun ;;
          if plt_contour grid rmse_grid [Some sg; ppf975 z975 uf]
          then ret tt else raise ValueError)
         AttributeError (ret tt))
      ValueError (print only_one) s
    = (Ok tt, s, out_c) /\
    (out_c = [] \/ out_c = [PrintLine only_one]) /\
    (sigma s = None \/ uncert_fun s = None -> out_c = []).
Proof.
  unfold try_except, bind, getattr.
  destruct (sigma s) as [sg|] eqn:E1.
  2:{ exists []. split; [reflexivity|]. split; [now left | reflexivity]. }
  destruct (uncert_fun s) as [uf|] eqn:E2.
  2:{ exists []. split; [reflexivity|]. split; [now left | reflexivity]. }
  destruct (plt_contour grid rmse_grid [Some sg; ppf975 z975 uf]).
  - exists []. split; [reflexivity|]. split; [now left | reflexivity].
  - exists [PrintLine only_one]. split; [reflexivity|].
    split; [now right|]. intros [H|H]; discriminate.
Qed.

Lemma contourf_block_run s r vmax vmin grid rmse_grid fig z zvalue x y :
  rmse s = Some r ->
  py_max r = Some vmax ->
  py_min r = Some vmin ->
  try_except
    (r' <- getattr rmse ;;
     vmax <- lift ValueError (py_max r') ;;
     vmin <- lift ValueError (py_min r') ;;
     (if plt_contourf grid rmse_grid vmax vmin
      then ret tt else raise ValueError) ;;
     emit (SaveFig fig z zvalue x y))
    ValueError (print only_one) s
  = (Ok tt, s,
     if plt_contourf grid rmse_grid vmax vmin
     then [SaveFig fig z zvalue x y] else [PrintLine only_one]).
Proof.
  intros Hr Hmax Hmin. unfold try_except.
  unfold bind at 1, getattr at 1. rewrite Hr.
  unfold bind at 1. rewrite Hmax. unfold lift at 1, ret at 1.
  unfold bind at 1. rewrite Hmin. unfold lift at 1, ret at 1.
  unfold bind at 1.
  destruct (plt_contourf grid rmse_grid vmax vmin); reflexivity.
Qed.

Lemma uncertainty_slice_effects s r x y z zvalue fig sel rs :
  rmse s = Some r ->
  take_at (rupture_list s)
    (np_where (fun v => Reqb v zvalue)
       (map (param_value z) (rupture_list s))) = Some sel ->
  take_at r
    (np_where (fun v => Reqb v zvalue)
       (map (param_value z) (rupture_list s))) = Some rs ->
  sel <> [] ->
  exists xs ys rmse_list out_c grid rmse_grid vmax vmin,
    py_max r = Some vmax /\
    py_min r = Some vmin /\
    uncertainty_slice z975 Grid GridValues np_mgrid griddata_nearest
      plt_contour plt_contourf x y z zvalue fig s
    = (Ok (xs, ys, rmse_list), s,
       [PrintLine [Str "rmse_subset"; Arr rmse_list]; PltClf] ++ out_c ++
       (if plt_contourf grid rmse_grid vmax vmin
        then [SaveFig fig z zvalue x y] else [PrintLine only_one])) /\
    (out_c = [] \/ out_c = [PrintLine only_one]) /\
    (sigma s = None \/ uncert_fun s = None -> out_c = []).
Proof.
  intros Hr Hsel Hrs Hne.
  set (xv := map (param_value x) sel). set (yv := map (param_value y) sel).
  assert (Hlen : (length xv <= length rs)%nat).
  { unfold xv. rewrite length_map.
    destruct (take_at_spec _ _ _ Hsel) as [-> _].
    destruct (take_at_spec _ _ _ Hrs) as [-> _]. lia. }
  assert (Hxv : xv <> []) by (unfold xv; now destruct sel).
  assert (Hyv : yv <> []) by (unfold yv; now destruct sel).
  assert (Hrne : r <> []).
  { intros ->. destruct (take_at_spec _ _ _ Hsel) as [Hl _].
    destruct (np_where _ _) as [|c idx]; [destruct sel; [congruence|discriminate]|].
    simpl in Hrs. now destruct c. }
  destruct (py_min_some xv Hxv) as [x0 Hx0].
  destruct (py_max_some xv Hxv) as [x1 Hx1].
  destruct (py_min_some yv Hyv) as [y0 Hy0].
  destruct (py_max_some yv Hyv) as [y1 Hy1].
  destruct (py_max_some r Hrne) as [vmax Hmax].
  destruct (py_min_some r Hrne) as [vmin Hmin].
  set (E := slice_entries xv yv rs (np_unique xv)).
  set (grid := np_mgrid (x0, x1, 0.02) (y0, y1, 0.01)).
  set (rmse_grid := griddata_nearest (map entry_x E) (map entry_y E)
                      (map entry_rmse E) grid).
  destruct (contour_block_run s grid rmse_grid) as (out_c & Hc & Hc1 & Hc2).
  exists (map entry_x E), (map entry_y E), (map entry_rmse E), out_c,
         grid, rmse_grid, vmax, vmin.
  split; [exact Hmax|]. split; [exact Hmin|].
  split; [|split; assumption].
  unfold uncertainty_slice.
  unfold bind at 1, getfield at 1. cbv zeta.
  rewrite !parameter_row.
  unfold bind at 1. rewrite (take_at_map (param_value x) _ _ _ Hsel).
  unfold lift at 1, ret at 1. fold xv.
  unfold bind at 1. rewrite (take_at_map (param_value y) _ _ _ Hsel).
  unfold lift at 1, ret at 1. fold yv.
  unfold bind at 1, getattr at 1. rewrite Hr.
  unfold bind at 1. rewrite Hrs. unfold lift at 1, ret at 1.
  unfold bind at 1. rewrite (slice_outer_run xv yv rs Hlen).
  unfold lift_outcome at 1, ret at 1.
  cbn [append_entries app]. fold E.
  unfold bind at 1, print at 1.
  unfold bind at 1. rewrite Hx0. unfold lift at 1, ret at 1.
  unfold bind at 1. rewrite Hx1. unfold lift at 1, ret at 1.
  unfold bind at 1. rewrite Hy0. unfold lift at 1, ret at 1.
  unfold bind at 1. rewrite Hy1. unfold lift at 1, ret at 1.
  cbv zeta. fold grid. fold rmse_grid.
  unfold bind at 1, emit at 1.
  rewrite (bind_run _ _ _ _ _ _ Hc).
  rewrite (bind_run _ _ _ _ _ _
             (contourf_block_run s r vmax vmin grid rmse_grid fig z zvalue
                x y Hr Hmax Hmin)).
  unfold ret. cbn [app]. now rewrite app_nil_r.
Qed.

End SliceEffects.

(** X13.  On a store whose misfit sequence is aligned with the rupture
    list, a slice with a selected candidate prints the misfits it returns,
    clears the figure once, and then saves the figure exactly when
    [plt.contourf], called with the largest and the least misfit of the
    whole store as colour limits, returns; when it raises [ValueError]
    nothing is saved and the only-one-location line is printed.  Before
    that at most one such line is printed for the contour overlay, and
    none when [sigma] or [uncert_fun] does not exist. *)
Theorem uncertainty_slice_saves_figure_iff_contourf_returns
  (z975 : R) (Grid GridValues : Type)
  (np_mgrid : R * R * R -> R * R * R -> Grid)
  (griddata_nearest : list R -> list R -> list R -> Grid -> GridValues)
  (plt_contour : Grid -> GridValues -> list (option R) -> bool)
  (plt_contourf : Grid -> GridValues -> R -> R -> bool)
  (s : RuptureGmf) (r : list R) (x y z : Param) (zvalue : R)
  (fig : option string) :
  rmse s = Some r ->
  length (rupture_list s) = length r ->
  (exists c rup, selected s z zvalue c rup) ->
  exists xs ys rmse_list out_c grid rmse_grid vmax vmin,
    py_max r = Some vmax /\
    py_min r = Some vmin /\
    uncertainty_slice z975 Grid GridValues np_mgrid griddata_nearest
      plt_contour plt_contourf x y z zvalue fig s
    = (Ok (xs, ys, rmse_list), s,
       [PrintLine [Str "rmse_subset"; Arr rmse_list]; PltClf] ++ out_c ++
       (if plt_contourf grid rmse_grid vmax vmin
        then [SaveFig fig z zvalue x y] else [PrintLine only_one])) /\
    (out_c = [] \/ out_c = [PrintLine only_one]) /\
    (sigma s = None \/ uncert_fun s = None -> out_c = []).
Proof.
  intros Hr Hal Hex.
  destruct (selection_exists s r z zvalue Hal) as (sel & rs & Hsel & Hrs).
  apply (uncertainty_slice_effects z975 Grid GridValues np_mgrid
           griddata_nearest plt_contour plt_contourf
           s r x y z zvalue fig sel rs Hr Hsel Hrs).
  now apply (selection_nonempty s r z zvalue sel rs Hsel Hrs).
Qed.

(** X13 in scenario A with a backend whose plots all raise. *)
Lemma uncertainty_slice_saves_figure_iff_contourf_returns_witness :
  exists xs ys rmse_list out_c (grid rmse_grid : unit) vmax vmin,
    py_max [0; 1; 1] = Some vmax /\
    py_min [0; 1; 1] = Some vmin /\
    uncertainty_slice z975_approx unit unit
      (fun _ _ => tt) (fun _ _ _ _ => tt)
      (fun _ _ _ => false) (fun _ _ _ _ => false)
      Plongitude Pdepth Pmag 7 None scenario_A
    = (Ok (xs, ys, rmse_list), scenario_A,
       [PrintLine [Str "rmse_subset"; Arr rmse_list]; PltClf] ++ out_c ++
       [PrintLine only_one]) /\
    (out_c = [] \/ out_c = [PrintLine only_one]) /\
    (sigma scenario_A = None \/ uncert_fun scenario_A = None -> out_c = []).
Proof.
  apply (uncertainty_slice_saves_figure_iff_contourf_returns z975_approx
           unit unit (fun _ _ => tt) (fun _ _ _ _ => tt)
           (fun _ _ _ => false) (fun _ _ _ _ => false)
           scenario_A [0; 1; 1] Plongitude Pdepth Pmag 7 None).
  - now rewrite scenario_A_state.
  - now rewrite scenario_A_state.
  - exists 0%nat, rup_a. exact scenario_A_magnitude_7.
Defined.

(** ** Parameter slice: the order of the returned lists *)

Lemma sorted_keys_app l1 l2 :
  sorted_keys l1 -> sorted_keys l2 ->
  (forall a b, In a l1 -> In b l2 -> key_lt a b) ->
  sorted_keys (l1 ++ l2).
Proof.
  induction 1 as [|k l Hl IH Hk]; intros H2 Hlt; simpl; [exact H2|].
  constructor.
  - apply IH; [exact H2|]. intros a b Ha Hb. apply Hlt; [now right | exact Hb].
  - intros k' Hk'. apply in_app_or in Hk'. destruct Hk' as [Hk'|Hk'].
    + now apply Hk.
    + apply Hlt; [now left | exact Hk'].
Qed.

Lemma slice_cell_keys xv yv rs a b k :
  In k (map entry_key (slice_cell xv yv rs a b)) -> k = (a, b).
Proof.
  intros H. apply in_map_iff in H. destruct H as (t & <- & Ht).
  now apply (slice_cell_key xv yv rs a b).
Qed.

Lemma slice_row_keys xv yv rs a yus k :
  In k (map entry_key (slice_row xv yv rs a yus)) ->
  fst k = a /\ In (snd k) yus.
Proof.
  intros H. apply in_map_iff in H. destruct H as (t & <- & Ht).
  apply in_flat_map in Ht. destruct Ht as (b & Hb & Ht).
  rewrite (slice_cell_key _ _ _ _ _ _ Ht). now split.
Qed.

Lemma slice_row_sorted xv yv rs a yus :
  increasing yus -> sorted_keys (map entry_key (slice_row xv yv rs a yus)).
Proof.
  induction 1 as [|b yus Hy IH Hb]; [constructor|].
  unfold slice_row. cbn [flat_map]. rewrite map_app.
  apply sorted_keys_app; [| exact IH |].
  - pose proof (slice_cell_keys_NoDup xv yv rs a b) as Hnd.
    destruct (map entry_key (slice_cell xv yv rs a b)) as [|k [|k' l]] eqn:E.
    + constructor.
    + constructor; [constructor | intros k' []].
    + exfalso.
      assert (H1 : k = (a, b))
        by (apply (slice_cell_keys xv yv rs a b); rewrite E; now left).
      assert (H2 : k' = (a, b))
        by (apply (slice_cell_keys xv yv rs a b); rewrite E; right; now left).
      subst. inversion Hnd as [|? ? Hnot _]. apply Hnot. now left.
  - intros k1 k2 H1 H2. apply slice_cell_keys in H1. subst k1.
    apply slice_row_keys in H2. destruct H2 as [Hf Hs].
    right. simpl. split; [now rewrite Hf | now apply Hb].
Qed.

Lemma slice_entries_sorted xv yv rs xus :
  increasing xus ->
  sorted_keys (map entry_key (slice_entries xv yv rs xus)).
Proof.
  induction 1 as [|a xus Hx IH Ha]; [constructor|].
  unfold slice_entries. cbn [flat_map]. rewrite map_app.
  apply sorted_keys_app.
  - apply slice_row_sorted, np_unique_increasing.
  - exact IH.
  - intros k1 k2 H1 H2. apply slice_row_keys in H1. destruct H1 as [H1 _].
    rewrite map_flat_map_comm in H2. apply in_flat_map in H2.
    destruct H2 as (a' & Ha' & H2).
    apply slice_row_keys in H2. destruct H2 as [H2 _].
    left. rewrite H1, H2. now apply Ha.
Qed.

Lemma combine_entry_keys E :
  combine (map entry_x E) (map entry_y E) = map entry_key E.
Proof. induction E as [|t E IH]; simpl; [reflexivity | now rewrite IH]. Qed.

(** X14.  The lists a slice returns are parallel and ordered: on a store
    whose misfit sequence is aligned with the rupture list, a slice with a
    selected candidate returns three lists of one length whose (x, y)
    pairs increase strictly, by x and for equal x by y. *)
Theorem uncertainty_slice_returns_sorted_pairs
  (z975 : R) (Grid GridValues : Type)
  (np_mgrid : R * R * R -> R * R * R -> Grid)
  (griddata_nearest : list R -> list R -> list R -> Grid -> GridValues)
  (plt_contour : Grid -> GridValues -> list (option R) -> bool)
  (plt_contourf : Grid -> GridValues -> R -> R -> bool)
  (s : RuptureGmf) (r : list R) (x y z : Param) (zvalue : R)
  (fig : option string) :
  rmse s = Some r ->
  length (rupture_list s) = length r ->
  (exists c rup, selected s z zvalue c rup) ->
  exists xs ys rmse_list,
    outcome_of (uncertainty_slice z975 Grid GridValues np_mgrid
                  griddata_nearest plt_contour plt_contourf
                  x y z zvalue fig s)
    = Ok (xs, ys, rmse_list) /\
    length xs = length ys /\
    length ys = length rmse_list /\
    sorted_keys (combine xs ys).
Proof.
  intros Hr Hal Hex.
  destruct (selection_exists s r z zvalue Hal) as (sel & rs & Hsel & Hrs).
  set (xv := map (param_value x) sel).
  set (E := slice_entries xv (map (param_value y) sel) rs (np_unique xv)).
  exists (map entry_x E), (map entry_y E), (map entry_rmse E).
  split.
  - apply runs_ok_outcome. rewrite <- append_entries_nil.
    apply (proj1 (uncertainty_slice_run z975 Grid GridValues np_mgrid
                    griddata_nearest plt_contour plt_contourf
                    s r x y z zvalue fig sel rs Hr Hsel Hrs)).
    now apply (selection_nonempty s r z zvalue sel rs Hsel Hrs).
  - rewrite !length_map, combine_entry_keys.
    repeat split. apply slice_entries_sorted, np_unique_increasing.
Qed.

(** X14 in scenario A. *)
Lemma uncertainty_slice_returns_sorted_pairs_witness :
  exists xs ys rmse_list,
    outcome_of (uncertainty_slice z975_approx unit unit
                  (fun _ _ => tt) (fun _ _ _ _ => tt)
                  (fun _ _ _ => true) (fun _ _ _ _ => true)
                  Plongitude Pdepth Pmag 7 None scenario_A)
    = Ok (xs, ys, rmse_list) /\
    length xs = length ys /\
    length ys = length rmse_list /\
    sorted_keys (combine xs ys).
Proof.
  apply (uncertainty_slice_returns_sorted_pairs z975_approx unit unit
           (fun _ _ => tt) (fun _ _ _ _ => tt)
           (fun _ _ _ => true) (fun _ _ _ _ => true)
           scenario_A [0; 1; 1] Plongitude Pdepth Pmag 7 None).
  - now rewrite scenario_A_state.
  - now rewrite scenario_A_state.
  - exists 0%nat, rup_a. exact scenario_A_magnitude_7.
Defined.

(** ** From the sources to the misfits *)

Section Pipeline.

Variable compute_gmf : Rupture -> list R.
Variable rsa2mmi8 : list R -> list R.

Lemma store_ruptures rups : forall g,
  fold_left (store_rupture compute_gmf) rups g
  = mkGenerator (sources g) (gmf_list g ++ map compute_gmf rups)
      (set_rupture_list (rupture_list (engine g) ++ rups) (engine g)).
Proof.
  induction rups as [|rup rups IH]; intros [srcs gmfs e].
  - simpl. rewrite !app_nil_r. now destruct e.
  - cbn [fold_left]. rewrite IH. unfold store_rupture.
    cbn [sources gmf_list engine set_rupture_list rupture_list map].
    now rewrite <- !app_assoc.
Qed.

Lemma calculate_loop l : forall g,
  fold_left
    (fun g source =>
       fold_left (store_rupture compute_gmf) (iter_ruptures source) g) l g
  = mkGenerator (sources g)
      (gmf_list g ++ map compute_gmf (flat_map iter_ruptures l))
      (set_rupture_list
         (rupture_list (engine g) ++ flat_map iter_ruptures l) (engine g)).
Proof.
  induction l as [|src l IH]; intros g.
  - destruct g as [srcs gmfs e]. simpl. rewrite !app_nil_r. now destruct e.
  - cbn [fold_left flat_map]. rewrite IH, store_ruptures.
    cbn [sources gmf_list engine set_rupture_list rupture_list].
    now rewrite map_app, <- !app_assoc.
Qed.

Lemma calculate_run g :
  calculate compute_gmf g
  = mkGenerator (sources g)
      (gmf_list g ++ map compute_gmf (flat_map iter_ruptures (sources g)))
      (set_rupture_list
         (rupture_list (engine g) ++ flat_map iter_ruptures (sources g))
         (engine g)).
Proof. apply calculate_loop. Qed.

Lemma rsa2mmi_loop l : forall g,
  fold_left
    (fun g gmf =>
       let mmi := rsa2mmi8 gmf in
       mkGenerator (sources g) (gmf_list g)
         (set_mmi_list (mmi_list (engine g) ++ [mmi]) (engine g))) l g
  = mkGenerator (sources g) (gmf_list g)
      (set_mmi_list (mmi_list (engine g) ++ map rsa2mmi8 l) (engine g)).
Proof.
  induction l as [|gmf l IH]; intros [srcs gmfs e].
  - simpl. rewrite app_nil_r. now destruct e.
  - cbn [fold_left]. rewrite IH.
    cbn [sources gmf_list engine set_mmi_list mmi_list map].
    now rewrite <- app_assoc.
Qed.

Lemma rsa2mmi_run g :
  rsa2mmi rsa2mmi8 g
  = mkGenerator (sources g) (gmf_list g)
      (set_mmi_list (mmi_list (engine g) ++ map rsa2mmi8 (gmf_list g))
         (engine g)).
Proof. apply rsa2mmi_loop. Qed.

(** X15.  [calculate] only appends: it adds the ruptures of every source,
    in source order, to [rupture_list] and their ground motion fields, in
    the same order, to [gmf_list], after what the lists already hold, and
    changes nothing else; so lists that are parallel before the call are
    parallel after it.  [calculate_from_pts] does the same. *)
Theorem calculate_appends_in_parallel (g : Generator) :
  let rups := flat_map iter_ruptures (sources g) in
  let g' := calculate compute_gmf g in
  rupture_list (engine g') = rupture_list (engine g) ++ rups /\
  gmf_list g' = gmf_list g ++ map compute_gmf rups /\
  sources g' = sources g /\
  engine g' = set_rupture_list (rupture_list (engine g')) (engine g) /\
  (gmf_list g = map compute_gmf (rupture_list (engine g)) ->
   gmf_list g' = map compute_gmf (rupture_list (engine g'))) /\
  calculate_from_pts compute_gmf g = g'.
Proof.
  cbv zeta. rewrite calculate_run.
  cbn [sources gmf_list engine rupture_list set_rupture_list].
  repeat split.
  - intros H. now rewrite H, map_app.
  - unfold calculate_from_pts. apply calculate_loop.
Qed.

Lemma fresh_pipeline srcs :
  rsa2mmi rsa2mmi8 (calculate compute_gmf (init srcs))
  = mkGenerator srcs
      (map compute_gmf (flat_map iter_ruptures srcs))
      (new_RuptureGmf (flat_map iter_ruptures srcs)
         (map (fun rup => rsa2mmi8 (compute_gmf rup))
            (flat_map iter_ruptures srcs))).
Proof.
  rewrite rsa2mmi_run, calculate_run. unfold init, new_RuptureGmf.
  cbn [sources gmf_list engine rupture_list mmi_list set_rupture_list
       set_mmi_list app sum_squares_list mmi_obs rmse best_rupture
       min_rmse sigma uncert_fun fitted_ruptures fitted_lists ranges].
  now rewrite map_map.
Qed.

(** X16.  [rsa2mmi] converts every field of [gmf_list], also those it
    converted before: it appends one intensity field per ground motion
    field to [mmi_list].  After [calculate] and one [rsa2mmi] on a new
    object the intensity fields are parallel to the ruptures; a second
    [rsa2mmi] appends them all again, so [mmi_list] is then twice as long
    as [rupture_list]. *)
Theorem rsa2mmi_appends_every_field (srcs : list Source) :
  (forall g,
     mmi_list (engine (rsa2mmi rsa2mmi8 g))
     = mmi_list (engine g) ++ map rsa2mmi8 (gmf_list g) /\
     rupture_list (engine (rsa2mmi rsa2mmi8 g)) = rupture_list (engine g) /\
     gmf_list (rsa2mmi rsa2mmi8 g) = gmf_list g) /\
  let rups := flat_map iter_ruptures srcs in
  let fields := map (fun rup => rsa2mmi8 (compute_gmf rup)) rups in
  let once := rsa2mmi rsa2mmi8 (calculate compute_gmf (init srcs)) in
  engine once = new_RuptureGmf rups fields /\
  mmi_list (engine (rsa2mmi rsa2mmi8 once)) = fields ++ fields /\
  length (mmi_list (engine (rsa2mmi rsa2mmi8 once)))
  = (2 * length (rupture_list (engine (rsa2mmi rsa2mmi8 once))))%nat.
Proof.
  split.
  - intros g. rewrite rsa2mmi_run. repeat split.
  - cbv zeta.
    rewrite fresh_pipeline. rewrite rsa2mmi_run.
    cbn [sources gmf_list engine rupture_list mmi_list set_mmi_list
         new_RuptureGmf].
    rewrite map_map. repeat split.
    rewrite length_app, !length_map. lia.
Qed.

End Pipeline.

(** X17.  From the sources to the best fit: on a new object whose sources
    yield at least one rupture, with intensity fields of the observations'
    length, [calculate], [rsa2mmi], [calc_rmse] without weights and
    [find_best_fit] all return; the misfit sequence has one entry per
    rupture, the root-mean-square error of its intensity field, and the
    best rupture is a rupture of one of the sources whose error is least
    among the ruptures of all sources, [min_rmse] being that error. *)
Theorem calculate_to_best_fit
  (compute_gmf : Rupture -> list R) (rsa2mmi8 : list R -> list R)
  (srcs : list Source) (obs : list R) :
  let rups := flat_map iter_ruptures srcs in
  let field := fun rup => rsa2mmi8 (compute_gmf rup) in
  rups <> [] ->
  (forall rup, In rup rups -> length (field rup) = length obs) ->
  let s0 := engine (rsa2mmi rsa2mmi8 (calculate compute_gmf (init srcs))) in
  let s1 := state_of (calc_rmse obs None s0) in
  let s2 := state_of (find_best_fit s1) in
  outcome_of (calc_rmse obs None s0) = Ok tt /\
  rmse s1 = Some (map (fun rup => rmse_spec (field rup) obs) rups) /\
  rupture_list s1 = rups /\
  outcome_of (find_best_fit s1) = Ok tt /\
  exists best,
    best_rupture s2 = Some best /\
    (exists source, In source srcs /\ In best (iter_ruptures source)) /\
    min_rmse s2 = Some (rmse_spec (field best) obs) /\
    forall rup, In rup rups ->
                rmse_spec (field best) obs <= rmse_spec (field rup) obs.
Proof.
  intros rups field Hne Hlen s0 s1 s2.
  assert (Hs0 : s0 = new_RuptureGmf rups (map field rups)).
  { unfold s0. now rewrite fresh_pipeline. }
  assert (Hrun := calc_rmse_unweighted_run s0 obs).
  rewrite Hs0 in Hrun.
  specialize (Hrun eq_refl).
  assert (Hf : Forall (fun mmi => length mmi = length obs)
                 (mmi_list (new_RuptureGmf rups (map field rups)))).
  { apply Forall_forall. intros mmi Hin. apply in_map_iff in Hin.
    destruct Hin as (rup & <- & Hin). now apply Hlen. }
  specialize (Hrun Hf).
  assert (Hr : rmse s1 = Some (map (fun rup => rmse_spec (field rup) obs) rups)).
  { unfold s1. rewrite Hs0.
    rewrite (calc_rmse_unweighted_rmse
               (new_RuptureGmf rups (map field rups)) obs eq_refl Hf).
    cbn [mmi_list new_RuptureGmf]. now rewrite map_map. }
  assert (Hrl : rupture_list s1 = rups).
  { unfold s1. rewrite Hs0, Hrun. reflexivity. }
  set (r := map (fun rup => rmse_spec (field rup) obs) rups) in *.
  assert (Hrne : r <> []) by (unfold r; now destruct rups).
  destruct (np_argmin_spec r Hrne) as (index & m & Ha & Hm & Hle & _).
  assert (Hb : exists best, nth_error rups index = Some best /\
                            m = rmse_spec (field best) obs).
  { unfold r in Hm. rewrite nth_error_map in Hm.
    destruct (nth_error rups index) as [best|]; [|discriminate].
    exists best. split; [reflexivity | now injection Hm]. }
  destruct Hb as (best & Hbest & Em).
  assert (Hrup : nth_error (rupture_list s1) index = Some best)
    by (now rewrite Hrl).
  pose proof (find_best_fit_run s1 r index m best Hr Ha Hrup Hm) as Hfb.
  split; [unfold s0 in *; now rewrite Hs0, Hrun|].
  split; [exact Hr|]. split; [exact Hrl|].
  split; [now rewrite Hfb|].
  exists best. unfold s2. rewrite Hfb. cbn [state_of fst snd].
  split; [reflexivity|].
  split.
  { apply nth_error_In in Hbest. unfold rups in Hbest.
    apply in_flat_map in Hbest. exact Hbest. }
  split; [cbn; now rewrite Em|].
  intros rup Hin. rewrite <- Em.
  destruct (In_nth_error _ _ Hin) as [j Hj].
  apply (Hle j). unfold r. now rewrite nth_error_map, Hj.
Qed.

(** X17 for one source with two ruptures and constant fields. *)
Lemma calculate_to_best_fit_witness :
  outcome_of
    (find_best_fit
       (state_of
          (calc_rmse [5; 5; 5] None
             (engine
                (rsa2mmi (fun gmf => gmf)
                   (calculate (fun _ => [5; 5; 5])
                      (init [mkSource "1" "a" "Active Shallow Crust"
                               [rup_a; rup_b]])))))))
  = Ok tt.
Proof.
  refine (proj1 (proj2 (proj2 (proj2
    (calculate_to_best_fit (fun _ => [5; 5; 5]) (fun gmf => gmf)
       [mkSource "1" "a" "Active Shallow Crust" [rup_a; rup_b]]
       [5; 5; 5] _ _))))).
  - discriminate.
  - intros rup _. reflexivity.
Defined.

(** ** The dictionaries of sources *)

Lemma dict_get_append d k v k' :
  dict_get (dict_append d k v) k'
  = if String.eqb k k'
    then Some (match dict_get d k with
               | Some l => l ++ [v]
               | None => [v]
               end)
    else dict_get d k'.
Proof.
  induction d as [|[k0 l0] d IH]; simpl.
  - destruct (String.eqb k k'); reflexivity.
  - destruct (String.eqb k0 k) eqn:E0; simpl.
    + apply String.eqb_eq in E0. subst k0.
      destruct (String.eqb k k'); reflexivity.
    + destruct (String.eqb k0 k') eqn:E1.
      * apply String.eqb_eq in E1. subst k0.
        rewrite String.eqb_sym in E0. now rewrite E0.
      * rewrite IH. destruct (String.eqb k k'); reflexivity.
Qed.

Lemma grouping_get l k : forall d,
  dict_get
    (fold_left
       (fun d source => dict_append d (tectonic_region_type source) source)
       l d) k
  = match dict_get d k, sources_of_type k l with
    | Some l0, Some group => Some (l0 ++ group)
    | Some l0, None => Some l0
    | None, g => g
    end.
Proof.
  unfold sources_of_type.
  induction l as [|src l IH]; intros d.
  - simpl. now destruct (dict_get d k).
  - cbn [fold_left filter]. rewrite IH, dict_get_append.
    destruct (String.eqb (tectonic_region_type src) k) eqn:E.
    + apply String.eqb_eq in E. rewrite E.
      destruct (dict_get d k) as [l0|];
        destruct (filter _ l) as [|s' g]; simpl;
        rewrite <- ?app_assoc; reflexivity.
    + reflexivity.
Qed.

Lemma flatten_groups groups : forall acc,
  fold_left
    (fun sources group =>
       fold_left (fun sources (source : Source) => sources ++ [source])
         group sources) groups acc
  = acc ++ concat groups.
Proof.
  assert (Hin : forall (group : list Source) acc,
            fold_left (fun sources source => sources ++ [source]) group acc
            = acc ++ group).
  { induction group as [|x group IH]; intros acc; simpl.
    - now rewrite app_nil_r.
    - rewrite IH. now rewrite <- app_assoc. }
  induction groups as [|g groups IH]; intros acc; simpl.
  - now rewrite app_nil_r.
  - rewrite IH, Hin. now rewrite app_assoc.
Qed.

(** X18.  [get_sources] groups the parsed sources by tectonic region
    type: the entry of a type is the list of the sources of that type in
    the order the parser gave them, and a type without source is no key
    of the dictionary.  The sources are those of [parse_sources], or,
    where that call raises [AttributeError], those of the groups of
    [parse_src_groups] one group after the other. *)
Theorem get_sources_groups_by_type (parser : ParsedModel) (k : string) :
  dict_get (get_sources parser) k
  = sources_of_type k (parsed_sources parser) /\
  (forall group, dict_get (get_sources parser) k = Some group ->
     group <> [] /\
     forall source, In source group <->
       In source (parsed_sources parser) /\
       tectonic_region_type source = k) /\
  (parse_sources parser = None ->
   parsed_sources parser = concat (parse_src_groups parser)).
Proof.
  assert (H : dict_get (get_sources parser) k
              = sources_of_type k (parsed_sources parser)).
  { unfold get_sources. rewrite grouping_get. reflexivity. }
  split; [exact H|]. split.
  - intros group Hg. rewrite H in Hg. unfold sources_of_type in Hg.
    destruct (filter _ (parsed_sources parser)) as [|s0 g] eqn:E;
      [discriminate|].
    injection Hg as <-. split; [discriminate|].
    intros source. rewrite <- E, filter_In, String.eqb_eq. reflexivity.
  - intros Hn. unfold parsed_sources. rewrite Hn.
    apply (flatten_groups (parse_src_groups parser) []).
Qed.

Lemma str_replace_no_old old new s :
  str_contains old new = false ->
  str_contains old (str_replace old new s) = false.
Proof.
  intros Hnew.
  assert (Happ : forall a b, str_contains old (a ++ b)
                             = str_contains old a || str_contains old b).
  { induction a as [|c a IH]; intros b; simpl; [reflexivity|].
    now rewrite IH, orb_assoc. }
  induction s as [|c s IH]; simpl; [reflexivity|].
  destruct (Ascii.eqb c old) eqn:E.
  - now rewrite Happ, Hnew, IH.
  - simpl. now rewrite E, IH.
Qed.

Lemma pt_grouping_get (a2p : Source -> list Source) l k : forall d,
  dict_get
    (fold_left
       (fun new_pt_sources source =>
          fold_left
            (fun new_pt_sources pt =>
               let pt := rename_point pt in
               dict_append new_pt_sources (tectonic_region_type pt) pt)
            (a2p source) new_pt_sources) l d) k
  = match dict_get d k,
          sources_of_type k (map rename_point (flat_map a2p l)) with
    | Some l0, Some group => Some (l0 ++ group)
    | Some l0, None => Some l0
    | None, g => g
    end.
Proof.
  assert (Hinner : forall pts d,
    fold_left
      (fun new_pt_sources pt =>
         let pt := rename_point pt in
         dict_append new_pt_sources (tectonic_region_type pt) pt) pts d
    = fold_left
        (fun d source => dict_append d (tectonic_region_type source) source)
        (map rename_point pts) d).
  { induction pts as [|pt pts IH]; intros d; simpl; [reflexivity|].
    now rewrite IH. }
  assert (Houter : forall l d,
    fold_left
      (fun new_pt_sources source =>
         fold_left
           (fun new_pt_sources pt =>
              let pt := rename_point pt in
              dict_append new_pt_sources (tectonic_region_type pt) pt)
           (a2p source) new_pt_sources) l d
    = fold_left
        (fun d source => dict_append d (tectonic_region_type source) source)
        (map rename_point (flat_map a2p l)) d).
  { induction l0 as [|src l0 IH]; intros d; [reflexivity|].
    cbn [fold_left flat_map]. rewrite IH, Hinner, map_app, fold_left_app.
    reflexivity. }
  intros d. rewrite Houter. apply grouping_get.
Qed.

(** X19.  [get_pt_sources] groups the point sources of all parsed area
    sources by tectonic region type, in order, after renaming them; in
    the dictionary no source id and no name holds a colon, and a name is
    as long as it was. *)
Theorem get_pt_sources_renames_and_groups
  (area_to_point_sources : Source -> list Source) (parser : ParsedModel)
  (k : string) :
  dict_get (get_pt_sources area_to_point_sources parser) k
  = sources_of_type k
      (map rename_point
         (flat_map area_to_point_sources (parsed_sources parser))) /\
  (forall pt, tectonic_region_type (rename_point pt)
              = tectonic_region_type pt /\
              iter_ruptures (rename_point pt) = iter_ruptures pt /\
              String.length (name (rename_point pt))
              = String.length (name pt)) /\
  forall group pt,
    dict_get (get_pt_sources area_to_point_sources parser) k = Some group ->
    In pt group ->
    str_contains ":" (source_id pt) = false /\
    str_contains ":" (name pt) = false /\
    tectonic_region_type pt = k.
Proof.
  assert (H : dict_get (get_pt_sources area_to_point_sources parser) k
              = sources_of_type k
                  (map rename_point
                     (flat_map area_to_point_sources
                        (parsed_sources parser)))).
  { unfold get_pt_sources. rewrite pt_grouping_get. reflexivity. }
  split; [exact H|]. split.
  - intros pt. repeat split. unfold rename_point. cbn [name].
    induction (name pt) as [|c n IH]; [reflexivity|]. simpl.
    destruct (Ascii.eqb c ":"); simpl; now rewrite IH.
  - intros group pt Hg Hin. rewrite H in Hg. unfold sources_of_type in Hg.
    destruct (filter _ _) as [|s0 g] eqn:E; [discriminate|].
    injection Hg as <-. rewrite <- E in Hin.
    apply filter_In in Hin. destruct Hin as [Hin Hk].
    apply String.eqb_eq in Hk.
    apply in_map_iff in Hin. destruct Hin as (pt0 & <- & _).
    unfold rename_point in *. cbn [source_id name] in *.
    repeat split; try exact Hk; now apply str_replace_no_old.
Qed.

(** ** The plotting script *)

Section MakeMapsProofs.

Import MakeMaps.

Variable py_int : string -> option Z.
Variable quote : string -> string.

Lemma str_split_nonempty sep s : str_split sep s <> [].
Proof.
  destruct s as [|c s]; simpl; [discriminate|].
  destruct (Ascii.eqb c sep); [discriminate|].
  destruct (str_split sep s); discriminate.
Qed.

Lemma str_split_length sep s :
  length (str_split sep s) = S (count_char sep s).
Proof.
  induction s as [|c s IH]; simpl; [reflexivity|].
  destruct (Ascii.eqb c sep); simpl.
  - now rewrite IH.
  - destruct (str_split sep s) as [|piece pieces] eqn:E.
    + now destruct (str_split_nonempty sep s).
    + exact IH.
Qed.

Lemma str_split_app sep a b :
  str_contains sep a = false ->
  str_split sep (a ++ String sep b) = a :: str_split sep b.
Proof.
  induction a as [|c a IH]; simpl.
  - intros _. now rewrite Ascii.eqb_refl.
  - intros H. apply orb_false_iff in H. destruct H as [Hc Ha].
    rewrite Hc, (IH Ha). reflexivity.
Qed.

Lemma turn_system_inv filename cmd :
  In (System cmd) (fst (turn py_int quote filename)) ->
  exists field4 year bbox,
    nth_error (str_split "_" filename) 3 = Some "mmi"%string /\
    nth_error (str_split "_" filename) 4 = Some field4 /\
    py_int (substring 0 4 field4) = Some year /\
    In (year, bbox) bbox_dict /\
    cmd = ("python plot_maps.py " ++ ("data/" ++ substring 0 4 field4
             ++ "HMMI.txt") ++ " " ++ quote filename ++ " " ++ bbox)%string.
Proof.
  assert (Hlook : forall d k v, lookup d k = Some v -> In (k, v) d).
  { induction d as [|[k' v'] d IH]; simpl; intros k v H; [discriminate|].
    destruct (Z.eqb k' k) eqn:E.
    - apply Z.eqb_eq in E. injection H as <-. subst. now left.
    - right. now apply IH. }
  unfold turn.
  destruct (nth_error (str_split "_" filename) 3) as [field3|] eqn:E3;
    [|intros []].
  destruct (String.eqb field3 "mmi") eqn:Ek; cbn [negb]; [|intros []].
  apply String.eqb_eq in Ek. subst field3.
  destruct (nth_error (str_split "_" filename) 4) as [field4|] eqn:E4;
    [|intros []].
  destruct (py_int (substring 0 4 field4)) as [year|] eqn:Ey.
  - destruct (lookup bbox_dict year) as [bbox|] eqn:Eb.
    + cbn [fst In]. intros [H|[H|[H|[]]]]; try discriminate.
      injection H as <-. exists field4, year, bbox.
      repeat split; try assumption. now apply Hlook.
    + cbn [fst In]. intros [H|[]]. discriminate.
  - cbn [fst In]. intros [H|[]]. discriminate.
Qed.

(** X20.  Whatever the list of files, every command the script passes
    to [os.system] is built from one file of the list whose fourth
    underscore-separated field is [mmi], whose year (the first four
    characters of the fifth field) is converted by [int] to a key of
    [bbox_dict], and it names the observation file of that year, the
    quoted file name and the bounding box of that year. *)
Theorem main_runs_only_known_events (filelist : list string) (cmd : string) :
  In (System cmd) (fst (main py_int quote filelist)) ->
  exists filename field4 year bbox,
    In filename filelist /\
    nth_error (str_split "_" filename) 3 = Some "mmi"%string /\
    nth_error (str_split "_" filename) 4 = Some field4 /\
    py_int (substring 0 4 field4) = Some year /\
    In (year, bbox) bbox_dict /\
    cmd = ("python plot_maps.py " ++ ("data/" ++ substring 0 4 field4
             ++ "HMMI.txt") ++ " " ++ quote filename ++ " " ++ bbox)%string.
Proof.
  induction filelist as [|filename rest IH]; [intros []|].
  cbn [main]. intros H.
  assert (Hcase : In (System cmd) (fst (turn py_int quote filename)) \/
                  In (System cmd) (fst (main py_int quote rest))).
  { destruct (turn py_int quote filename) as [effects [e|]].
    - now left.
    - destruct (main py_int quote rest) as [effects' r].
      cbn [fst] in *. apply in_app_or in H. exact H. }
  destruct Hcase as [Ht|Hr].
  - destruct (turn_system_inv _ _ Ht) as (field4 & year & bbox & Hx).
    exists filename, field4, year, bbox. split; [now left|exact Hx].
  - destruct (IH Hr) as (f & field4 & year & bbox & Hin & Hx).
    exists f, field4, year, bbox. split; [now right|exact Hx].
Qed.

(** X21.  The loop over two lists one after the other: where the first
    list raises, that is the result and no file of the second list has any
    effect; where it completes, the second list runs after it. *)
Theorem main_app (l1 l2 : list string) :
  main py_int quote (l1 ++ l2)
  = match main py_int quote l1 with
    | (effects, Some e) => (effects, Some e)
    | (effects, None) =>
        (effects ++ fst (main py_int quote l2),
         snd (main py_int quote l2))
    end.
Proof.
  induction l1 as [|filename l1 IH].
  - simpl. now destruct (main py_int quote l2).
  - cbn [app main]. destruct (turn py_int quote filename) as [effects [e|]];
      [reflexivity|].
    rewrite IH. destruct (main py_int quote l1) as [effects1 [e1|]].
    + reflexivity.
    + cbn [fst snd]. now rewrite app_assoc.
Qed.

(** X22.  A file name [a_b_c_kind_rest], with no underscore in [a], [b],
    [c] and [kind]: unless [kind] is [mmi] the turn does nothing; else the
    event is the first four characters of [rest] up to its first
    underscore, it is printed, and then [int] and [bbox_dict] decide
    between [ValueError], [KeyError] and the command. *)
Theorem turn_on_named_file (a b c kind rest : string) :
  str_contains "_" a = false ->
  str_contains "_" b = false ->
  str_contains "_" c = false ->
  str_contains "_" kind = false ->
  let filename := (a ++ "_" ++ b ++ "_" ++ c ++ "_" ++ kind ++ "_" ++ rest)%string in
  let event := substring 0 4 (hd EmptyString (str_split "_" rest)) in
  turn py_int quote filename
  = if String.eqb kind "mmi" then
      match py_int event with
      | None => ([Print event], Some ValueError)
      | Some year =>
          match lookup bbox_dict year with
          | None => ([Print event], Some KeyError)
          | Some bbox =>
              let cmd := ("python plot_maps.py "
                          ++ ("data/" ++ event ++ "HMMI.txt") ++ " "
                          ++ quote filename ++ " " ++ bbox)%string in
              ([Print event; Print cmd; System cmd], None)
          end
      end
    else ([], None).
Proof.
  intros Ha Hb Hc Hk filename event.
  assert (Hsplit : str_split "_" filename
                   = a :: b :: c :: kind :: str_split "_" rest).
  { unfold filename. cbn [append].
    rewrite (str_split_app "_" a _ Ha), (str_split_app "_" b _ Hb),
      (str_split_app "_" c _ Hc), (str_split_app "_" kind _ Hk).
    reflexivity. }
  unfold turn. rewrite Hsplit. cbn [nth_error].
  destruct (String.eqb kind "mmi"); cbn [negb]; [|reflexivity].
  unfold event.
  destruct (str_split "_" rest) as [|field4 pieces] eqn:E.
  { now destruct (str_split_nonempty "_" rest). }
  cbn [hd].
  destruct (py_int (substring 0 4 field4)) as [year|]; [|reflexivity].
  destruct (lookup bbox_dict year) as [bbox|]; [|reflexivity].
  reflexivity.
Qed.

(** X23.  A file name with fewer than three underscores raises
    [IndexError] before anything is printed, and the script stops there:
    nothing is done for the files after it. *)
Theorem main_stops_at_short_name (filename : string) (rest : list string) :
  (count_char "_" filename < 3)%nat ->
  main py_int quote (filename :: rest) = ([], Some IndexError).
Proof.
  intros H. cbn [main]. unfold turn.
  destruct (nth_error (str_split "_" filename) 3) as [field3|] eqn:E.
  - assert (Hl : (3 < length (str_split "_" filename))%nat).
    { apply nth_error_Some. rewrite E. discriminate. }
    rewrite str_split_length in Hl. lia.
  - reflexivity.
Qed.

End MakeMapsProofs.

(** X20 on one file of the event of 1699. *)
Lemma main_runs_only_known_events_witness :
  exists filename field4 year bbox,
    In filename ["outputs/scenario_gmf_Sa1.0_mmi_1699.csv"%string] /\
    nth_error (MakeMaps.str_split "_" filename) 3 = Some "mmi"%string /\
    nth_error (MakeMaps.str_split "_" filename) 4 = Some field4 /\
    int_of_year (substring 0 4 field4) = Some year /\
    In (year, bbox) MakeMaps.bbox_dict /\
    ("python plot_maps.py data/1699HMMI.txt "
       ++ "outputs/scenario_gmf_Sa1.0_mmi_1699.csv 104/113/-9/-5")%string
    = ("python plot_maps.py " ++ ("data/" ++ substring 0 4 field4
         ++ "HMMI.txt") ++ " " ++ (fun s : string => s) filename ++ " "
         ++ bbox)%string.
Proof.
  apply (main_runs_only_known_events int_of_year (fun s => s)
           ["outputs/scenario_gmf_Sa1.0_mmi_1699.csv"%string]).
  vm_compute. right. right. left. reflexivity.
Defined.

(** X22 on a file of the event of 1834. *)
Lemma turn_on_named_file_witness :
  MakeMaps.turn int_of_year (fun s => s)
    "outputs/scenario_gmf_Sa1.0_mmi_1834.csv"
  = ([MakeMaps.Print "1834";
      MakeMaps.Print
        "python plot_maps.py data/1834HMMI.txt outputs/scenario_gmf_Sa1.0_mmi_1834.csv 105/110/-8/-5";
      MakeMaps.System
        "python plot_maps.py data/1834HMMI.txt outputs/scenario_gmf_Sa1.0_mmi_1834.csv 105/110/-8/-5"],
     None).
Proof.
  exact (turn_on_named_file int_of_year (fun s => s)
           "outputs/scenario" "gmf" "Sa1.0" "mmi" "1834.csv"
           eq_refl eq_refl eq_refl eq_refl).
Defined.

(** X23 on a name with one underscore. *)
Lemma main_stops_at_short_name_witness :
  MakeMaps.main int_of_year (fun s => s)
    ["outputs/summary_table.csv"%string;
     "outputs/scenario_gmf_Sa1.0_mmi_1699.csv"%string]
  = ([], Some MakeMaps.IndexError).
Proof.
  apply (main_stops_at_short_name int_of_year (fun s => s)).
  vm_compute. lia.
Defined.
